(** * NUERALOGIX-MINI: the compression-and-evaluation scripts, embedded

    A shallow embedding of the analysis scripts under [analysis/] and the
    properties their specification states about them.

    Numbers.  The scripts compute in numpy [float64].  Code that only
    compares, counts and averages is embedded over Rocq's primitive binary64
    floats ([PrimFloat]), so every definition evaluates to the very value
    the Python code produces ([nan] included).  The clustering and ranking
    code of [msmarco_run_compression.py], [run_real_world_evaluation.py] and
    [msmarco_eval_retrieval.py] is written once over an interface of scalar
    operations ([Scalar]) with two instances: binary64 (executable) and the
    real numbers (exact arithmetic, with the true [sqrt] and [log2]), the
    latter for statements quantified over every input.

    Library code that is not part of the repository (numpy, scikit-learn,
    the wall clock) appears either as a definition following its documented
    behaviour ([np_round], [np_percentile], [np_argmin], ...) or as a
    parameter ([KMeans], the two clock readings, [np.log2] on binary64).

    Part I holds the embedding, one module per source file; Part II the
    properties. *)

From Stdlib Require Import ZArith List Bool Floats Reals Lra Lia Sorted.
From stdpp Require Import gmap strings list sorting.

Set Warnings "-inexact-float,-abstract-large-number,-clear-no-such-hyp".
Set Default Proof Using "Type".

(** * Part I: the embedding *)

(** ** Python exceptions *)

Inductive exn : Type :=
| ValueError
| IndexError
| ZeroDivisionError.

Inductive result (A : Type) : Type :=
| Ok (a : A)
| Raise (e : exn).
Arguments Ok {A} a.
Arguments Raise {A} e.

Definition bind {A B : Type} (r : result A) (k : A -> result B) : result B :=
  match r with
  | Ok a => k a
  | Raise e => Raise e
  end.

Notation "'do' x <- r ; k" := (bind r (fun x => k))
  (at level 10, x pattern, r at level 100, k at level 200).

Definition returns {A : Type} (r : result A) : Prop := exists a, r = Ok a.

Definition raises {A : Type} (r : result A) : Prop := exists e, r = Raise e.

(** ** Binary64 primitives of numpy *)

Module F64.
Local Open Scope float_scope.

Definition two52 : float := 4503599627370496.

(** [np.isnan]. *)
Definition isnan (x : float) : bool := negb (x =? x).

(** [np.round(x)] (no decimals) is [rint]: round to the nearest integer,
    ties to the even one.  Below [2^52] the sum with [2^52] has no
    fractional bits left, so the hardware rounding of the sum is the
    rounding wanted; from [2^52] on every binary64 is an integer. *)
Definition np_round (x : float) : float :=
  if abs x <? two52 then
    if x <? 0 then - ((- x + two52) - two52)
    else if 0 <? x then (x + two52) - two52
    else x
  else x.

(** [np.floor]. *)
Definition np_floor (x : float) : float :=
  let r := np_round x in
  if x <? r then r - 1 else r.

(** [int(x)] for a finite [x]: truncation. *)
Definition to_Z (x : float) : Z :=
  match Prim2SF x with
  | S754_finite s m e =>
      let v := if (0 <=? e)%Z then (Z.pos m * 2 ^ e)%Z
               else (Z.pos m / 2 ^ (- e))%Z in
      if s then (- v)%Z else v
  | _ => 0%Z
  end.

(** [float(n)] for a Python [int] below [2^53] in size. *)
Definition of_Z (n : Z) : float :=
  if (n <? 0)%Z then - of_uint63 (Uint63.of_Z (- n))
  else of_uint63 (Uint63.of_Z n).

Definition of_nat (n : nat) : float := of_Z (Z.of_nat n).

(** The eight running sums of numpy's unrolled summation loop, after
    [blocks] more blocks of eight values: [r[j] += a[i + j]]. *)
Fixpoint add_blocks (blocks : nat) (r a : list float)
    : list float * list float :=
  match blocks with
  | O => (r, a)
  | S blocks' => add_blocks blocks' (zip_with add r (take 8 a)) (drop 8 a)
  end.

(** numpy's sum of 8 to 128 values: eight running sums over the whole
    blocks of eight, combined in pairs, then the values left over, in
    order. *)
Definition unrolled_sum (a : list float) : float :=
  let '(r, rest) :=
    add_blocks (length a / 8 - 1) (take 8 a) (drop 8 a) in
  let r (j : nat) := nth j r 0 in
  fold_left add rest
    (((r 0%nat + r 1%nat) + (r 2%nat + r 3%nat))
     + ((r 4%nat + r 5%nat) + (r 6%nat + r 7%nat))).

(** numpy's [pairwise_sum]: fewer than 8 values are added in order,
    starting from [-0.0]; up to 128 values go through [unrolled_sum]; a
    longer array is split at half its length, rounded down to a multiple
    of 8, and the sums of the two parts are added.  [depth] bounds the
    number of splits; the length of the array is more than enough. *)
Fixpoint pairwise_sum (depth : nat) (a : list float) : float :=
  let n := length a in
  if (n <? 8)%nat then fold_left add a neg_zero
  else
    match depth with
    | S depth' =>
        if (128 <? n)%nat then
          let n2 := (n / 2 - (n / 2) mod 8)%nat in
          pairwise_sum depth' (take n2 a) + pairwise_sum depth' (drop n2 a)
        else unrolled_sum a
    | O => unrolled_sum a
    end.

(** [np.sum] of a 1-d array, and [np.add.reduce] along a contiguous axis:
    the pairwise sum of the values, added to the initial value [0.0] of
    the reduction.  (Whether numpy starts the reduction from [0.0] or
    [-0.0] has varied; the two differ only in the sign of a sum that is
    zero.) *)
Definition np_sum (xs : list float) : float :=
  0 + pairwise_sum (length xs) xs.

(** [np.mean]; the mean of an empty array is [nan] (numpy warns). *)
Definition np_mean (xs : list float) : float :=
  np_sum xs / of_nat (length xs).

(** [np.std]: the population standard deviation, the square root of the
    mean of [(x - mean)**2]. *)
Definition np_std (xs : list float) : float :=
  let m := np_mean xs in
  PrimFloat.sqrt (np_mean (map (fun x => abs (x - m) * abs (x - m)) xs)).

(** Insertion into a list sorted by [<=], [nan] last, as [np.sort] and
    Python's [sorted] on floats without [nan] order. *)
Fixpoint insert_sorted (x : float) (l : list float) : list float :=
  match l with
  | [] => [x]
  | y :: l' =>
      if isnan y || (negb (isnan x) && (x <=? y))
      then x :: l else y :: insert_sorted x l'
  end.

Definition np_sort (l : list float) : list float :=
  fold_right insert_sorted [] l.

(** [np.median]: the middle of the sorted values, the mean of the two
    middle ones for an even count, [nan] when a value is [nan] or there is
    none. *)
Definition np_median (l : list float) : float :=
  let s := np_sort l in
  let n := length l in
  if existsb isnan l then nan
  else if Nat.even n
  then (nth (n / 2 - 1) s nan + nth (n / 2) s nan) / 2
  else nth (n / 2) s nan.

(** [np.min] and [np.max]: a [nan] anywhere gives [nan]; [ValueError]
    ("zero-size array to reduction operation") on an empty array. *)
Definition np_min (l : list float) : result float :=
  match l with
  | [] => Raise ValueError
  | x :: l' =>
      Ok (fold_left
            (fun m y => if isnan m then m
                        else if isnan y || (y <? m) then y else m)
            l' x)
  end.

Definition np_max (l : list float) : result float :=
  match l with
  | [] => Raise ValueError
  | x :: l' =>
      Ok (fold_left
            (fun m y => if isnan m then m
                        else if isnan y || (m <? y) then y else m)
            l' x)
  end.

(** [np.var]: the population variance. *)
Definition np_var (xs : list float) : float :=
  let m := np_mean xs in
  np_mean (map (fun x => abs (x - m) * abs (x - m)) xs).

End F64.

(** ** analysis/analyze_validation_results.py: the threshold verdict *)

Module analyze_validation_results.
Local Open Scope float_scope.

(** The statistics [aggregate_by_method] stores per method and metric. *)
Record metric_stats : Type := {
  mean : float;
  std : float;
  min : float;
  max : float;
  median : float;
}.

(** [stats[method][metric]]. *)
Definition stats_t : Type := gmap string (gmap string metric_stats).

(** One entry of the dictionary [compare_methods] returns. *)
Record comparison_entry : Type := {
  baseline : float;
  boundary_aware : float;
  improvement_pct : float;
  significant : bool;
}.

Definition comparison_t : Type := gmap string comparison_entry.

Definition metrics : list string :=
  ["recall_at_10"; "recall_at_100"; "mrr"; "ndcg_at_10";
   "mse_global"; "compression_time_seconds"].

Definition higher_is_better (metric : string) : bool :=
  bool_decide (metric ∈ ["recall_at_10"; "recall_at_100"; "mrr"; "ndcg_at_10"]).

(** The body of the loop over [metrics] in [compare_methods]. *)
Definition compare_metric (baseline boundary_aware : gmap string metric_stats)
    (comparison : comparison_t) (metric : string) : comparison_t :=
  match baseline !! metric, boundary_aware !! metric with
  | Some b, Some a =>
      let baseline_val := mean b in
      let ba_val := mean a in
      let improvement :=
        if higher_is_better metric
        then (if negb (baseline_val =? 0)
              then (ba_val - baseline_val) / baseline_val else 0)
        else (if negb (baseline_val =? 0)
              then (baseline_val - ba_val) / baseline_val else 0) in
      <[metric := {| baseline := baseline_val;
                     boundary_aware := ba_val;
                     improvement_pct := improvement * 100;
                     significant := 0.02 <? abs improvement |}]> comparison
  | _, _ => comparison
  end.

Definition compare_methods (stats : stats_t) : comparison_t :=
  match stats !! "lattice-hybrid", stats !! "boundary-aware" with
  | Some baseline, Some boundary_aware =>
      fold_left (compare_metric baseline boundary_aware) metrics ∅
  | _, _ => ∅
  end.

(** The four strings [determine_verdict] returns (each but the first behind
    an emoji in the source). *)
Inductive verdict : Type :=
| INSUFFICIENT_DATA
| EXPLOITABLE
| OBSERVATIONAL
| REJECTED.

(** [comparison.get(metric, {}).get('improvement_pct', 0)]. *)
Definition get_improvement_pct (comparison : comparison_t) (metric : string)
    : float :=
  match comparison !! metric with
  | Some e => improvement_pct e
  | None => 0
  end.

Definition determine_verdict (comparison : comparison_t) : verdict :=
  if Nat.eqb (size comparison) 0 then INSUFFICIENT_DATA
  else
    let recall_improvement := get_improvement_pct comparison "recall_at_10" in
    let time_overhead :=
      get_improvement_pct comparison "compression_time_seconds" in
    let time_overhead_abs := abs time_overhead in
    let significant_recall_improvement := 2.0 <? recall_improvement in
    let acceptable_overhead := time_overhead_abs <? 100 in
    if significant_recall_improvement && acceptable_overhead then EXPLOITABLE
    else if (0 <? recall_improvement) && (recall_improvement <? 2.0)
    then OBSERVATIONAL
    else REJECTED.

(** The two dictionaries of a run that only measured Recall@10 and the
    compression time. *)
Definition stats_of (recall_base recall_ba time_base time_ba : float) : stats_t :=
  let st (x : float) :=
    {| mean := x; std := 0; min := x; max := x; median := x |} in
  {[ "lattice-hybrid" :=
       {[ "recall_at_10" := st recall_base;
          "compression_time_seconds" := st time_base ]};
     "boundary-aware" :=
       {[ "recall_at_10" := st recall_ba;
          "compression_time_seconds" := st time_ba ]} ]}.

(** A value of an experiment dictionary: a number ([int], [bool] or
    [float], as the binary64 numpy averages) or anything else. *)
Inductive value : Type :=
| Number (x : float)
| Other.

(** An experiment: [exp['method']] and the items of [exp]. *)
Record experiment : Type := {
  method : string;
  fields : gmap string value;
}.

(** [by_method[method][key].append(x)] on the two [defaultdict]s. *)
Definition append_value (method key : string) (x : float)
    (by_method : gmap string (gmap string (list float)))
    : gmap string (gmap string (list float)) :=
  let metrics := default ∅ (by_method !! method) in
  <[method := <[key := default [] (metrics !! key) ++ [x]]> metrics]>
    by_method.

(** The loop over [exp.items()]; the keys of a dictionary being distinct,
    the order of the items does not matter. *)
Definition add_experiment
    (by_method : gmap string (gmap string (list float))) (exp : experiment)
    : gmap string (gmap string (list float)) :=
  map_fold
    (fun key v by_method =>
       if bool_decide (key <> "method") then
         match v with
         | Number x => append_value (method exp) key x by_method
         | Other => by_method
         end
       else by_method)
    by_method (fields exp).

(** The statistics of the values of one method and metric; the lists of
    [by_method] hold at least one value, so [np.min] and [np.max] return. *)
Definition statistics (values : list float) : metric_stats :=
  {| mean := F64.np_mean values;
     std := F64.np_std values;
     min := match F64.np_min values with Ok m => m | Raise _ => nan end;
     max := match F64.np_max values with Ok m => m | Raise _ => nan end;
     median := F64.np_median values |}.

(** [results] holds [result['experiments']] of each result file. *)
Definition aggregate_by_method (results : list (list experiment)) : stats_t :=
  let by_method : gmap string (gmap string (list float)) :=
    fold_left add_experiment (concat results) ∅ in
  fmap (M := gmap string) statistics <$> by_method.

(** The numbers the experiments of a method hold under a key, in order. *)
Definition values_of (m key : string) (exps : list experiment) : list float :=
  flat_map
    (fun exp =>
       if bool_decide (method exp = m) then
         match fields exp !! key with
         | Some (Number x) => if bool_decide (key <> "method") then [x] else []
         | _ => []
         end
       else [])
    exps.

(** [by_method[m][k]], if both keys are there. *)
Definition collected (by_method : gmap string (gmap string (list float)))
    (m k : string) : option (list float) :=
  by_method !! m ≫= (fun metrics => metrics !! k).

(** Every method of [by_method] has a key. *)
Definition populated (by_method : gmap string (gmap string (list float)))
    : Prop :=
  forall m metrics, by_method !! m = Some metrics -> metrics <> ∅.

(** The number an experiment holds for the list of a method and key. *)
Definition held (exp : experiment) (m k : string) : option float :=
  if bool_decide (method exp = m) then
    match fields exp !! k with
    | Some (Number x) => if bool_decide (k <> "method") then Some x else None
    | _ => None
    end
  else None.

End analyze_validation_results.

(** ** analysis/compare_boundary_aware.py: the count-based verdict *)

Module compare_boundary_aware.
Local Open Scope float_scope.

(** A row of the comparison table ([compute_comparison_table]); a value
    that could not be measured is [nan]. *)
Record row : Type := {
  grid : float;
  baseline_mse_global : float;
  boundary_mse_global : float;
  baseline_mse_boundary : float;
  boundary_mse_boundary : float;
  baseline_delta : float;
  boundary_delta : float;
  baseline_knn : float;
  boundary_knn : float;
  baseline_lsi : float;
  boundary_lsi : float;
}.

(** The dictionary [improvements], whose five keys are fixed. *)
Record improvements_t : Type := {
  mse_global : nat;
  mse_boundary : nat;
  delta_boundary : nat;
  knn_overlap : nat;
  lsi : nat;
}.

Inductive confidence_t : Type :=
| low
| moderate
| high.

Record verdict_t : Type := {
  exploitable : bool;
  confidence : confidence_t;
  improvements : improvements_t;
  total_comparisons : nat;
  summary : string;
}.

Definition MODERATE_IMPROVEMENT_THRESHOLD : float := 0.5.
Definition HIGH_IMPROVEMENT_THRESHOLD : float := 0.7.

(** [not np.isnan(a) and not np.isnan(b)]. *)
Definition comparable (a b : float) : bool :=
  negb (F64.isnan a) && negb (F64.isnan b).

(** [n + 1] when the two values are comparable and [better] holds. *)
Definition count_if (a b : float) (better : bool) (n : nat) : nat :=
  if comparable a b && better then S n else n.

(** The body of [for row in rows], on the pair of [improvements] and
    [total_comparisons]. *)
Definition count_row (st : improvements_t * nat) (r : row)
    : improvements_t * nat :=
  let '(imp, total) := st in
  ({| mse_global :=
        count_if (baseline_mse_global r) (boundary_mse_global r)
          (boundary_mse_global r <? baseline_mse_global r) (mse_global imp);
      mse_boundary :=
        count_if (baseline_mse_boundary r) (boundary_mse_boundary r)
          (boundary_mse_boundary r <? baseline_mse_boundary r)
          (mse_boundary imp);
      delta_boundary :=
        count_if (baseline_delta r) (boundary_delta r)
          (abs (boundary_delta r) <? abs (baseline_delta r))
          (delta_boundary imp);
      knn_overlap :=
        count_if (baseline_knn r) (boundary_knn r)
          (baseline_knn r <? boundary_knn r) (knn_overlap imp);
      lsi :=
        count_if (baseline_lsi r) (boundary_lsi r)
          (baseline_lsi r <? boundary_lsi r) (lsi imp) |},
   if comparable (baseline_mse_global r) (boundary_mse_global r)
   then S total else total).

Definition no_improvements : improvements_t :=
  {| mse_global := 0%nat; mse_boundary := 0%nat; delta_boundary := 0%nat;
     knn_overlap := 0%nat; lsi := 0%nat |}.

(** [improvements.values()]. *)
Definition values (imp : improvements_t) : list nat :=
  [mse_global imp; mse_boundary imp; delta_boundary imp;
   knn_overlap imp; lsi imp].

(** [count >= total_comparisons * threshold], both counts below [2^53]. *)
Definition reaches (threshold : float) (total count : nat) : bool :=
  F64.of_nat total * threshold <=? F64.of_nat count.

Definition any_improvement (imp : improvements_t) : bool :=
  existsb (fun count => Nat.ltb 0 count) (values imp).

Definition consistent_improvement (imp : improvements_t) (total : nat) : bool :=
  existsb (reaches MODERATE_IMPROVEMENT_THRESHOLD total) (values imp).

Definition strong_improvement (imp : improvements_t) (total : nat) : bool :=
  existsb (reaches HIGH_IMPROVEMENT_THRESHOLD total) (values imp).

Definition compute_verdict (rows : list row) : verdict_t :=
  let '(imp, total) := fold_left count_row rows (no_improvements, 0%nat) in
  if strong_improvement imp total then
    {| exploitable := true; confidence := high;
       improvements := imp; total_comparisons := total;
       summary := "Boundary-aware treatment shows consistent, measurable improvement (≥70% of cases)" |}
  else if consistent_improvement imp total then
    {| exploitable := true; confidence := moderate;
       improvements := imp; total_comparisons := total;
       summary := "Boundary-aware treatment shows moderate improvement (≥50% of cases)" |}
  else if any_improvement imp then
    {| exploitable := true; confidence := low;
       improvements := imp; total_comparisons := total;
       summary := "Boundary-aware treatment shows marginal improvement (some cases)" |}
  else
    {| exploitable := false; confidence := high;
       improvements := imp; total_comparisons := total;
       summary := "No measurable improvement - boundary geometry is observational only" |}.

(** The number of rows in which both values of a metric were measured and
    the boundary-aware one is [better]. *)
Definition improved_rows (base boundary : row -> float)
    (better : float -> float -> bool) (rows : list row) : nat :=
  length
    (List.filter
       (fun r => comparable (base r) (boundary r)
                 && better (base r) (boundary r))
       rows).

(** The counts the loop of [compute_verdict] arrives at. *)
Definition improved_counts (rows : list row) : improvements_t :=
  {| mse_global :=
       improved_rows baseline_mse_global boundary_mse_global
         (fun base boundary => boundary <? base) rows;
     mse_boundary :=
       improved_rows baseline_mse_boundary boundary_mse_boundary
         (fun base boundary => boundary <? base) rows;
     delta_boundary :=
       improved_rows baseline_delta boundary_delta
         (fun base boundary => abs boundary <? abs base) rows;
     knn_overlap :=
       improved_rows baseline_knn boundary_knn
         (fun base boundary => base <? boundary) rows;
     lsi :=
       improved_rows baseline_lsi boundary_lsi
         (fun base boundary => base <? boundary) rows |}.

(** The rows whose global MSE was measured in both modes. *)
Definition compared_rows (rows : list row) : nat :=
  length
    (List.filter
       (fun r => comparable (baseline_mse_global r) (boundary_mse_global r))
       rows).

(** A row in which only the global MSE was measured. *)
Definition mse_row (g base boundary : float) : row :=
  {| grid := g;
     baseline_mse_global := base; boundary_mse_global := boundary;
     baseline_mse_boundary := nan; boundary_mse_boundary := nan;
     baseline_delta := nan; boundary_delta := nan;
     baseline_knn := nan; boundary_knn := nan;
     baseline_lsi := nan; boundary_lsi := nan |}.

(** A point of a result file: [point.get('grid')] and
    [point.get('metrics', {})], a metric being absent, [None] or a
    number. *)
Record point : Type := {
  point_grid : option float;
  point_metrics : gmap string (option float);
}.

(** A dictionary keyed by grid values, in insertion order; a key is found
    by [==]. *)
Definition by_grid (V : Type) : Type := list (float * V).

(** [d.get(g)]. *)
Fixpoint grid_lookup {V : Type} (g : float) (d : by_grid V) : option V :=
  match d with
  | [] => None
  | (g', v) :: d' => if g' =? g then Some v else grid_lookup g d'
  end.

(** [if g not in d: d[g] = init] followed by an update of [d[g]]. *)
Fixpoint grid_update {V : Type} (g : float) (init : V) (f : V -> V)
    (d : by_grid V) : by_grid V :=
  match d with
  | [] => [(g, f init)]
  | (g', v) :: d' =>
      if g' =? g then (g', f v) :: d' else (g', v) :: grid_update g init f d'
  end.

(** The six empty lists a new grid value starts with. *)
Definition empty_lists : gmap string (list float) :=
  list_to_map
    [("mse_global", []); ("mse_boundary", []); ("mse_bulk", []);
     ("delta_boundary", []); ("knn_overlap", []); ("lsi", [])].

(** The two accumulation steps on the lists of one grid value. *)
Definition accumulate (metrics : gmap string (option float))
    (lists : gmap string (list float)) : gmap string (list float) :=
  let lists :=
    fold_left
      (fun lists metric =>
         match metrics !! metric with
         | Some (Some v) =>
             if negb (F64.isnan v)
             then alter (fun l => l ++ [v]) metric lists else lists
         | _ => lists
         end)
      ["mse_global"; "mse_boundary"; "mse_bulk"; "delta_boundary"; "lsi"]
      lists in
  match metrics !! "neighborhoodOverlap" with
  | Some (Some v) => alter (fun l => l ++ [v]) "knn_overlap" lists
  | _ => lists
  end.

(** The average of the values collected for a metric, [nan] for none. *)
Definition average (values : list float) : float :=
  match values with
  | [] => nan
  | _ => F64.np_mean values
  end.

(** The first loop of [extract_metrics_by_grid]: the lists of measured
    values per grid value. *)
Definition collect_metrics (points : list point)
    : by_grid (gmap string (list float)) :=
  fold_left
    (fun grid_metrics point =>
       match point_grid point with
       | None => grid_metrics
       | Some grid =>
           grid_update grid empty_lists
             (accumulate (point_metrics point)) grid_metrics
       end)
    points [].

Definition extract_metrics_by_grid (points : list point)
    : by_grid (gmap string float) :=
  map (fun '(grid, metrics) => (grid, average <$> metrics))
    (collect_metrics points).

(** [set(keys)]: a value equal to one already in the set is not added. *)
Definition set_add (s : list float) (x : float) : list float :=
  if existsb (fun y => y =? x) s then s else s ++ [x].

(** [m.get(key, np.nan)]. *)
Definition get_nan (m : gmap string float) (key : string) : float :=
  default nan (m !! key).

Definition compute_comparison_table
    (baseline_metrics boundary_metrics : by_grid (gmap string float))
    : list row :=
  let all_grids :=
    F64.np_sort
      (fold_left set_add
         (map fst baseline_metrics ++ map fst boundary_metrics) []) in
  map (fun grid =>
         let base := default ∅ (grid_lookup grid baseline_metrics) in
         let boundary := default ∅ (grid_lookup grid boundary_metrics) in
         {| grid := grid;
            baseline_mse_global := get_nan base "mse_global";
            boundary_mse_global := get_nan boundary "mse_global";
            baseline_mse_boundary := get_nan base "mse_boundary";
            boundary_mse_boundary := get_nan boundary "mse_boundary";
            baseline_delta := get_nan base "delta_boundary";
            boundary_delta := get_nan boundary "delta_boundary";
            baseline_knn := get_nan base "knn_overlap";
            boundary_knn := get_nan boundary "knn_overlap";
            baseline_lsi := get_nan base "lsi";
            boundary_lsi := get_nan boundary "lsi" |})
      all_grids.

(** [g in d]. *)
Definition has_grid {V : Type} (d : by_grid V) (g : float) : bool :=
  match grid_lookup g d with
  | Some _ => true
  | None => false
  end.

(** The keys of the averaged metrics of a grid value. *)
Definition averaged_metrics : list string :=
  ["mse_global"; "mse_boundary"; "mse_bulk"; "delta_boundary";
   "knn_overlap"; "lsi"].

(** The values a point contributes to the list of a metric: its measured
    number, if any ([neighborhoodOverlap] for the k-NN overlap). *)
Definition contribution (metric : string)
    (metrics : gmap string (option float)) : list float :=
  if bool_decide (metric = "knn_overlap") then
    match metrics !! "neighborhoodOverlap" with
    | Some (Some v) => [v]
    | _ => []
    end
  else if bool_decide
            (metric ∈ ["mse_global"; "mse_boundary"; "mse_bulk";
                       "delta_boundary"; "lsi"]) then
    match metrics !! metric with
    | Some (Some v) => if F64.isnan v then [] else [v]
    | _ => []
    end
  else [].

(** The points swept at the grid value [g]. *)
Definition points_at (g : float) (points : list point) : list point :=
  List.filter
    (fun p => match point_grid p with
              | Some g' => g =? g'
              | None => false
              end)
    points.

(** The values of a metric measured at the grid value [g], in order. *)
Definition values_at (g : float) (metric : string) (points : list point)
    : list float :=
  flat_map (fun p => contribution metric (point_metrics p))
    (points_at g points).

(** A row none of whose five pairs was measured on both sides. *)
Definition unmeasured (r : row) : bool :=
  negb (comparable (baseline_mse_global r) (boundary_mse_global r))
  && negb (comparable (baseline_mse_boundary r) (boundary_mse_boundary r))
  && negb (comparable (baseline_delta r) (boundary_delta r))
  && negb (comparable (baseline_knn r) (boundary_knn r))
  && negb (comparable (baseline_lsi r) (boundary_lsi r)).

End compare_boundary_aware.

(** ** analysis/run_boundary_eval.py: the stability analyzer *)

Module run_boundary_eval.
Local Open Scope float_scope.

(** A sweep point: [point['grid']], [point['k']] and
    [point['metrics'].get('delta_boundary')]. *)
Record point : Type := {
  grid : float;
  k : Z;
  delta_boundary : option float;
}.

(** [result['points']] of one run. *)
Definition run : Type := list point.

(** [grid_to_deltas]: a dictionary keyed by the grid value, in insertion
    order. *)
Definition grid_dict : Type := list (float * list float).

(** [if grid not in d: d[grid] = []] then [d[grid].append(delta)]. *)
Fixpoint dict_append (g delta : float) (d : grid_dict) : grid_dict :=
  match d with
  | [] => [(g, [delta])]
  | (g', ds) :: d' =>
      if g' =? g then (g', ds ++ [delta]) :: d'
      else (g', ds) :: dict_append g delta d'
  end.

Fixpoint dict_get (g : float) (d : grid_dict) : list float :=
  match d with
  | [] => []
  | (g', ds) :: d' => if g' =? g then ds else dict_get g d'
  end.

Definition collect (results : list run) : grid_dict :=
  fold_left
    (fun d p => dict_append (grid p) (default nan (delta_boundary p)) d)
    (concat results) [].

(** The condition of the zero-crossing loop on two adjacent means. *)
Definition crosses (a b : float) : bool :=
  ((a <=? 0) && (0 <? b)) || ((0 <=? a) && (b <? 0)).

(** [for i in range(len(mean_delta) - 1): if ...: append(grid_values[i])]. *)
Definition find_zero_crossings (grid_values mean_delta : list float)
    : list float :=
  flat_map
    (fun i =>
       match mean_delta !! i, mean_delta !! (i + 1)%nat, grid_values !! i with
       | Some a, Some b, Some g => if crosses a b then [g] else []
       | _, _, _ => []
       end)
    (seq 0 (length mean_delta - 1)).

Record stability : Type := {
  grid_values : list float;
  mean_delta : list float;
  std_delta : list float;
  zero_crossings : list float;
  high_variance_regions : list float;
}.

Definition compute_stability_metrics (results : list run)
    (dataset_name : string) : stability :=
  let grid_to_deltas := collect results in
  let grid_values := F64.np_sort (map fst grid_to_deltas) in
  let mean_delta :=
    map (fun g => F64.np_mean (dict_get g grid_to_deltas)) grid_values in
  let std_delta :=
    map (fun g => F64.np_std (dict_get g grid_to_deltas)) grid_values in
  let zero_crossings := find_zero_crossings grid_values mean_delta in
  let high_variance_regions :=
    if Nat.ltb 0 (length std_delta) then
      let threshold := F64.np_median std_delta * 1.5 in
      flat_map
        (fun i =>
           match std_delta !! i, grid_values !! i with
           | Some s, Some g => if threshold <? s then [g] else []
           | _, _ => []
           end)
        (seq 0 (length std_delta))
    else [] in
  {| grid_values := grid_values;
     mean_delta := mean_delta;
     std_delta := std_delta;
     zero_crossings := zero_crossings;
     high_variance_regions := high_variance_regions |}.

(** One run with one sweep point per step. *)
Definition single_run (steps deltas : list float) : run :=
  map (fun '(g, d) => {| grid := g; k := 3; delta_boundary := Some d |})
    (combine steps deltas).

(** The two loops of [compute_stability_metrics] over the points of all
    runs, in order. *)
Definition collect_points (points : list point) : grid_dict :=
  fold_left
    (fun d p => dict_append (grid p) (default nan (delta_boundary p)) d)
    points [].

(** The deltas of the points at the grid value [g], in the order of the
    runs. *)
Definition deltas_at (g : float) (points : list point) : list float :=
  map (fun p => default nan (delta_boundary p))
    (List.filter (fun p => g =? grid p) points).

(** The lower step of every pair of adjacent steps between which [mean]
    passes the test [crosses], in the order of the steps. *)
Fixpoint sign_changes (mean : float -> float) (steps : list float)
    : list float :=
  match steps with
  | g :: (g' :: _) as rest =>
      (if crosses (mean g) (mean g') then [g] else [])
      ++ sign_changes mean rest
  | _ => []
  end.

End run_boundary_eval.

(** ** The scalar interface, and numpy over it *)

(** What the clustering and ranking code asks of its numbers. *)
Class Scalar (F : Type) : Type := {
  sofZ : Z -> F;
  sadd : F -> F -> F;
  ssub : F -> F -> F;
  smul : F -> F -> F;
  sdiv : F -> F -> F;
  ssqrt : F -> F;
  (** [np.round]: to the nearest integer, ties to even *)
  sround : F -> F;
  sfloor : F -> F;
  (** [int(x)] *)
  strunc : F -> Z;
  sisnan : F -> bool;
  sltb : F -> F -> bool;
  sleb : F -> F -> bool;
  seqb : F -> F -> bool;
}.

(** [np.log2], which the DCG of [msmarco_eval_retrieval.py] needs. *)
Class Log2 (F : Type) : Type := slog2 : F -> F.

Declare Scope scalar_scope.
Delimit Scope scalar_scope with scalar.
Infix "⊕" := sadd (at level 50, left associativity) : scalar_scope.
Infix "⊖" := ssub (at level 50, left associativity) : scalar_scope.
Infix "⊗" := smul (at level 40, left associativity) : scalar_scope.
Infix "⊘" := sdiv (at level 40, left associativity) : scalar_scope.

#[export] Instance float_scalar : Scalar float := {
  sofZ := F64.of_Z;
  sadd := PrimFloat.add;
  ssub := PrimFloat.sub;
  smul := PrimFloat.mul;
  sdiv := PrimFloat.div;
  ssqrt := PrimFloat.sqrt;
  sround := F64.np_round;
  sfloor := F64.np_floor;
  strunc := F64.to_Z;
  sisnan := F64.isnan;
  sltb := PrimFloat.ltb;
  sleb := PrimFloat.leb;
  seqb := PrimFloat.eqb;
}.

(** Exact arithmetic. *)
Module Exact.
Local Open Scope R_scope.

Definition ltb (x y : R) : bool := if Rlt_dec x y then true else false.

Definition leb (x y : R) : bool := if Rle_dec x y then true else false.

Definition eqb (x y : R) : bool := if Req_dec_T x y then true else false.

Definition floor (x : R) : R := IZR (Int_part x).

(** Round half to even. *)
Definition round (x : R) : R :=
  let n := Int_part x in
  let f := x - IZR n in
  if Rlt_dec f (1 / 2) then IZR n
  else if Rlt_dec (1 / 2) f then IZR (n + 1)
  else if Z.even n then IZR n else IZR (n + 1).

Definition log2 (x : R) : R := ln x / ln 2.

End Exact.

#[export] Instance real_scalar : Scalar R := {
  sofZ := IZR;
  sadd := Rplus;
  ssub := Rminus;
  smul := Rmult;
  sdiv := Rdiv;
  ssqrt := sqrt;
  sround := Exact.round;
  sfloor := Exact.floor;
  strunc := Int_part;
  sisnan := fun _ => false;
  sltb := Exact.ltb;
  sleb := Exact.leb;
  seqb := Exact.eqb;
}.

#[export] Instance real_log2 : Log2 R := Exact.log2.

Module Np.
Section Numpy.
Context {F : Type} `{Scalar F}.
Local Open Scope scalar_scope.

(** The decimal literal [p/q] (correctly rounded on binary64). *)
Definition lit (p q : Z) : F := sofZ p ⊘ sofZ q.

Definition of_nat (n : nat) : F := sofZ (Z.of_nat n).

(** [-0.0], the value numpy's summation loop starts from. *)
Definition neg_zero : F := sofZ 0 ⊗ sofZ (-1).

(** numpy's pairwise summation, as [F64.pairwise_sum] has it. *)
Fixpoint add_blocks (blocks : nat) (r a : list F) : list F * list F :=
  match blocks with
  | O => (r, a)
  | S blocks' => add_blocks blocks' (zip_with sadd r (take 8 a)) (drop 8 a)
  end.

Definition unrolled_sum (a : list F) : F :=
  let '(r, rest) :=
    add_blocks (length a / 8 - 1) (take 8 a) (drop 8 a) in
  let r (j : nat) := nth j r (sofZ 0) in
  fold_left sadd rest
    (((r 0%nat ⊕ r 1%nat) ⊕ (r 2%nat ⊕ r 3%nat))
     ⊕ ((r 4%nat ⊕ r 5%nat) ⊕ (r 6%nat ⊕ r 7%nat))).

Fixpoint pairwise_sum (depth : nat) (a : list F) : F :=
  let n := length a in
  if (n <? 8)%nat then fold_left sadd a neg_zero
  else
    match depth with
    | S depth' =>
        if (128 <? n)%nat then
          let n2 := (n / 2 - (n / 2) mod 8)%nat in
          pairwise_sum depth' (take n2 a) ⊕ pairwise_sum depth' (drop n2 a)
        else unrolled_sum a
    | O => unrolled_sum a
    end.

(** [np.add.reduce] along a contiguous axis: [np.sum] and [np.mean] of a
    1-d array, [np.linalg.norm(a, axis=-1)] of each row. *)
Definition np_sum (xs : list F) : F :=
  sofZ 0 ⊕ pairwise_sum (length xs) xs.

(** [np.add.reduce(a, axis=0)] on a column of a 2-d array with more than
    one column: the rows are added to the running sum one after the
    other. *)
Definition sum_in_order (xs : list F) : F := fold_left sadd xs (sofZ 0).

Definition np_mean (xs : list F) : F := np_sum xs ⊘ of_nat (length xs).

(** [np.linalg.norm(u - v)] of two rows, as the reduction along the last
    axis computes it. *)
Definition dist (u v : list F) : F :=
  ssqrt (np_sum (map (fun d => d ⊗ d) (zip_with ssub u v))).

(** [np.linalg.norm(a[:, None, :] - b[None, :, :], axis=2)]: one row of
    distances per row of [a], one column per row of [b]. *)
Definition cdist (a b : list (list F)) : list (list F) :=
  map (fun u => map (dist u) b) a.

(** The scan of [np.argmin] from a current best: the first [nan] wins,
    else the first least value. *)
Fixpoint argmin_from (best_i : nat) (best : F) (i : nat) (l : list F) : nat :=
  match l with
  | [] => best_i
  | x :: l' =>
      if sisnan best then best_i
      else if sisnan x || sltb x best then argmin_from i x (S i) l'
      else argmin_from best_i best (S i) l'
  end.

(** [np.argmin] of a 1-d array: [ValueError] ("attempt to get argmin of an
    empty sequence") on an empty one. *)
Definition np_argmin (l : list F) : result nat :=
  match l with
  | [] => Raise ValueError
  | x :: l' => Ok (argmin_from 0 x 1 l')
  end.

Fixpoint map_result {A B : Type} (f : A -> result B) (l : list A)
    : result (list B) :=
  match l with
  | [] => Ok []
  | a :: l' => do b <- f a; do bs <- map_result f l'; Ok (b :: bs)
  end.

(** [np.argmin(m, axis=1)] of a 2-d array with [ncols] columns: numpy
    refuses a reduced axis of length zero whatever the number of rows. *)
Definition np_argmin_axis1 (ncols : nat) (m : list (list F))
    : result (list nat) :=
  if Nat.eqb ncols 0 then Raise ValueError else map_result np_argmin m.

(** The order of [np.sort]: [<=] with every [nan] last. *)
Definition sort_leb (x y : F) : bool :=
  sisnan y || (negb (sisnan x) && sleb x y).

Fixpoint insert_sorted (x : F) (l : list F) : list F :=
  match l with
  | [] => [x]
  | y :: l' => if sort_leb x y then x :: l else y :: insert_sorted x l'
  end.

Definition np_sort (l : list F) : list F := fold_right insert_sorted [] l.

(** numpy's [_lerp]. *)
Definition lerp (a b t : F) : F :=
  let diff_b_a := b ⊖ a in
  if sleb (lit 1 2) t then b ⊖ diff_b_a ⊗ (sofZ 1 ⊖ t)
  else a ⊕ diff_b_a ⊗ t.

(** [np.percentile(a, q)] with the default (linear) method: the value at
    the virtual index [(n - 1) * q / 100] of the sorted array, interpolated
    between its two neighbours; when the array holds a [nan], which sorts
    last, the result is that [nan].  [ValueError] for [q] outside
    [0, 100]; [IndexError] on an empty array. *)
Definition np_percentile (a : list F) (q : F) : result F :=
  if negb (sleb (sofZ 0) q && sleb q (sofZ 100)) then Raise ValueError
  else
    let n := length a in
    let sorted := np_sort a in
    let virtual_index := of_nat (n - 1) ⊗ (q ⊘ sofZ 100) in
    let previous := sfloor virtual_index in
    let gamma := virtual_index ⊖ previous in
    let i := Z.to_nat (strunc previous) in
    match sorted !! Nat.min i (n - 1), sorted !! Nat.min (i + 1) (n - 1),
          sorted !! (n - 1)%nat with
    | Some lo, Some hi, Some last =>
        Ok (if sisnan last then last else lerp lo hi gamma)
    | _, _, _ => Raise IndexError
    end.

(** The order numpy sorts floats by: [<] on numbers, every number before
    every [nan], and two [nan]s in neither order. *)
Definition sort_ltb (x y : F) : bool :=
  sltb x y || (sisnan y && negb (sisnan x)).

(** Lexicographic [<] on rows, the order [np.unique(axis=0)] sorts by. *)
Fixpoint lex_ltb (u v : list F) : bool :=
  match u, v with
  | x :: u', y :: v' =>
      if sort_ltb x y then true
      else if sort_ltb y x then false else lex_ltb u' v'
  | [], _ :: _ => true
  | _, [] => false
  end.

(** [u == v] on two rows: every coordinate [==], so that a row with a
    [nan] equals no row, itself included. *)
Fixpoint row_eqb (u v : list F) : bool :=
  match u, v with
  | x :: u', y :: v' => seqb x y && row_eqb u' v'
  | [], [] => true
  | _, _ => false
  end.


(** Insertion of a row before the first row that is not below it. *)
Fixpoint insert_row (r : list F) (rows : list (list F)) : list (list F) :=
  match rows with
  | [] => [r]
  | r' :: rest => if lex_ltb r' r then r' :: insert_row r rest else r :: rows
  end.

Definition sort_rows (rows : list (list F)) : list (list F) :=
  fold_right insert_row [] rows.

(** [aux[1:][aux[1:] != aux[:-1]]]: the rows that differ from the row
    before them. *)
Fixpoint drop_repeats (previous : list F) (rows : list (list F))
    : list (list F) :=
  match rows with
  | [] => []
  | r :: rest =>
      if row_eqb r previous then drop_repeats r rest
      else r :: drop_repeats r rest
  end.

(** [np.unique(rows, axis=0)]: the rows sorted, and of each run of equal
    rows the first.  Rows that compare equal differ at most in the sign
    of a zero; which of them numpy's sort puts first is not fixed, here
    it is the one that came first in [rows]. *)
Definition np_unique_rows (rows : list (list F)) : list (list F) :=
  match sort_rows rows with
  | [] => []
  | r :: rest => r :: drop_repeats r rest
  end.

(** [np.round(a / step) * step] on a 2-d array. *)
Definition round_to (step : F) (x : F) : F := sround (x ⊘ step) ⊗ step.

(** [target[mask] = values]: the rows of [target] where [mask] holds are
    replaced, in order, by the rows of [values]. *)
Fixpoint assign_masked {A : Type} (target : list A) (mask : list bool)
    (values : list A) : list A :=
  match target, mask with
  | t :: target', true :: mask' =>
      match values with
      | v :: values' => v :: assign_masked target' mask' values'
      | [] => t :: assign_masked target' mask' []
      end
  | t :: target', false :: mask' => t :: assign_masked target' mask' values
  | _, _ => target
  end.

(** [a[mask]]. *)
Fixpoint select_masked {A : Type} (a : list A) (mask : list bool) : list A :=
  match a, mask with
  | x :: a', true :: mask' => x :: select_masked a' mask'
  | _ :: a', false :: mask' => select_masked a' mask'
  | _, _ => []
  end.

(** [a[:k]] for a Python [int] [k]. *)
Definition py_take {A : Type} (k : Z) (a : list A) : list A :=
  if (0 <=? k)%Z then take (Z.to_nat k) a
  else take (length a - Z.to_nat (- k)) a.

(** [np.sum(mask)]. *)
Definition count_true (mask : list bool) : nat :=
  length (filter (fun b => b = true) mask).

End Numpy.
End Np.

(** ** analysis/msmarco_run_compression.py *)

Module msmarco_run_compression.
Section Compression.
Context {F : Type} `{Scalar F}.
Local Open Scope scalar_scope.

(** [KMeans(n_clusters=k, random_state=..., n_init=10).fit(vectors)] of
    scikit-learn: its [cluster_centers_] and [labels_], or the exception it
    raised. *)
Variable KMeans :
  list (list F) -> Z -> Z -> result (list (list F) * list nat).

Definition snap_to_grid (vectors : list (list F)) (step : F)
    : list (list F) :=
  map (map (Np.round_to step)) vectors.

Definition run_kmeans (vectors : list (list F)) (k : Z) (random_state : Z)
    : result (list (list F) * list (list F)) :=
  let k := if (k <=? 0)%Z then 1%Z else k in
  if (Z.of_nat (length vectors) <=? k)%Z then Ok (vectors, vectors)
  else
    do (cluster_centers, labels) <- KMeans vectors k random_state;
    let compressed := map (fun l => nth l cluster_centers []) labels in
    let centroids := cluster_centers in
    Ok (compressed, centroids).

(** The default [tolerance=1e-9]. *)
Definition default_tolerance : F := Np.lit 1 1000000000.

Definition extract_unique_vectors (vectors : list (list F)) (tolerance : F)
    : list (list F) :=
  let rounded := map (map (Np.round_to tolerance)) vectors in
  Np.np_unique_rows rounded.

(** [ambiguity_scores]: per vector, the gap between its two least
    distances to a centroid. *)
Definition ambiguity_scores (vectors centroids : list (list F)) : list F :=
  let distances := Np.cdist vectors centroids in
  let sorted_distances := map Np.np_sort distances in
  map (fun row =>
         let d1 := nth 0 row (sofZ 0) in
         let d2 := if Nat.ltb 1 (length centroids)
                   then nth 1 row (sofZ 0) else d1 in
         d2 ⊖ d1)
      sorted_distances.

Definition classify_boundary_vectors (vectors centroids : list (list F))
    (percentile : F) : result (list bool) :=
  if Nat.ltb (length centroids) 2 then Ok (map (fun _ => false) vectors)
  else
    let scores := ambiguity_scores vectors centroids in
    do threshold <- Np.np_percentile scores percentile;
    let boundary_mask := map (fun a => sleb a threshold) scores in
    Ok boundary_mask.

(** The dictionary [info]; the three fields only the boundary-aware
    strategy writes are optional. *)
Record info : Type := {
  mode : string;
  grid : F;
  k : Z;
  boundary_step : option F;
  num_boundary_vectors : option nat;
  num_bulk_vectors : option nat;
  num_unique_centroids : nat;
  compression_time_seconds : F;
}.

(** [centroids[assignments]] for the nearest centroid of each vector. *)
Definition assign_nearest (vectors centroids : list (list F))
    : result (list (list F)) :=
  let distances := Np.cdist vectors centroids in
  do assignments <- Np.np_argmin_axis1 (length centroids) distances;
  Ok (map (fun a => nth a centroids []) assignments).

(** [start_time] and [end_time] are the two readings of [time.time()]. *)
Definition compress_baseline (vectors : list (list F)) (grid : F) (k : Z)
    (random_state : Z) (start_time end_time : F)
    : result (list (list F) * info) :=
  do (_, ideal_centroids) <- run_kmeans vectors k random_state;
  let snapped_centroids := snap_to_grid ideal_centroids grid in
  let unique_snapped_centroids :=
    extract_unique_vectors snapped_centroids default_tolerance in
  do compressed <- assign_nearest vectors unique_snapped_centroids;
  let compression_time := end_time ⊖ start_time in
  Ok (compressed,
      {| mode := "baseline";
         grid := grid;
         k := k;
         boundary_step := None;
         num_boundary_vectors := None;
         num_bulk_vectors := None;
         num_unique_centroids := length unique_snapped_centroids;
         compression_time_seconds := compression_time |}).

Definition compress_boundary_aware (vectors : list (list F)) (grid : F)
    (k : Z) (random_state : Z) (start_time end_time : F)
    : result (list (list F) * info) :=
  let boundary_step := grid ⊗ Np.lit 1 2 in
  do (_, ideal_centroids) <- run_kmeans vectors k random_state;
  do boundary_mask <-
    classify_boundary_vectors vectors ideal_centroids (sofZ 10);
  let num_boundary := Np.count_true boundary_mask in
  let snapped_centroids_bulk := snap_to_grid ideal_centroids grid in
  let unique_bulk_centroids :=
    extract_unique_vectors snapped_centroids_bulk default_tolerance in
  let snapped_centroids_boundary :=
    snap_to_grid ideal_centroids boundary_step in
  let unique_boundary_centroids :=
    extract_unique_vectors snapped_centroids_boundary default_tolerance in
  let compressed := map (map (fun _ => sofZ 0)) vectors in
  let bulk_mask := map negb boundary_mask in
  do compressed <-
    (if Nat.ltb 0 (Np.count_true bulk_mask) then
       let bulk_vectors := Np.select_masked vectors bulk_mask in
       do assigned <- assign_nearest bulk_vectors unique_bulk_centroids;
       Ok (Np.assign_masked compressed bulk_mask assigned)
     else Ok compressed);
  do compressed <-
    (if Nat.ltb 0 (Np.count_true boundary_mask) then
       let boundary_vectors := Np.select_masked vectors boundary_mask in
       do assigned <-
         assign_nearest boundary_vectors unique_boundary_centroids;
       Ok (Np.assign_masked compressed boundary_mask assigned)
     else Ok compressed);
  let compression_time := end_time ⊖ start_time in
  let all_centroids := unique_bulk_centroids ++ unique_boundary_centroids in
  let unique_all_centroids :=
    extract_unique_vectors all_centroids default_tolerance in
  Ok (compressed,
      {| mode := "boundary-aware";
         grid := grid;
         k := k;
         boundary_step := Some boundary_step;
         num_boundary_vectors := Some num_boundary;
         num_bulk_vectors := Some (Np.count_true bulk_mask);
         num_unique_centroids := length unique_all_centroids;
         compression_time_seconds := compression_time |}).

End Compression.

(** A stand-in for scikit-learn where a run never reaches it. *)
Definition no_KMeans {F : Type} (_ : list (list F)) (_ _ : Z)
    : result (list (list F) * list nat) :=
  Raise ValueError.

End msmarco_run_compression.

(** ** analysis/run_real_world_evaluation.py *)

Module run_real_world_evaluation.
Section Compression.
Context {F : Type} `{Scalar F}.
Local Open Scope scalar_scope.

(** [cluster_points.mean(axis=0)]: the mean of each column.  Along axis
    0 numpy adds the rows in order; an array with one column lies in
    memory as a 1-d array and is summed as one. *)
Definition mean_axis0 (rows : list (list F)) : list F :=
  let d := length (nth 0 rows []) in
  map (fun j =>
         let column := map (fun r => nth j r (sofZ 0)) rows in
         (if Nat.eqb d 1 then Np.np_sum column else Np.sum_in_order column)
         ⊘ Np.of_nat (length rows))
      (seq 0 d).

(** [for i in range(k): ...] of one Lloyd iteration. *)
Definition update_centroids (embeddings : list (list F))
    (assignments : list nat) (k : Z) (centroids : list (list F))
    : list (list F) :=
  fold_left
    (fun centroids i =>
       let cluster_points :=
         Np.select_masked embeddings (map (Nat.eqb i) assignments) in
       if Nat.ltb 0 (length cluster_points)
       then <[i := mean_axis0 cluster_points]> centroids
       else centroids)
    (seq 0 (Z.to_nat k)) centroids.

(** [for _ in range(iterations)]: assign, then update. *)
Fixpoint lloyd (iterations : nat) (embeddings : list (list F)) (k : Z)
    (centroids : list (list F)) : result (list (list F)) :=
  match iterations with
  | O => Ok centroids
  | S iterations' =>
      let distances := Np.cdist embeddings centroids in
      do assignments <- Np.np_argmin_axis1 (length centroids) distances;
      lloyd iterations' embeddings k
        (update_centroids embeddings assignments k centroids)
  end.

Definition simple_kmeans_compression (embeddings : list (list F)) (k : Z)
    (grid_step : F) (boundary_aware : bool)
    : result (list (list F) * list (list F)) :=
  let n := length embeddings in
  if (Z.of_nat n <=? k)%Z then Ok (embeddings, embeddings)
  else
    let centroids := Np.py_take k embeddings in
    do centroids <- lloyd 10 embeddings k centroids;
    let snapped_centroids := map (map (Np.round_to grid_step)) centroids in
    if boundary_aware then
      let distances := Np.cdist embeddings centroids in
      let sorted_dists := map Np.np_sort distances in
      let ambiguity :=
        map (fun row =>
               if (1 <? k)%Z
               then nth 1 row (sofZ 0) ⊖ nth 0 row (sofZ 0)
               else nth 0 row (sofZ 0))
            sorted_dists in
      do threshold <- Np.np_percentile ambiguity (sofZ 10);
      let is_boundary := map (fun a => sleb a threshold) ambiguity in
      let boundary_centroids :=
        map (map (Np.round_to (grid_step ⊗ Np.lit 1 2))) centroids in
      do compressed <-
        Np.map_result
          (fun '(e, b) =>
             let cs := if b : bool then boundary_centroids
                       else snapped_centroids in
             do a <- Np.np_argmin (map (fun c => Np.dist c e) cs);
             Ok (nth a cs []))
          (combine embeddings is_boundary);
      Ok (compressed, snapped_centroids)
    else
      let distances := Np.cdist embeddings snapped_centroids in
      do assignments <-
        Np.np_argmin_axis1 (length snapped_centroids) distances;
      let compressed := map (fun a => nth a snapped_centroids []) assignments in
      Ok (compressed, snapped_centroids).

End Compression.
End run_real_world_evaluation.

(** ** analysis/msmarco_eval_retrieval.py: metrics against qrels *)

Module msmarco_eval_retrieval.
Section Metrics.
Context {F : Type} `{Scalar F} `{Log2 F}.
Local Open Scope scalar_scope.

Definition compute_recall_at_k (retrieved : list string)
    (relevant : gset string) (k : Z) : F :=
  if bool_decide (relevant = ∅) then sofZ 0
  else
    let retrieved_at_k : gset string := list_to_set (Np.py_take k retrieved) in
    let relevant_retrieved := retrieved_at_k ∩ relevant in
    Np.of_nat (size relevant_retrieved) ⊘ Np.of_nat (size relevant).

(** [for i, passage_id in enumerate(retrieved)], from index [i] on. *)
Fixpoint first_relevant (i : nat) (retrieved : list string)
    (relevant : gset string) : option nat :=
  match retrieved with
  | [] => None
  | passage_id :: retrieved' =>
      if bool_decide (passage_id ∈ relevant) then Some i
      else first_relevant (S i) retrieved' relevant
  end.

Definition compute_mrr (retrieved : list string) (relevant : gset string)
    : F :=
  match first_relevant 0 retrieved relevant with
  | Some i => sofZ 1 ⊘ Np.of_nat (i + 1)
  | None => sofZ 0
  end.

Definition compute_dcg_at_k (retrieved : list string)
    (relevant : gset string) (k : Z) : F :=
  fold_left
    (fun dcg '(i, passage_id) =>
       if bool_decide (passage_id ∈ relevant)
       then dcg ⊕ sofZ 1 ⊘ slog2 (Np.of_nat (i + 2))
       else dcg)
    (imap pair (Np.py_take k retrieved)) (sofZ 0).

Definition compute_ndcg_at_k (retrieved : list string)
    (relevant : gset string) (k : Z) : F :=
  let dcg := compute_dcg_at_k retrieved relevant k in
  let num_relevant := size relevant in
  let ideal_retrieved :=
    replicate (Z.to_nat (Z.min (Z.of_nat num_relevant) k)) "relevant" in
  let ideal_relevant : gset string := list_to_set ideal_retrieved in
  let idcg := compute_dcg_at_k ideal_retrieved ideal_relevant k in
  if seqb idcg (sofZ 0) then sofZ 0 else dcg ⊘ idcg.

(** Insertion of an indexed value before the first value not below it.
    Equal values keep their order here; numpy's default sort is not
    stable and may order them otherwise. *)
Fixpoint insert_indexed (x : nat * F) (l : list (nat * F))
    : list (nat * F) :=
  match l with
  | [] => [x]
  | y :: l' =>
      if Np.sort_leb (snd x) (snd y) then x :: l
      else y :: insert_indexed x l'
  end.

(** [np.argsort]: the indices in ascending order of their values. *)
Definition np_argsort (a : list F) : list nat :=
  map fst (fold_right insert_indexed [] (imap pair a)).

(** [np.linalg.norm] of a row.  (Of the 1-d query numpy takes the norm
    through [x.dot(x)]; see [dot].) *)
Definition norm (v : list F) : F :=
  ssqrt (Np.np_sum (map (fun x => x ⊗ x) v)).

(** [np.dot] of two rows: [ValueError] when their lengths differ.  numpy
    hands the products to BLAS, which fixes neither the order of the
    additions nor their rounding (fused multiply-add): on binary64 the
    last bits of a similarity, and with them the order of nearly equal
    similarities, are not determined by this definition.  What is stated
    below of [search_top_k] on binary64 does not depend on them. *)
Definition dot (u v : list F) : result F :=
  if Nat.eqb (length u) (length v) then Ok (Np.np_sum (zip_with smul u v))
  else Raise ValueError.

(** [v / (np.linalg.norm(v) + 1e-10)]. *)
Definition normalize (v : list F) : list F :=
  map (fun x => x ⊘ (norm v ⊕ Np.lit 1 10000000000)) v.

Definition search_top_k (query_embedding : list F)
    (passage_embeddings : list (list F)) (k : Z) : result (list nat) :=
  let query_norm := normalize query_embedding in
  let passages_norm := map normalize passage_embeddings in
  do similarities <-
    Np.map_result (fun row => dot row query_norm) passages_norm;
  let top_k_indices := Np.py_take k (rev (np_argsort similarities)) in
  Ok top_k_indices.

(** The four scores of one query. *)
Record scores : Type := {
  recall_10 : F;
  recall_100 : F;
  mrr : F;
  ndcg_10 : F;
}.

(** The body of the loop of [evaluate_retrieval] for a query that has
    qrels. *)
Definition evaluate_query (query_embedding : list F)
    (passage_embeddings : list (list F)) (passages_metadata : list string)
    (relevant_ids : gset string) (top_k : Z) : result scores :=
  do top_indices <- search_top_k query_embedding passage_embeddings top_k;
  do retrieved_ids <-
    Np.map_result
      (fun idx => match passages_metadata !! idx with
                  | Some passage_id => Ok passage_id
                  | None => Raise IndexError
                  end)
      top_indices;
  Ok {| recall_10 := compute_recall_at_k retrieved_ids relevant_ids 10;
        recall_100 := compute_recall_at_k retrieved_ids relevant_ids 100;
        mrr := compute_mrr retrieved_ids relevant_ids;
        ndcg_10 := compute_ndcg_at_k retrieved_ids relevant_ids 10 |}.

(** The dictionary [metrics]. *)
Record metrics : Type := {
  mean_recall_10 : F;
  mean_recall_100 : F;
  mean_mrr : F;
  mean_ndcg_10 : F;
  num_queries : nat;
  num_queries_with_qrels : nat;
  num_passages : nat;
  evaluation_time_seconds : F;
  avg_query_latency_ms : F;
}.

(** [float(np.mean(xs)) if xs else 0.0]. *)
Definition mean_or_zero (xs : list F) : F :=
  match xs with
  | [] => sofZ 0
  | _ => Np.np_mean xs
  end.

(** The loop over the queries: the scores of those that have qrels. *)
Definition score_queries (query_embeddings passage_embeddings : list (list F))
    (qrels : gmap string (gset string))
    (queries_metadata passages_metadata : list string) (top_k : Z)
    : result (list scores) :=
  do scored <-
    Np.map_result
      (fun '(i, query_id) =>
         match qrels !! query_id with
         | None => Ok None
         | Some relevant_ids =>
             match query_embeddings !! i with
             | None => Raise IndexError
             | Some query_embedding =>
                 do s <- evaluate_query query_embedding passage_embeddings
                           passages_metadata relevant_ids top_k;
                 Ok (Some s)
             end
         end)
      (imap pair queries_metadata);
  Ok (omap (fun s => s) scored).

(** [queries_metadata] and [passages_metadata] hold the identifiers;
    [start_time] and [end_time] are the two readings of [time.time()]. *)
Definition evaluate_retrieval
    (query_embeddings passage_embeddings : list (list F))
    (qrels : gmap string (gset string))
    (queries_metadata passages_metadata : list string) (top_k : Z)
    (start_time end_time : F) : result metrics :=
  do scored <-
    score_queries query_embeddings passage_embeddings qrels
      queries_metadata passages_metadata top_k;
  let queries_with_qrels := length scored in
  let eval_time := end_time ⊖ start_time in
  Ok {| mean_recall_10 := mean_or_zero (map recall_10 scored);
        mean_recall_100 := mean_or_zero (map recall_100 scored);
        mean_mrr := mean_or_zero (map mrr scored);
        mean_ndcg_10 := mean_or_zero (map ndcg_10 scored);
        num_queries := length queries_metadata;
        num_queries_with_qrels := queries_with_qrels;
        num_passages := length passages_metadata;
        evaluation_time_seconds := eval_time;
        avg_query_latency_ms :=
          if Nat.ltb 0 queries_with_qrels
          then eval_time ⊘ Np.of_nat queries_with_qrels ⊗ sofZ 1000
          else sofZ 0 |}.

End Metrics.
End msmarco_eval_retrieval.

(** ** analysis/real_world_validation.py: self-referential metrics *)

Module real_world_validation.
Section Metrics.
Local Open Scope float_scope.

(** [np.log2] on binary64. *)
Variable np_log2 : float -> float.

(** Insertion of an indexed value before the first value not below it.
    Equal values keep their order here.  numpy's default sort is not
    stable: among equal values [np.argsort] may return the indices in
    another order, so what is stated below of the three metrics either
    does not depend on that order or is stated at inputs without equal
    distances. *)
Fixpoint insert_indexed (x : nat * float) (l : list (nat * float))
    : list (nat * float) :=
  match l with
  | [] => [x]
  | y :: l' =>
      if Np.sort_leb (snd x) (snd y) then x :: l
      else y :: insert_indexed x l'
  end.

(** [np.argsort]. *)
Definition np_argsort (a : list float) : list nat :=
  map fst (fold_right insert_indexed [] (imap pair a)).

(** [np.linalg.norm(embeddings - embeddings[i], axis=1)]. *)
Definition dists_to (embeddings : list (list float)) (i : nat)
    : result (list float) :=
  match embeddings !! i with
  | Some e => Ok (map (fun x => Np.dist x e) embeddings)
  | None => Raise IndexError
  end.

(** [a[1:k+1]]. *)
Definition slice_1_k {A : Type} (k : nat) (a : list A) : list A :=
  take k (drop 1 a).

Definition compute_recall_at_k (original_embeddings
    compressed_embeddings : list (list float)) (k : nat) : result float :=
  let n := length original_embeddings in
  if Nat.ltb n (k + 1) then Ok 1.0
  else
    do recalls <-
      Np.map_result
        (fun i =>
           do orig_dists <- dists_to original_embeddings i;
           let orig_nearest := slice_1_k k (np_argsort orig_dists) in
           do comp_dists <- dists_to compressed_embeddings i;
           let comp_nearest := slice_1_k k (np_argsort comp_dists) in
           let intersection :=
             size (list_to_set orig_nearest ∩ list_to_set comp_nearest
                   : gset nat) in
           if Nat.eqb k 0 then Raise ZeroDivisionError
           else Ok (F64.of_nat intersection / F64.of_nat k))
        (seq 0 n);
    Ok (F64.np_mean recalls).

(** [np.where(a == x)[0][0]]. *)
Fixpoint index_of (x : nat) (a : list nat) : result nat :=
  match a with
  | [] => Raise IndexError
  | y :: a' =>
      if Nat.eqb y x then Ok 0%nat else do i <- index_of x a'; Ok (S i)
  end.

Definition compute_mrr (original_embeddings
    compressed_embeddings : list (list float)) (k : nat) : result float :=
  let n := length original_embeddings in
  do reciprocal_ranks <-
    Np.map_result
      (fun i =>
         do orig_dists <- dists_to original_embeddings i;
         let orig_dists := <[i := infinity]> orig_dists in
         do true_nearest <- Np.np_argmin orig_dists;
         do comp_dists <- dists_to compressed_embeddings i;
         let comp_ranks := np_argsort comp_dists in
         do pos <- index_of true_nearest comp_ranks;
         let rank := (pos + 1)%nat in
         Ok (if Nat.leb rank k then 1.0 / F64.of_nat rank else 0.0))
      (seq 0 n);
  Ok (F64.np_mean reciprocal_ranks).

(** [np.sum(relevance[order] / np.log2(np.arange(2, k + 2)))]. *)
Definition discounted_sum (relevance : list float) (order : list nat)
    (k : nat) : float :=
  F64.np_sum
    (zip_with div
       (map (fun j => nth j relevance nan) order)
       (map (fun j => np_log2 (F64.of_nat j)) (seq 2 k))).

Definition compute_ndcg (original_embeddings
    compressed_embeddings : list (list float)) (k : nat) : result float :=
  let n := length original_embeddings in
  if Nat.ltb n (k + 1) then Ok 1.0
  else
    do ndcgs <-
      Np.map_result
        (fun i =>
           do orig_dists <- dists_to original_embeddings i;
           let orig_dists := <[i := infinity]> orig_dists in
           let relevance := map (fun d => 1.0 / (d + 1e-10)) orig_dists in
           let ideal_order := take k (rev (np_argsort relevance)) in
           let ideal_dcg := discounted_sum relevance ideal_order k in
           do comp_dists <- dists_to compressed_embeddings i;
           let actual_order := slice_1_k k (np_argsort comp_dists) in
           let actual_dcg := discounted_sum relevance actual_order k in
           Ok (actual_dcg / (ideal_dcg + 1e-10)))
        (seq 0 n);
    Ok (F64.np_mean ndcgs).

End Metrics.
Section Regions.
Local Open Scope float_scope.

(** The entry ['delta_boundary_range'] of the result. *)
Record delta_range : Type := {
  range_min : float;
  range_max : float;
  range_mean : float;
  range_std : float;
}.

(** The dictionary [detect_stability_regions] returns. *)
Record stability_regions : Type := {
  stable_region : list float;
  ridge_region : list float;
  instability_region : list float;
  collapse_threshold : option float;
  variance : float;
  delta_boundary_range : delta_range;
}.

(** [for i, (delta, mse) in enumerate(zip(...))], from index [i] on: the
    grid value at the first pair that meets the collapse criteria. *)
Fixpoint find_collapse (grid_values : list float) (i : nat)
    (pairs : list (float * float)) : result (option float) :=
  match pairs with
  | [] => Ok None
  | (delta, mse) :: pairs' =>
      if (0.5 <? mse) || (1.0 <? delta) then
        match grid_values !! i with
        | Some g => Ok (Some g)
        | None => Raise IndexError
        end
      else find_collapse grid_values (S i) pairs'
  end.

Definition detect_stability_regions
    (grid_values delta_boundary_values mse_values : list float)
    : result stability_regions :=
  do collapse_threshold <-
    find_collapse grid_values 0 (combine delta_boundary_values mse_values);
  let variance :=
    if Nat.ltb 1 (length delta_boundary_values)
    then F64.np_var delta_boundary_values else 0.0 in
  let '(stable_region, ridge_region, instability_region) :=
    match collapse_threshold with
    | None => (grid_values, [], [])
    | Some c =>
        (List.filter (fun g => g <? c * 0.5) grid_values,
         List.filter (fun g => (c * 0.5 <=? g) && (g <? c)) grid_values,
         List.filter (fun g => c <=? g) grid_values)
    end in
  do range_min <- F64.np_min delta_boundary_values;
  do range_max <- F64.np_max delta_boundary_values;
  Ok {| stable_region := stable_region;
        ridge_region := ridge_region;
        instability_region := instability_region;
        collapse_threshold := collapse_threshold;
        variance := variance;
        delta_boundary_range :=
          {| range_min := range_min;
             range_max := range_max;
             range_mean := F64.np_mean delta_boundary_values;
             range_std := F64.np_std delta_boundary_values |} |}.

End Regions.

End real_world_validation.

(** ** Vocabulary of the properties *)

Module Ranking.
Local Open Scope R_scope.

(** The discount [1 / log2(i + 2)] of rank [i]. *)
Definition discount (i : nat) : R :=
  1 / Exact.log2 (IZR (Z.of_nat (i + 2))).

(** The gain a ranking collects from rank [i] on. *)
Fixpoint dcg_from (relevant : gset string) (i : nat) (l : list string) : R :=
  match l with
  | [] => 0
  | x :: l' =>
      (if bool_decide (x ∈ relevant) then discount i else 0)
      + dcg_from relevant (S i) l'
  end.

(** [discount c + ... + discount (c + h - 1)]. *)
Fixpoint sum_discount (c h : nat) : R :=
  match h with
  | O => 0
  | S h' => discount c + sum_discount (S c) h'
  end.

(** The number of relevant entries of a ranking. *)
Fixpoint hits (relevant : gset string) (l : list string) : nat :=
  match l with
  | [] => 0
  | x :: l' => (if bool_decide (x ∈ relevant) then 1 else 0) + hits relevant l'
  end.

End Ranking.

Module Nearest.
Local Open Scope R_scope.

(** [row] is a centroid of [centroids] nearest to [v]. *)
Definition nearest_in (centroids : list (list R)) (v row : list R) : Prop :=
  row ∈ centroids /\
  forall c, c ∈ centroids -> Np.dist v row <= Np.dist v c.

End Nearest.

(** ** Sample inputs *)

Module Samples.
Local Open Scope float_scope.

(** Two vectors of dimension 2. *)
Definition two_vectors : list (list float) := [[0.12; 0.57]; [0.3; 0.99]].

(** One vector of dimension 2. *)
Definition one_vector : list (list float) := [[0.12; 0.57]].

(** Two points on a line, also used as embeddings of dimension 1. *)
Definition line_points : list (list float) := [[0]; [1]].

(** Two centroids on the same line. *)
Definition line_centroids : list (list float) := [[0]; [3]].

(** The qrels of query q1 and a ranking retrieved for it. *)
Definition q1_relevant : gset string := {[ "p1"; "p2" ]}.

Definition q1_retrieved : list string := ["p3"; "p1"; "p2"].

(** The comparison of the specification's scenario: Recall@10 from 0.50
    to 0.52, compression 10% slower. *)
Definition scenario_comparison : analyze_validation_results.comparison_t :=
  analyze_validation_results.compare_methods
    (analyze_validation_results.stats_of 0.50 0.52 1.0 1.1).

(** A comparison with Recall@10 from 0.50 to 0.505, an improvement of
    about 1 percent. *)
Definition observational_comparison
    : analyze_validation_results.comparison_t :=
  analyze_validation_results.compare_methods
    (analyze_validation_results.stats_of 0.50 0.505 1.0 1.1).



(** The same points and centroids in exact arithmetic. *)
Definition exact_points : list (list R) := [[0]; [1]]%R.


(** A vector off the grid of step 1/10. *)
Definition exact_vectors : list (list R) := [[37 / 100; - 126 / 100]]%R.

(** A comparison table row whose baseline global MSE was not measured. *)
Definition unmeasured_row : compare_boundary_aware.row :=
  compare_boundary_aware.mse_row 0.1 nan 1.0.

(** A row in which the boundary-aware global MSE is worse, and one in
    which it is better. *)
Definition worse_row : compare_boundary_aware.row :=
  compare_boundary_aware.mse_row 0.1 1.0 2.0.

Definition better_row : compare_boundary_aware.row :=
  compare_boundary_aware.mse_row 0.2 2.0 1.0.

(** Two runs over the steps 0.1 and 0.2, the first in descending order. *)
Definition two_runs : list run_boundary_eval.run :=
  [run_boundary_eval.single_run [0.2; 0.1] [0.5; -0.5];
   run_boundary_eval.single_run [0.1; 0.2] [0.25; 0.5]].

(** One run whose deltas are all positive. *)
Definition positive_run : list run_boundary_eval.run :=
  [run_boundary_eval.single_run [0.1; 0.2] [0.25; 0.5]].

(** The statistics of a metric measured once, and of a method that
    measured Recall@10 and the compression time. *)
Definition stat (x : float) : analyze_validation_results.metric_stats :=
  {| analyze_validation_results.mean := x;
     analyze_validation_results.std := 0;
     analyze_validation_results.min := x;
     analyze_validation_results.max := x;
     analyze_validation_results.median := x |}.

Definition method_stats (recall time : float)
    : gmap string analyze_validation_results.metric_stats :=
  {[ "recall_at_10" := stat recall;
     "compression_time_seconds" := stat time ]}.

(** Statistics of the scenario, and of a baseline that retrieved nothing. *)
Definition scenario_stats : analyze_validation_results.stats_t :=
  analyze_validation_results.stats_of 0.50 0.52 1.0 1.1.

Definition zero_recall_stats : analyze_validation_results.stats_t :=
  analyze_validation_results.stats_of 0 0.52 1.0 1.1.

(** A comparison in which only the MRR was compared. *)
Definition mrr_comparison : analyze_validation_results.comparison_t :=
  {[ "mrr" :=
       {| analyze_validation_results.baseline := 0.5;
          analyze_validation_results.boundary_aware := 0.6;
          analyze_validation_results.improvement_pct := 20;
          analyze_validation_results.significant := true |} ]}.

(** A sweep over four steps: its deltas, deltas that pass the collapse
    criterion from the third step on, and MSE values, small and large. *)
Definition sweep_steps : list float := [0.1; 0.2; 0.3; 0.4].

Definition sweep_deltas : list float := [0.1; 0.2; 0.3; 0.4].

Definition sweep_large_deltas : list float := [0.1; 0.2; 1.5; 2.0].

Definition sweep_small_mse : list float := [0.1; 0.2; 0.3; 0.4].

Definition sweep_mse : list float := [0.1; 0.2; 0.3; 0.6].

(** The averaged metrics of a baseline run over the steps 0.2 and 0.1
    and of a boundary-aware run over 0.2 and 0.3. *)
Definition baseline_by_grid
    : compare_boundary_aware.by_grid (gmap string float) :=
  [(0.2, {[ "mse_global" := 2.0 ]}); (0.1, {[ "mse_global" := 1.0 ]})].

Definition boundary_by_grid
    : compare_boundary_aware.by_grid (gmap string float) :=
  [(0.2, {[ "mse_global" := 1.5 ]}); (0.3, {[ "mse_global" := 3.0 ]})].

(** The points of a result file: two at the step 0.1, one of them with a
    null MSE, and one without a grid value. *)
Definition result_points : list compare_boundary_aware.point :=
  [{| compare_boundary_aware.point_grid := Some 0.1;
      compare_boundary_aware.point_metrics :=
        {[ "mse_global" := Some 1.0 ]} |};
   {| compare_boundary_aware.point_grid := Some 0.1;
      compare_boundary_aware.point_metrics := {[ "mse_global" := None ]} |};
   {| compare_boundary_aware.point_grid := None;
      compare_boundary_aware.point_metrics :=
        {[ "mse_global" := Some 2.0 ]} |}].

(** One result file with one experiment, of the baseline method. *)
Definition baseline_only_results
    : list (list analyze_validation_results.experiment) :=
  [[{| analyze_validation_results.method := "lattice-hybrid";
       analyze_validation_results.fields :=
         {[ "recall_at_10" := analyze_validation_results.Number 0.5 ]} |}]].


(** Three passages of dimension 2 with their identifiers, the embedding
    of one query with its identifier, and the qrels of that query. *)
Definition passage_rows : list (list float) := [[1; 0]; [0; 1]; [1; 1]].

Definition query_row : list float := [1; 0].

Definition passage_ids : list string := ["p1"; "p2"; "p3"].

Definition query_ids : list string := ["q1"].

Definition q1_qrels : gmap string (gset string) := {[ "q1" := q1_relevant ]}.

(** The same embeddings in exact arithmetic. *)
Definition exact_passage_rows : list (list R) :=
  [[1; 0]; [0; 1]; [1; 1]]%R.

Definition exact_query_rows : list (list R) := [[1; 0]]%R.
End Samples.

(** ** Proof automation *)

(** Evaluates the integer casts of closed counts. *)
Ltac eval_of_nat :=
  repeat match goal with
         | |- context [Z.of_nat ?n] =>
             let v := eval vm_compute in (Z.of_nat n) in
             change (Z.of_nat n) with v
         end.

(** Evaluates the closed decisions of the goal. *)
Ltac eval_bool_decide :=
  repeat match goal with
         | |- context [@bool_decide ?P ?d] =>
             let v := eval vm_compute in (@bool_decide P d) in
             let E := fresh "E" in
             assert (E : @bool_decide P d = v) by (vm_compute; reflexivity);
             rewrite E; clear E
         end.

(** Splits the comparisons of integers and mantissas a goal mentions. *)
Ltac cmp_cases :=
  repeat match goal with
         | H : context [Pos.compare_cont Eq ?a ?b] |- _ =>
             change (Pos.compare_cont Eq a b) with (a ?= b)%positive in H
         | |- context [Pos.compare_cont Eq ?a ?b] =>
             change (Pos.compare_cont Eq a b) with (a ?= b)%positive
         end;
  repeat match goal with
         | H : context [(?a ?= ?b)%Z] |- _ =>
             destruct (Z.compare_spec a b); try discriminate
         | |- context [(?a ?= ?b)%Z] =>
             destruct (Z.compare_spec a b); try discriminate
         | H : context [(?a ?= ?b)%positive] |- _ =>
             destruct (Pos.compare_spec a b); try discriminate
         | |- context [(?a ?= ?b)%positive] =>
             destruct (Pos.compare_spec a b); try discriminate
         end.

(** * Part II: the properties *)

(** ** The order of binary64 *)

Section Binary64Order.

(** The comparison of the IEEE 754 specification is antisymmetric. *)
Lemma SFcompare_antisym (x y : spec_float) :
  SFcompare y x = option_map CompOpp (SFcompare x y).
Proof.
  destruct x as [sx|sx| |sx mx ex], y as [sy|sy| |sy my ey]; cbn;
    try reflexivity;
    try (destruct sx; reflexivity); try (destruct sy; reflexivity);
    try (destruct sx, sy; reflexivity).
  change (Pos.compare_cont Eq my mx) with (my ?= mx)%positive.
  change (Pos.compare_cont Eq mx my) with (mx ?= my)%positive.
  rewrite (Z.compare_antisym ex ey), (Pos.compare_antisym mx my).
  destruct sx, sy; cbn; try reflexivity;
    destruct (ex ?= ey)%Z; cbn; try reflexivity;
    destruct (mx ?= my)%positive; reflexivity.
Qed.

Lemma ltb_asym (x y : float) :
  (x <? y)%float = true -> (y <? x)%float = false.
Proof.
  rewrite !ltb_spec. unfold SFltb.
  rewrite (SFcompare_antisym (Prim2SF x) (Prim2SF y)).
  destruct (SFcompare (Prim2SF x) (Prim2SF y)) as [[]|]; cbn; congruence.
Qed.

End Binary64Order.

(** ** The threshold verdict *)

Section ThresholdVerdict.
Import analyze_validation_results.
Local Open Scope float_scope.

Implicit Type comparison : comparison_t.

(** Rule 2: with some metric compared, the verdict is EXPLOITABLE exactly
    when the Recall@10 improvement is above 2 (percent) and the magnitude
    of the time change is below 100 (percent). *)
Lemma determine_verdict_exploitable_iff comparison :
  size comparison <> 0%nat ->
  determine_verdict comparison = EXPLOITABLE <->
  (2.0 <? get_improvement_pct comparison "recall_at_10") = true /\
  (abs (get_improvement_pct comparison "compression_time_seconds") <? 100)
    = true.
Proof.
  intros Hsize. unfold determine_verdict.
  destruct (Nat.eqb_spec (size comparison) 0) as [E|_]; [contradiction|].
  destruct (2.0 <? _); destruct (abs _ <? 100); cbn [andb];
    repeat match goal with
           | |- context [if ?b then _ else _] => destruct b
           end; intuition congruence.
Qed.

(** What the code does for rule 3: OBSERVATIONAL exactly when the
    improvement is strictly between 0 and 2, both ends excluded. *)
Lemma determine_verdict_observational_iff comparison :
  size comparison <> 0%nat ->
  determine_verdict comparison = OBSERVATIONAL <->
  (0 <? get_improvement_pct comparison "recall_at_10") = true /\
  (get_improvement_pct comparison "recall_at_10" <? 2.0) = true.
Proof.
  intros Hsize. unfold determine_verdict.
  destruct (Nat.eqb_spec (size comparison) 0) as [E|_]; [contradiction|].
  destruct (get_improvement_pct comparison "recall_at_10" <? 2.0) eqn:Hlt.
  - rewrite (ltb_asym _ _ Hlt). cbn [andb].
    destruct (0 <? _); cbn [andb]; intuition congruence.
  - rewrite andb_false_r.
    destruct (2.0 <? _); destruct (abs _ <? 100); cbn [andb];
      intuition congruence.
Qed.

Lemma determine_verdict_observational_iff_witness :
  size Samples.observational_comparison <> 0%nat /\
  (0 <? get_improvement_pct Samples.observational_comparison "recall_at_10")
  = true /\
  (get_improvement_pct Samples.observational_comparison "recall_at_10"
   <? 2.0) = true /\
  determine_verdict Samples.observational_comparison = OBSERVATIONAL.
Proof.
  assert (Hs : size Samples.observational_comparison <> 0%nat)
    by (vm_compute; discriminate).
  assert (H0 : (0 <? get_improvement_pct Samples.observational_comparison
                       "recall_at_10") = true)
    by (vm_compute; reflexivity).
  assert (H2 : (get_improvement_pct Samples.observational_comparison
                  "recall_at_10" <? 2.0) = true)
    by (vm_compute; reflexivity).
  split; [exact Hs|]. split; [exact H0|]. split; [exact H2|].
  apply (determine_verdict_observational_iff
           Samples.observational_comparison Hs).
  split; assumption.
Defined.

(** So an improvement of exactly 2 percent is REJECTED, whatever the
    overhead. *)
Lemma determine_verdict_rejects_two_percent comparison :
  size comparison <> 0%nat ->
  get_improvement_pct comparison "recall_at_10" = 2.0 ->
  determine_verdict comparison = REJECTED.
Proof.
  intros Hsize Hr. unfold determine_verdict.
  destruct (Nat.eqb_spec (size comparison) 0) as [E|_]; [contradiction|].
  rewrite Hr. reflexivity.
Qed.

Lemma determine_verdict_exploitable_iff_witness :
  size Samples.scenario_comparison <> 0%nat /\
  (determine_verdict Samples.scenario_comparison = EXPLOITABLE <->
   (2.0 <? get_improvement_pct Samples.scenario_comparison "recall_at_10")
     = true /\
   (abs (get_improvement_pct Samples.scenario_comparison
           "compression_time_seconds") <? 100) = true).
Proof.
  split; [vm_compute; discriminate|].
  apply (determine_verdict_exploitable_iff Samples.scenario_comparison).
  vm_compute. discriminate.
Defined.

(** The scenario of the specification: Recall@10 from 0.50 to 0.52 (an
    improvement of 4%, in binary64 a little above) and a compression 10%
    slower give EXPLOITABLE. *)
Lemma determine_verdict_scenario :
  get_improvement_pct Samples.scenario_comparison "recall_at_10"
  = 4.0000000000000036 /\
  get_improvement_pct Samples.scenario_comparison "compression_time_seconds"
  = -10.000000000000009 /\
  determine_verdict Samples.scenario_comparison = EXPLOITABLE.
Proof. vm_compute. repeat split; reflexivity. Qed.

(** C1 (the code departs from the claim).  Recall@10 means 50/64 and 51/64
    are an improvement of exactly 2 percent: positive and at most 2, so
    OBSERVATIONAL by rule 3; the code, whose test is [< 2.0], answers
    REJECTED. *)
Theorem determine_verdict_two_percent_rejected :
  let comparison := compare_methods (stats_of 0.78125 0.796875 1.0 1.1) in
  get_improvement_pct comparison "recall_at_10" = 2.0 /\
  (0 <? get_improvement_pct comparison "recall_at_10") = true /\
  (get_improvement_pct comparison "recall_at_10" <=? 2.0) = true /\
  determine_verdict comparison = REJECTED.
Proof.
  cbv zeta.
  assert (E : get_improvement_pct
                (compare_methods (stats_of 0.78125 0.796875 1.0 1.1))
                "recall_at_10" = 2.0) by (vm_compute; reflexivity).
  rewrite E. repeat split; vm_compute; reflexivity.
Qed.

End ThresholdVerdict.

(** ** The stability analyzer *)

Section Stability.
Import run_boundary_eval.
Local Open Scope float_scope.

Lemma find_zero_crossings_spec (grid mean : list float) (g : float) :
  g ∈ find_zero_crossings grid mean <->
  exists (i : nat) (a b : float),
    mean !! i = Some a /\ mean !! (i + 1)%nat = Some b /\
    grid !! i = Some g /\ crosses a b = true.
Proof.
  unfold find_zero_crossings.
  rewrite list_elem_of_In, in_flat_map. split.
  - intros (i & _ & Hin).
    destruct (mean !! i) as [a|] eqn:Ha; [|inversion Hin].
    destruct (mean !! (i + 1)%nat) as [b|] eqn:Hb; [|inversion Hin].
    destruct (grid !! i) as [g'|] eqn:Hg; [|inversion Hin].
    destruct (crosses a b) eqn:Hc; [|inversion Hin].
    destruct Hin as [->|[]]. exists i, a, b. auto.
  - intros (i & a & b & Ha & Hb & Hg & Hc).
    exists i. split.
    + apply in_seq. apply lookup_lt_Some in Hb. lia.
    + rewrite Ha, Hb, Hg, Hc. left. reflexivity.
Qed.

End Stability.

(** ** The count-based verdict *)

Section CountVerdict.
Import compare_boundary_aware.
Local Open Scope float_scope.

Lemma count_if_add (a b : float) (better : bool) (n : nat) :
  count_if a b better n
  = (n + (if comparable a b && better then 1 else 0))%nat.
Proof. unfold count_if. destruct (comparable a b && better); lia. Qed.

(** The loop invariant: the state after some rows is the initial state
    plus the counts of those rows. *)
Lemma fold_count_row (rows : list row) (imp : improvements_t) (total : nat) :
  fold_left count_row rows (imp, total)
  = ({| mse_global := mse_global imp + mse_global (improved_counts rows);
        mse_boundary :=
          mse_boundary imp + mse_boundary (improved_counts rows);
        delta_boundary :=
          delta_boundary imp + delta_boundary (improved_counts rows);
        knn_overlap := knn_overlap imp + knn_overlap (improved_counts rows);
        lsi := lsi imp + lsi (improved_counts rows) |},
     (total + compared_rows rows)%nat).
Proof.
  revert imp total.
  induction rows as [|r rows IH]; intros imp total.
  - destruct imp. cbn. repeat rewrite Nat.add_0_r. reflexivity.
  - cbn [fold_left]. unfold count_row at 2. rewrite IH. clear IH.
    cbn [mse_global mse_boundary delta_boundary knn_overlap lsi].
    rewrite !count_if_add.
    unfold improved_counts, improved_rows, compared_rows.
    cbn [mse_global mse_boundary delta_boundary knn_overlap lsi List.filter].
    f_equal; [f_equal|];
      repeat match goal with
             | |- context [if ?c then _ else _] => destruct c
             end; cbn [length]; lia.
Qed.

Lemma compute_verdict_counts (rows : list row) :
  improvements (compute_verdict rows) = improved_counts rows /\
  total_comparisons (compute_verdict rows) = compared_rows rows.
Proof.
  unfold compute_verdict. rewrite fold_count_row. cbn [no_improvements
    mse_global mse_boundary delta_boundary knn_overlap lsi Nat.add].
  assert (E : forall i : improvements_t,
             {| mse_global := mse_global i; mse_boundary := mse_boundary i;
                delta_boundary := delta_boundary i;
                knn_overlap := knn_overlap i; lsi := lsi i |} = i)
    by (intros []; reflexivity).
  rewrite E.
  repeat match goal with
         | |- context [if ?c then _ else _] => destruct c
         end; cbn; auto.
Qed.

Lemma compared_rows_all (rows : list row) :
  Forall (fun r => comparable (baseline_mse_global r) (boundary_mse_global r)
                   = true) rows ->
  compared_rows rows = length rows.
Proof.
  intros Hall. unfold compared_rows.
  induction Hall as [|r rows Hr _ IH]; [reflexivity|].
  cbn [List.filter]. rewrite Hr. cbn [length]. rewrite IH. reflexivity.
Qed.

(** C9, as the code has it where the compared points are the rows: a
    table with at least one row and both global MSE values measured at
    every row.  The counts are, per metric, the rows in which both values
    are not [nan] and the boundary-aware one is better; the thresholds
    are taken of the number of rows.  Some count at 70% of the rows:
    exploitable, confidence high.  Else some count at 50%: exploitable,
    moderate.  Else some count positive: exploitable, low.  Else: not
    exploitable, and confidence high again. *)
Theorem compute_verdict_escalation (rows : list row) :
  rows <> [] ->
  Forall (fun r => comparable (baseline_mse_global r) (boundary_mse_global r)
                   = true) rows ->
  let v := compute_verdict rows in
  let n := length rows in
  let strong := strong_improvement (improved_counts rows) n in
  let consistent := consistent_improvement (improved_counts rows) n in
  let any := any_improvement (improved_counts rows) in
  improvements v = improved_counts rows /\
  total_comparisons v = n /\
  exploitable v = strong || consistent || any /\
  confidence v =
    (if strong then high
     else if consistent then moderate
     else if any then low
     else high).
Proof.
  intros _ Hall. cbv zeta. rewrite <- (compared_rows_all rows Hall).
  destruct (compute_verdict_counts rows) as [Hi Ht].
  split; [exact Hi|]. split; [exact Ht|].
  unfold compute_verdict in *. rewrite fold_count_row in *.
  cbn [no_improvements mse_global mse_boundary delta_boundary knn_overlap
       lsi Nat.add] in *.
  assert (E : forall i : improvements_t,
             {| mse_global := mse_global i; mse_boundary := mse_boundary i;
                delta_boundary := delta_boundary i;
                knn_overlap := knn_overlap i; lsi := lsi i |} = i)
    by (intros []; reflexivity).
  rewrite E in *.
  destruct (strong_improvement _ _); [cbn; auto|].
  destruct (consistent_improvement _ _); [cbn; auto|].
  destruct (any_improvement _); cbn; auto.
Qed.

Lemma compute_verdict_escalation_witness :
  let rows := [mse_row 0.1 1.0 2.0; mse_row 0.2 2.0 1.0] in
  rows <> [] /\
  Forall (fun r => comparable (baseline_mse_global r) (boundary_mse_global r)
                   = true) rows /\
  total_comparisons (compute_verdict rows) = length rows /\
  confidence (compute_verdict rows) = moderate.
Proof.
  cbv zeta.
  assert (Hall : Forall
                   (fun r => comparable (baseline_mse_global r)
                               (boundary_mse_global r) = true)
                   [mse_row 0.1 1.0 2.0; mse_row 0.2 2.0 1.0])
    by (repeat constructor).
  split; [discriminate|]. split; [exact Hall|].
  destruct (compute_verdict_escalation
              [mse_row 0.1 1.0 2.0; mse_row 0.2 2.0 1.0]
              ltac:(discriminate) Hall) as (_ & Ht & _ & Hc).
  split; [exact Ht|]. rewrite Hc. reflexivity.
Defined.

(** C9 as stated fails: one row whose boundary-aware global MSE is worse.
    No metric improves anywhere, none reaches 70% of the one compared row,
    and yet the confidence is "high". *)
Lemma compute_verdict_high_without_improvement :
  let v := compute_verdict [mse_row 0.1 1.0 2.0] in
  confidence v = high /\
  total_comparisons v = 1%nat /\
  strong_improvement (improvements v) (total_comparisons v) = false /\
  any_improvement (improvements v) = false.
Proof. vm_compute. repeat split; reflexivity. Qed.

(** With no row to compare every count, 0, reaches 70% of 0: the empty
    table is judged exploitable with confidence high. *)
Lemma compute_verdict_empty_table :
  exploitable (compute_verdict []) = true /\
  confidence (compute_verdict []) = high /\
  total_comparisons (compute_verdict []) = 0%nat.
Proof. vm_compute. repeat split; reflexivity. Qed.

End CountVerdict.

(** ** Self-referential metrics on degenerate inputs *)

Section Degenerate.
Import real_world_validation.
Local Open Scope float_scope.

(** Recall@k has the guard: fewer than [k + 1] vectors score 1.0. *)
Lemma compute_recall_at_k_degenerate
    (original compressed : list (list float)) (k : nat) :
  (length original < k + 1)%nat ->
  compute_recall_at_k original compressed k = Ok 1.0.
Proof.
  intros Hn. unfold compute_recall_at_k.
  destruct (Nat.ltb_spec (length original) (k + 1)); [reflexivity|lia].
Qed.

(** So has NDCG, whatever [np.log2] computes. *)
Lemma compute_ndcg_degenerate (np_log2 : float -> float)
    (original compressed : list (list float)) (k : nat) :
  (length original < k + 1)%nat ->
  compute_ndcg np_log2 original compressed k = Ok 1.0.
Proof.
  intros Hn. unfold compute_ndcg.
  destruct (Nat.ltb_spec (length original) (k + 1)); [reflexivity|lia].
Qed.

(** The two guarded metrics together. *)
Lemma degenerate_recall_and_ndcg (np_log2 : float -> float)
    (original compressed : list (list float)) (k : nat) :
  (length original < k + 1)%nat ->
  compute_recall_at_k original compressed k = Ok 1.0 /\
  compute_ndcg np_log2 original compressed k = Ok 1.0.
Proof.
  intros Hn. split.
  - apply compute_recall_at_k_degenerate. exact Hn.
  - apply compute_ndcg_degenerate. exact Hn.
Qed.

Lemma degenerate_recall_and_ndcg_witness :
  (length Samples.line_points < 10 + 1)%nat /\
  compute_recall_at_k Samples.line_points Samples.line_points 10 = Ok 1.0 /\
  compute_ndcg (fun x => x) Samples.line_points Samples.line_points 10
  = Ok 1.0.
Proof.
  split; [cbn; lia|].
  apply (degenerate_recall_and_ndcg (fun x => x) Samples.line_points
           Samples.line_points 10).
  cbn. lia.
Defined.

(** C8 (the code departs from the claim).  [compute_mrr] has no such
    guard: on two vectors and [k = 10] (fewer than [k + 1]) each vector
    finds itself first in the compressed ranking and its true neighbour
    second, so the score is 0.5, not 1.0; on no vectors it is the mean of
    nothing, [nan]. *)
Theorem compute_mrr_degenerate_not_perfect :
  (length Samples.line_points < 10 + 1)%nat /\
  compute_mrr Samples.line_points Samples.line_points 10 = Ok 0.5 /\
  compute_mrr [] [] 10 = Ok nan.
Proof. split; [cbn; lia|]. split; vm_compute; reflexivity. Qed.

End Degenerate.

(** ** The compression strategies: degenerate and invalid inputs *)

Section Strategies.
Import msmarco_run_compression.
Context {F : Type} `{Scalar F}.
Variable KMeans : list (list F) -> Z -> Z -> result (list (list F) * list nat).

(** At most [k] vectors: every vector is its own centroid, and KMeans is
    not run. *)
Lemma run_kmeans_identity (vectors : list (list F)) (k random_state : Z) :
  (Z.of_nat (length vectors) <= k)%Z ->
  run_kmeans KMeans vectors k random_state = Ok (vectors, vectors).
Proof.
  intros Hk. unfold run_kmeans.
  destruct (Z.leb_spec k 0).
  - destruct (Z.leb_spec (Z.of_nat (length vectors)) 1); [reflexivity|lia].
  - destruct (Z.leb_spec (Z.of_nat (length vectors)) k); [reflexivity|lia].
Qed.

Lemma run_kmeans_empty (k random_state : Z) :
  run_kmeans KMeans [] k random_state = Ok ([], []).
Proof.
  unfold run_kmeans.
  destruct (Z.leb_spec k 0) as [Hk|Hk];
    match goal with
    | |- context [(?a <=? ?b)%Z] => destruct (Z.leb_spec a b) as [Hn|Hn]
    end; try reflexivity; cbn in Hn; lia.
Qed.

(** C7 (the code departs from the claim).  On an empty VectorSet the
    boundary-aware strategy, which skips an empty selection, returns the
    empty result; the baseline strategy asks [np.argmin] for the nearest of
    no centroids and raises [ValueError], whatever the step and [k]. *)
Theorem compress_empty_input (grid : F) (k random_state : Z)
    (start_time end_time : F) :
  compress_baseline KMeans [] grid k random_state start_time end_time
  = Raise ValueError /\
  exists i : info,
    compress_boundary_aware KMeans [] grid k random_state start_time end_time
    = Ok ([], i) /\
    num_boundary_vectors i = Some 0%nat /\
    num_bulk_vectors i = Some 0%nat /\
    num_unique_centroids i = 0%nat.
Proof.
  unfold compress_baseline, compress_boundary_aware.
  rewrite run_kmeans_empty. cbn. split; [reflexivity|].
  eexists. split; [reflexivity|]. cbn. auto.
Qed.

(** A [k] that is not positive is replaced by 1. *)
Lemma run_kmeans_clamps (vectors : list (list F)) (k random_state : Z) :
  (k <= 0)%Z ->
  run_kmeans KMeans vectors k random_state
  = run_kmeans KMeans vectors 1 random_state.
Proof.
  intros Hk. unfold run_kmeans.
  destruct (Z.leb_spec k 0); [reflexivity|lia].
Qed.

End Strategies.

Section ClusterIdentity.
Import msmarco_run_compression run_real_world_evaluation.
Context {F : Type} `{Scalar F}.

(** C4.  With at most [k] vectors both clustering implementations return
    the vectors themselves, as the compressed vectors and as the
    centroids: [run_kmeans] without a call of KMeans (the result does not
    depend on it), [simple_kmeans_compression] without an iteration. *)
Theorem cluster_identity_fallback
    (KMeans : list (list F) -> Z -> Z -> result (list (list F) * list nat))
    (vectors : list (list F)) (k random_state : Z) (grid_step : F)
    (boundary_aware : bool) :
  (Z.of_nat (length vectors) <= k)%Z ->
  run_kmeans KMeans vectors k random_state = Ok (vectors, vectors) /\
  simple_kmeans_compression vectors k grid_step boundary_aware
  = Ok (vectors, vectors).
Proof.
  intros Hk. split.
  - apply run_kmeans_identity. exact Hk.
  - unfold simple_kmeans_compression.
    destruct (Z.leb_spec (Z.of_nat (length vectors)) k); [reflexivity|lia].
Qed.

End ClusterIdentity.

Section Witnesses.
Import msmarco_run_compression run_real_world_evaluation.
Local Open Scope float_scope.

Lemma cluster_identity_fallback_witness :
  (Z.of_nat (length Samples.two_vectors) <= 10)%Z /\
  run_kmeans no_KMeans Samples.two_vectors 10 42
  = Ok (Samples.two_vectors, Samples.two_vectors) /\
  simple_kmeans_compression Samples.two_vectors 10 0.1 true
  = Ok (Samples.two_vectors, Samples.two_vectors).
Proof.
  split; [cbn; lia|].
  apply (cluster_identity_fallback no_KMeans Samples.two_vectors
           10 42 0.1 true).
  cbn. lia.
Defined.

(** C6 as stated fails: with step -0.1 and [k = 0] the baseline strategy
    raises nothing and returns a compressed vector. *)
Lemma compress_baseline_nonpositive_returns :
  exists i : info,
    compress_baseline no_KMeans Samples.one_vector (-0.1) 0 42 0 1
    = Ok ([[0.1; 0.6000000000000001]], i) /\
    grid i = -0.1 /\ k i = 0%Z.
Proof. eexists. vm_compute. repeat split; reflexivity. Qed.

End Witnesses.

(** ** The depth of the pairwise summation *)

Section SummationDepth.
Local Open Scope nat_scope.

Lemma split_lengths (n : nat) :
  128 < n -> n / 2 - (n / 2) mod 8 < n /\ 0 < n / 2 - (n / 2) mod 8.
Proof.
  intros Hn.
  pose proof (Nat.div_mod_eq n 2).
  pose proof (Nat.mod_upper_bound n 2 ltac:(lia)).
  pose proof (Nat.mod_upper_bound (n / 2) 8 ltac:(lia)).
  lia.
Qed.

(** Every depth from the length of the array on gives the same sum: the
    bound is never what stops the splitting. *)
Lemma F64_pairwise_sum_depth (d d' : nat) (a : list float) :
  length a <= d -> length a <= d' ->
  F64.pairwise_sum d a = F64.pairwise_sum d' a.
Proof.
  revert d' a. induction d as [|d IH]; intros d' a Hd Hd'.
  - destruct a; [|cbn in Hd; lia]. destruct d'; reflexivity.
  - destruct d' as [|d'].
    + destruct a; [reflexivity|cbn in Hd'; lia].
    + cbn [F64.pairwise_sum].
      destruct (length a <? 8) eqn:E8; [reflexivity|].
      destruct (Nat.ltb_spec 128 (length a)) as [Hn|Hn]; [|reflexivity].
      destruct (split_lengths (length a) Hn) as [Hlt Hpos].
      rewrite (IH d' (take _ a)), (IH d' (drop _ a));
        rewrite ?length_take, ?length_drop; try lia.
      reflexivity.
Qed.

Lemma pairwise_sum_depth {F : Type} `{Scalar F} (d d' : nat) (a : list F) :
  length a <= d -> length a <= d' ->
  Np.pairwise_sum d a = Np.pairwise_sum d' a.
Proof.
  revert d' a. induction d as [|d IH]; intros d' a Hd Hd'.
  - destruct a; [|cbn in Hd; lia]. destruct d'; reflexivity.
  - destruct d' as [|d'].
    + destruct a; [reflexivity|cbn in Hd'; lia].
    + cbn [Np.pairwise_sum].
      destruct (length a <? 8) eqn:E8; [reflexivity|].
      destruct (Nat.ltb_spec 128 (length a)) as [Hn|Hn]; [|reflexivity].
      destruct (split_lengths (length a) Hn) as [Hlt Hpos].
      rewrite (IH d' (take _ a)), (IH d' (drop _ a));
        rewrite ?length_take, ?length_drop; try lia.
      reflexivity.
Qed.

End SummationDepth.

(** ** Sums in exact arithmetic *)

Section ExactSum.
Local Open Scope R_scope.

(** The sum of a list of reals. *)
Lemma fold_left_Rplus (xs : list R) (acc : R) :
  fold_left Rplus xs acc = acc + fold_left Rplus xs 0.
Proof.
  revert acc. induction xs as [|x xs IH]; intros acc; cbn [fold_left].
  - lra.
  - rewrite (IH (acc + x)), (IH (0 + x)). lra.
Qed.

Lemma fold_left_Rplus_app (xs ys : list R) :
  fold_left Rplus (xs ++ ys) 0
  = fold_left Rplus xs 0 + fold_left Rplus ys 0.
Proof. rewrite fold_left_app. apply fold_left_Rplus. Qed.

Lemma fold_left_Rplus_zip (r a : list R) :
  length r = length a ->
  fold_left Rplus (zip_with Rplus r a) 0
  = fold_left Rplus r 0 + fold_left Rplus a 0.
Proof.
  revert a. induction r as [|x r IH]; intros [|y a] Hl; try discriminate.
  - cbn. lra.
  - cbn [zip_with fold_left].
    rewrite (fold_left_Rplus _ (0 + (x + y))), (fold_left_Rplus r (0 + x)),
      (fold_left_Rplus a (0 + y)), IH by (cbn in Hl; lia).
    lra.
Qed.

Lemma add_blocks_real (blocks : nat) (r a : list R) :
  length r = 8%nat -> (8 * blocks <= length a)%nat ->
  length (Np.add_blocks blocks r a).1 = 8%nat /\
  fold_left Rplus (Np.add_blocks blocks r a).1 0
  + fold_left Rplus (Np.add_blocks blocks r a).2 0
  = fold_left Rplus r 0 + fold_left Rplus a 0.
Proof.
  revert r a. induction blocks as [|blocks IH]; intros r a Hr Ha.
  - cbn. auto.
  - cbn [Np.add_blocks]. cbn [sadd real_scalar].
    assert (Ht : length (take 8 a) = 8%nat) by (rewrite length_take; lia).
    destruct (IH (zip_with Rplus r (take 8 a)) (drop 8 a)) as [Hl Hs].
    + rewrite length_zip_with. lia.
    + rewrite length_drop. lia.
    + split; [exact Hl|]. rewrite Hs.
      rewrite fold_left_Rplus_zip by lia.
      rewrite <- (take_drop 8 a) at 3. rewrite fold_left_Rplus_app. lra.
Qed.

Lemma unrolled_sum_real (a : list R) :
  (8 <= length a)%nat -> Np.unrolled_sum a = fold_left Rplus a 0.
Proof.
  intros Hn. unfold Np.unrolled_sum.
  destruct (add_blocks_real (length a / 8 - 1) (take 8 a) (drop 8 a))
    as [Hl Hs].
  - rewrite length_take. lia.
  - rewrite length_drop.
    pose proof (Nat.div_mod_eq (length a) 8). lia.
  - destruct (Np.add_blocks _ _ _) as [r rest]. cbn [fst snd] in *.
    cbn [sadd sofZ real_scalar].
    do 9 (destruct r as [|? r]; try discriminate). cbn [nth].
    transitivity (fold_left Rplus (take 8 a ++ drop 8 a) 0);
      [|rewrite take_drop; reflexivity].
    rewrite fold_left_Rplus, fold_left_Rplus_app, <- Hs.
    cbn [fold_left]. lra.
Qed.

Lemma pairwise_sum_real (depth : nat) (a : list R) :
  Np.pairwise_sum depth a = fold_left Rplus a 0.
Proof.
  revert a. induction depth as [|depth IH]; intros a; cbn [Np.pairwise_sum].
  - destruct (Nat.ltb_spec (length a) 8).
    + unfold Np.neg_zero. cbn [sadd smul sofZ real_scalar].
      rewrite fold_left_Rplus. lra.
    + apply unrolled_sum_real. lia.
  - destruct (Nat.ltb_spec (length a) 8).
    + unfold Np.neg_zero. cbn [sadd smul sofZ real_scalar].
      rewrite fold_left_Rplus. lra.
    + destruct (Nat.ltb_spec 128 (length a)).
      * rewrite !IH. cbn [sadd real_scalar].
        rewrite <- fold_left_Rplus_app, take_drop. reflexivity.
      * apply unrolled_sum_real. lia.
Qed.

(** In exact arithmetic the order of the additions does not matter. *)
Lemma np_sum_real (xs : list R) : Np.np_sum xs = fold_left Rplus xs 0.
Proof.
  unfold Np.np_sum. rewrite pairwise_sum_real.
  cbn [sadd sofZ real_scalar]. lra.
Qed.

End ExactSum.

(** ** Quantization in exact arithmetic *)

Section ExactRounding.
Local Open Scope R_scope.

Lemma Int_part_IZR (n : Z) : Int_part (IZR n) = n.
Proof. symmetry. apply Int_part_spec. lra. Qed.


Lemma round_integral (x : R) : exists m : Z, Exact.round x = IZR m.
Proof.
  unfold Exact.round.
  destruct (Rlt_dec _ _); [eauto|].
  destruct (Rlt_dec _ _); [eauto|].
  destruct (Z.even _); eauto.
Qed.


End ExactRounding.

Section Quantize.
Import msmarco_run_compression.
Local Open Scope R_scope.



(** On binary64 a snapped coordinate is left unchanged as soon as dividing
    it by the step again rounds to the same grid index. *)
Lemma round_to_idempotent_binary64 (s x : float) :
  F64.np_round (Np.round_to s x / s)%float = F64.np_round (x / s)%float ->
  Np.round_to s (Np.round_to s x) = Np.round_to s x.
Proof.
  intros E. unfold Np.round_to at 1.
  cbn [sround sdiv smul float_scalar]. rewrite E. reflexivity.
Qed.

(** The same on binary64, on a sample: the value Python computes. *)
Lemma snap_to_grid_idempotent_binary64 :
  snap_to_grid (snap_to_grid Samples.two_vectors 0.1%float) 0.1%float
  = snap_to_grid Samples.two_vectors 0.1%float.
Proof. vm_compute. reflexivity. Qed.

End Quantize.

(** ** Ranking metrics against qrels *)

Section Log2Facts.
Local Open Scope R_scope.

Lemma ln_2_pos : 0 < ln 2.
Proof. pose proof ln_lt_2. lra. Qed.

Lemma log2_2 : Exact.log2 2 = 1.
Proof. unfold Exact.log2. field. pose proof ln_2_pos. lra. Qed.

Lemma log2_4 : Exact.log2 4 = 2.
Proof.
  unfold Exact.log2. replace 4 with (2 * 2) by lra.
  rewrite ln_mult by lra. field. pose proof ln_2_pos. lra.
Qed.

(** [a ^ p < b ^ q] on integers gives [p * ln a < q * ln b]. *)
Lemma ln_pow_lt (a b p q : Z) :
  (0 < a)%Z -> (0 < b)%Z -> (0 <= p)%Z -> (0 <= q)%Z ->
  (a ^ p < b ^ q)%Z ->
  IZR p * ln (IZR a) < IZR q * ln (IZR b).
Proof.
  intros Ha Hb Hp Hq Hlt.
  rewrite <- (Z2Nat.id p Hp), <- (Z2Nat.id q Hq) in Hlt |- *.
  rewrite <- !INR_IZR_INZ.
  rewrite <- !ln_pow by (apply IZR_lt; assumption).
  rewrite !pow_IZR. apply ln_increasing.
  - apply IZR_lt. apply Z.pow_pos_nonneg; lia.
  - apply IZR_lt. exact Hlt.
Qed.

Lemma log2_3_bounds : 84 / 53 < Exact.log2 3 < 485 / 306.
Proof.
  pose proof ln_2_pos as H2.
  assert (L : 84 * ln 2 < 53 * ln 3).
  { apply (ln_pow_lt 2 3 84 53); [lia|lia|lia|lia|]. vm_compute. reflexivity. }
  assert (U : 306 * ln 3 < 485 * ln 2).
  { apply (ln_pow_lt 3 2 306 485); [lia|lia|lia|lia|]. vm_compute. reflexivity. }
  unfold Exact.log2.
  split.
  - apply Rmult_lt_reg_r with (ln 2); [exact H2|].
    replace (ln 3 / ln 2 * ln 2) with (ln 3) by (field; lra). lra.
  - apply Rmult_lt_reg_r with (ln 2); [exact H2|].
    replace (ln 3 / ln 2 * ln 2) with (ln 3) by (field; lra). lra.
Qed.
End Log2Facts.

Section GroundTruth.
Import msmarco_eval_retrieval.
Local Open Scope R_scope.

Lemma q1_recall :
  compute_recall_at_k (F:=R) Samples.q1_retrieved Samples.q1_relevant 10 = 1.
Proof.
  unfold compute_recall_at_k.
  assert (E1 : bool_decide (Samples.q1_relevant = ∅) = false)
    by (vm_compute; reflexivity).
  rewrite E1.
  assert (E2 : size (list_to_set (Np.py_take 10 Samples.q1_retrieved)
                     ∩ Samples.q1_relevant : gset string) = 2%nat)
    by (vm_compute; reflexivity).
  assert (E3 : size Samples.q1_relevant = 2%nat) by (vm_compute; reflexivity).
  rewrite E2, E3. unfold Np.of_nat. cbn. eval_of_nat. lra.
Qed.

Lemma q1_mrr :
  compute_mrr (F:=R) Samples.q1_retrieved Samples.q1_relevant = 1 / 2.
Proof.
  unfold compute_mrr.
  assert (E : first_relevant 0 Samples.q1_retrieved Samples.q1_relevant
              = Some 1%nat) by (vm_compute; reflexivity).
  rewrite E. unfold Np.of_nat. cbn. eval_of_nat. lra.
Qed.


Lemma q1_dcg :
  compute_dcg_at_k (F:=R) Samples.q1_retrieved Samples.q1_relevant 10
  = 1 / Exact.log2 3 + 1 / 2.
Proof.
  unfold compute_dcg_at_k.
  change (imap pair (Np.py_take 10 Samples.q1_retrieved))
    with [(0%nat, "p3"); (1%nat, "p1"); (2%nat, "p2")].
  cbn [fold_left]. eval_bool_decide. unfold Np.of_nat. cbn. eval_of_nat.
  change (@slog2 R real_log2) with Exact.log2.
  rewrite log2_4. lra.
Qed.

Lemma ideal_dcg_of_two :
  compute_dcg_at_k (F:=R) ["relevant"; "relevant"]
    (list_to_set ["relevant"; "relevant"]) 10
  = 1 + 1 / Exact.log2 3.
Proof.
  unfold compute_dcg_at_k.
  change (imap pair (Np.py_take 10 ["relevant"; "relevant"]))
    with [(0%nat, "relevant"); (1%nat, "relevant")].
  cbn [fold_left]. eval_bool_decide. unfold Np.of_nat. cbn. eval_of_nat.
  change (@slog2 R real_log2) with Exact.log2.
  rewrite log2_2. lra.
Qed.

Lemma q1_ndcg :
  compute_ndcg_at_k (F:=R) Samples.q1_retrieved Samples.q1_relevant 10
  = (1 / Exact.log2 3 + 1 / 2) / (1 + 1 / Exact.log2 3).
Proof.
  unfold compute_ndcg_at_k.
  assert (E3 : size Samples.q1_relevant = 2%nat) by (vm_compute; reflexivity).
  rewrite E3.
  change (Z.to_nat (Z.min (Z.of_nat 2) 10)) with 2%nat.
  cbn [replicate].
  rewrite ideal_dcg_of_two, q1_dcg.
  cbn [seqb real_scalar sofZ]. unfold Exact.eqb.
  destruct (Req_dec_T (1 + 1 / Exact.log2 3) 0) as [E|_]; [|reflexivity].
  exfalso. pose proof log2_3_bounds as [L U].
  assert (0 < 1 / Exact.log2 3) by (apply Rdiv_pos_pos; lra). lra.
Qed.

Lemma q1_ndcg_bounds :
  0.69342 <
  compute_ndcg_at_k (F:=R) Samples.q1_retrieved Samples.q1_relevant 10
  < 0.69344.
Proof.
  rewrite q1_ndcg. pose proof log2_3_bounds as [L U].
  set (l := Exact.log2 3) in *.
  assert (Hl : 0 < l) by lra.
  replace ((1 / l + 1 / 2) / (1 + 1 / l)) with ((2 + l) / (2 * (l + 1)))
    by (field; lra).
  split.
  - apply Rmult_lt_reg_r with (2 * (l + 1)); [lra|].
    replace ((2 + l) / (2 * (l + 1)) * (2 * (l + 1))) with (2 + l)
      by (field; lra). lra.
  - apply Rmult_lt_reg_r with (2 * (l + 1)); [lra|].
    replace ((2 + l) / (2 * (l + 1)) * (2 * (l + 1))) with (2 + l)
      by (field; lra). lra.
Qed.

(** C2, with the value the code computes.  For the relevant set
    {p1, p2} and the ranking [p3, p1, p2]: Recall@10 is 1, the reciprocal
    rank is 1/2, and NDCG@10 is (1/log2 3 + 1/log2 4) / (1/log2 2 + 1/log2 3),
    which is 0.6934 to four places. *)
Theorem q1_metrics :
  compute_recall_at_k (F:=R) Samples.q1_retrieved Samples.q1_relevant 10 = 1 /\
  compute_mrr (F:=R) Samples.q1_retrieved Samples.q1_relevant = 1 / 2 /\
  compute_ndcg_at_k (F:=R) Samples.q1_retrieved Samples.q1_relevant 10
  = (1 / Exact.log2 3 + 1 / Exact.log2 4)
    / (1 / Exact.log2 2 + 1 / Exact.log2 3) /\
  Rabs (compute_ndcg_at_k (F:=R) Samples.q1_retrieved Samples.q1_relevant 10
        - 0.6934) < 0.0001.
Proof.
  split; [exact q1_recall|]. split; [exact q1_mrr|]. split.
  - rewrite q1_ndcg, log2_2, log2_4. f_equal. lra.
  - pose proof q1_ndcg_bounds as [L U].
    apply Rabs_def1; lra.
Qed.

(** Recall@10 and the reciprocal rank on binary64: the values Python
    computes. *)
Lemma q1_recall_mrr_binary64 :
  compute_recall_at_k (F:=float) Samples.q1_retrieved Samples.q1_relevant 10
  = 1%float /\
  compute_mrr (F:=float) Samples.q1_retrieved Samples.q1_relevant
  = 0.5%float.
Proof. split; vm_compute; reflexivity. Qed.

(** C2 as stated fails: the NDCG@10 of this ranking is not within 0.01 of
    0.9197 (the value of the ranking [p1, p3, p2]). *)
Lemma q1_ndcg_not_09197 :
  ~ (compute_recall_at_k (F:=R) Samples.q1_retrieved Samples.q1_relevant 10 = 1 /\
     compute_mrr (F:=R) Samples.q1_retrieved Samples.q1_relevant = 1 / 2 /\
     Rabs (compute_ndcg_at_k (F:=R) Samples.q1_retrieved Samples.q1_relevant 10
           - 0.9197) < 0.01).
Proof.
  intros (_ & _ & Habs).
  pose proof q1_ndcg_bounds as [L U].
  apply Rabs_def2 in Habs. lra.
Qed.
End GroundTruth.

(** ** The boundary classifier *)

Section ExactSort.
Local Open Scope R_scope.

Lemma sort_leb_real (x y : R) : Np.sort_leb x y = Exact.leb x y.
Proof. reflexivity. Qed.

Lemma leb_le (x y : R) : Exact.leb x y = true <-> x <= y.
Proof. unfold Exact.leb. destruct (Rle_dec x y); split; (congruence || tauto). Qed.


Lemma insert_sorted_perm (x : R) (l : list R) :
  Np.insert_sorted x l ≡ₚ x :: l.
Proof.
  induction l as [|y l IH]; cbn; [reflexivity|].
  destruct (Exact.leb x y); [reflexivity|].
  rewrite IH. apply Permutation_swap.
Qed.

Lemma np_sort_perm (l : list R) : Np.np_sort l ≡ₚ l.
Proof.
  induction l as [|x l IH]; cbn; [reflexivity|].
  rewrite insert_sorted_perm, IH. reflexivity.
Qed.





Lemma lookup_nth_lt {A : Type} (l : list A) (i : nat) (d : A) :
  (i < length l)%nat -> l !! i = Some (nth i l d).
Proof.
  intros Hi. destruct (nth_lookup_or_length l i d) as [E|E]; [exact E|lia].
Qed.

(** The floor of exact arithmetic. *)
Lemma Int_part_bounds (t : R) : IZR (Int_part t) <= t < IZR (Int_part t) + 1.
Proof. pose proof (base_Int_part t). lra. Qed.



Lemma lerp_real (a b t : R) : Np.lerp a b t = a + (b - a) * t.
Proof.
  unfold Np.lerp. cbn [sleb ssub sadd smul sofZ real_scalar].
  destruct (Exact.leb _ _); lra.
Qed.

(** The percentile in exact arithmetic: the interpolation between the
    sorted values around the virtual index. *)
Lemma np_percentile_real (a : list R) (q : R) :
  a <> [] -> 0 <= q <= 100 ->
  let s := Np.np_sort a in
  let n := length a in
  let t := IZR (Z.of_nat (n - 1)) * (q / 100) in
  let i := Z.to_nat (Int_part t) in
  let lo := nth (Nat.min i (n - 1)) s 0 in
  let hi := nth (Nat.min (i + 1) (n - 1)) s 0 in
  Np.np_percentile a q = Ok (lo + (hi - lo) * (t - IZR (Int_part t))).
Proof.
  intros Ha Hq. cbv zeta. unfold Np.np_percentile.
  cbn [sleb ssub sadd smul sdiv sofZ sfloor strunc real_scalar].
  unfold Np.of_nat. cbn [sofZ real_scalar].
  assert (E0 : Exact.leb 0 q = true) by (apply leb_le; lra).
  assert (E1 : Exact.leb q 100 = true) by (apply leb_le; lra).
  rewrite E0, E1. cbn [andb negb].
  unfold Exact.floor. rewrite Int_part_IZR.
  assert (Hlen : length (Np.np_sort a) = length a)
    by (apply Permutation_length, np_sort_perm).
  assert (Hn : (0 < length a)%nat) by (destruct a; [congruence|cbn; lia]).
  set (t := IZR (Z.of_nat (length a - 1)) * (q / 100)).
  set (i := Z.to_nat (Int_part t)).
  rewrite !(lookup_nth_lt _ _ 0) by (rewrite Hlen; lia).
  rewrite lerp_real. reflexivity.
Qed.









End ExactSort.

Section Classifier.
Import msmarco_run_compression.
Local Open Scope R_scope.

Lemma ambiguity_scores_length (vectors centroids : list (list R)) :
  length (ambiguity_scores vectors centroids) = length vectors.
Proof.
  unfold ambiguity_scores, Np.cdist. rewrite !length_map. reflexivity.
Qed.






(** On the same binary64 sample, percentile 100 marks both vectors. *)
Lemma classify_percentile_hundred_marks_all :
  classify_boundary_vectors Samples.line_points Samples.line_centroids
    100%float
  = Ok [true; true].
Proof. vm_compute. reflexivity. Qed.

End Classifier.

(** ** Shapes of the numpy primitives *)

Section NumpyShapes.
Context {F : Type} `{Scalar F}.

(** [np.argmin] answers an index of its argument. *)
Lemma argmin_from_bound (l : list F) (best_i : nat) (best : F) (i : nat) :
  (best_i < i)%nat -> (Np.argmin_from best_i best i l < i + length l)%nat.
Proof.
  revert best_i best i. induction l as [|x l IH]; intros best_i best i Hi; cbn.
  - lia.
  - destruct (sisnan best); [lia|].
    destruct (sisnan x || sltb x best).
    + specialize (IH i x (S i)). lia.
    + specialize (IH best_i best (S i)). lia.
Qed.

Lemma np_argmin_bound (l : list F) (a : nat) :
  Np.np_argmin l = Ok a -> (a < length l)%nat.
Proof.
  destruct l as [|x l]; cbn; [discriminate|].
  intros [= <-]. pose proof (argmin_from_bound l 0 x 1). lia.
Qed.

Lemma np_argmin_returns (l : list F) :
  l <> [] -> exists a, Np.np_argmin l = Ok a.
Proof. destruct l; [congruence|]. intros _. eexists. reflexivity. Qed.

Lemma map_result_Forall2 {A B : Type} (f : A -> result B) (l : list A)
    (bs : list B) :
  Np.map_result f l = Ok bs -> Forall2 (fun a b => f a = Ok b) l bs.
Proof.
  revert bs. induction l as [|a l IH]; intros bs; cbn.
  - intros [= <-]. constructor.
  - destruct (f a) as [b|e] eqn:Ef; cbn; [|discriminate].
    destruct (Np.map_result f l) as [bs'|e]; cbn; [|discriminate].
    intros [= <-]. constructor; auto.
Qed.

Lemma map_result_returns {A B : Type} (f : A -> result B) (l : list A) :
  Forall (fun a => exists b, f a = Ok b) l ->
  exists bs, Np.map_result f l = Ok bs.
Proof.
  induction 1 as [|a l [b Hb] _ [bs IH]]; cbn.
  - eexists. reflexivity.
  - rewrite Hb, IH. cbn. eexists. reflexivity.
Qed.

Lemma map_result_raises {A B : Type} (f : A -> result B) (l : list A)
    (e : exn) :
  l <> [] -> (forall a, a ∈ l -> f a = Raise e) ->
  Np.map_result f l = Raise e.
Proof.
  destruct l as [|a l]; [congruence|]. intros _ Hf. cbn.
  rewrite (Hf a); [reflexivity|]. left.
Qed.

Lemma assign_nearest_spec (vectors centroids out : list (list F)) :
  msmarco_run_compression.assign_nearest vectors centroids = Ok out ->
  centroids <> [] /\
  Forall2
    (fun v o =>
       exists a, Np.np_argmin (map (Np.dist v) centroids) = Ok a /\
                 (a < length centroids)%nat /\ o = nth a centroids [])
    vectors out.
Proof.
  unfold msmarco_run_compression.assign_nearest, Np.np_argmin_axis1.
  destruct centroids as [|c cs] eqn:Ec; [discriminate|]. rewrite <- Ec.
  replace (length centroids =? 0)%nat with false by (subst; reflexivity).
  destruct (Np.map_result _ _) as [idx|e] eqn:Em; cbn; [|discriminate].
  intros [= <-]. split; [subst; discriminate|].
  apply map_result_Forall2 in Em. unfold Np.cdist in Em.
  apply Forall2_fmap_l in Em. apply Forall2_fmap_r.
  eapply Forall2_impl; [exact Em|]. cbn. intros v a Ha.
  exists a. split; [exact Ha|]. split; [|reflexivity].
  apply np_argmin_bound in Ha. rewrite length_map in Ha. exact Ha.
Qed.

Lemma assign_nearest_output (vectors centroids out : list (list F)) :
  msmarco_run_compression.assign_nearest vectors centroids = Ok out ->
  length out = length vectors /\ Forall (fun o => o ∈ centroids) out.
Proof.
  intros Ha. apply assign_nearest_spec in Ha as [_ Ha]. split.
  - symmetry. eapply Forall2_length, Ha.
  - eapply Forall2_Forall_r; [exact Ha|]. apply Forall_forall.
    intros v _ o (a & _ & Hlt & ->). apply list_elem_of_In, nth_In, Hlt.
Qed.

Lemma assign_nearest_returns (vectors centroids : list (list F)) :
  centroids <> [] ->
  exists out, msmarco_run_compression.assign_nearest vectors centroids = Ok out.
Proof.
  intros Hc. unfold msmarco_run_compression.assign_nearest, Np.np_argmin_axis1.
  destruct centroids as [|c cs] eqn:Ec; [congruence|]. rewrite <- Ec.
  replace (length centroids =? 0)%nat with false by (subst; reflexivity).
  destruct (map_result_returns Np.np_argmin (Np.cdist vectors centroids))
    as [idx ->].
  - unfold Np.cdist. apply Forall_fmap, Forall_forall. intros v _. cbn.
    apply np_argmin_returns. subst. discriminate.
  - cbn. eexists. reflexivity.
Qed.

(** [np.unique(axis=0)] returns rows of its argument, no more of them
    than it was given, and at least one when given one. *)
Lemma insert_row_perm (r : list F) (rows : list (list F)) :
  Np.insert_row r rows ≡ₚ r :: rows.
Proof.
  induction rows as [|r' rows IH]; cbn; [reflexivity|].
  destruct (Np.lex_ltb r' r); [|reflexivity].
  rewrite IH. apply Permutation_swap.
Qed.

Lemma sort_rows_perm (rows : list (list F)) : Np.sort_rows rows ≡ₚ rows.
Proof.
  induction rows as [|r rows IH]; [reflexivity|].
  cbn [Np.sort_rows fold_right]. fold (Np.sort_rows rows).
  rewrite insert_row_perm, IH. reflexivity.
Qed.

Lemma drop_repeats_sublist (previous : list F) (rows : list (list F)) :
  sublist (Np.drop_repeats previous rows) rows.
Proof.
  revert previous. induction rows as [|r rows IH]; intros previous; cbn.
  - constructor.
  - destruct (Np.row_eqb r previous).
    + apply sublist_cons, IH.
    + apply sublist_skip, IH.
Qed.

Lemma np_unique_rows_sublist (rows : list (list F)) :
  sublist (Np.np_unique_rows rows) (Np.sort_rows rows).
Proof.
  unfold Np.np_unique_rows. destruct (Np.sort_rows rows) as [|r rest].
  - constructor.
  - apply sublist_skip, drop_repeats_sublist.
Qed.

Lemma np_unique_rows_elem (rows : list (list F)) (x : list F) :
  x ∈ Np.np_unique_rows rows -> x ∈ rows.
Proof.
  intros Hx. rewrite <- sort_rows_perm.
  eapply elem_of_sublist; [exact Hx|apply np_unique_rows_sublist].
Qed.

Lemma np_unique_rows_length (rows : list (list F)) :
  (length (Np.np_unique_rows rows) <= length rows)%nat.
Proof.
  rewrite <- (Permutation_length (sort_rows_perm rows)).
  apply sublist_length, np_unique_rows_sublist.
Qed.

Lemma np_unique_rows_nonempty (rows : list (list F)) :
  rows <> [] -> Np.np_unique_rows rows <> [].
Proof.
  intros Hne. unfold Np.np_unique_rows.
  destruct (Np.sort_rows rows) as [|r rest] eqn:Es; [|discriminate].
  pose proof (Permutation_length (sort_rows_perm rows)) as Hl.
  rewrite Es in Hl. destruct rows; [congruence|discriminate].
Qed.

End NumpyShapes.

(** ** Boolean masks *)

Section Masks.
Context {A : Type}.

Lemma count_true_cons (b : bool) (mask : list bool) :
  Np.count_true (b :: mask)
  = ((if b then 1 else 0) + Np.count_true mask)%nat.
Proof.
  unfold Np.count_true. rewrite filter_cons.
  destruct b; cbn; destruct (decide _); cbn; congruence.
Qed.

Lemma count_true_negb (mask : list bool) :
  (Np.count_true mask + Np.count_true (map negb mask) = length mask)%nat.
Proof.
  induction mask as [|b mask IH]; [reflexivity|].
  cbn [map]. rewrite !count_true_cons. destruct b; cbn [negb length]; lia.
Qed.

Lemma count_true_zero (mask : list bool) :
  Np.count_true mask = 0%nat -> Forall (fun b => b = false) mask.
Proof.
  induction mask as [|b mask IH]; [constructor|].
  rewrite count_true_cons. destruct b; [discriminate|].
  intros Hc. constructor; [reflexivity|]. apply IH. exact Hc.
Qed.

Lemma select_masked_length (a : list A) (mask : list bool) :
  length a = length mask ->
  length (Np.select_masked a mask) = Np.count_true mask.
Proof.
  revert mask. induction a as [|x a IH]; intros [|b mask] Hl;
    try discriminate Hl; [reflexivity|].
  injection Hl as Hl. rewrite count_true_cons.
  destruct b; cbn [Np.select_masked length]; rewrite IH by exact Hl;
    reflexivity.
Qed.

Lemma assign_masked_length (target : list A) (mask : list bool)
    (values : list A) :
  length (Np.assign_masked target mask values) = length target.
Proof.
  revert mask values. induction target as [|t target IH];
    intros [|[] mask] values; cbn; try reflexivity.
  - destruct values; cbn; rewrite IH; reflexivity.
  - rewrite IH. reflexivity.
Qed.

Lemma assign_masked_Forall2 (P Q : A -> Prop) (target : list A)
    (mask : list bool) (values : list A) :
  (Np.count_true mask <= length values)%nat ->
  Forall P values ->
  Forall2 (fun x (b : bool) => b = false -> Q x) target mask ->
  Forall2 (fun x (b : bool) => if b then P x else Q x)
    (Np.assign_masked target mask values) mask.
Proof.
  intros Hc Hv Ht. revert values Hc Hv.
  induction Ht as [|t b target mask Hb Ht IH]; intros values Hc Hv; cbn.
  - constructor.
  - rewrite count_true_cons in Hc. destruct b.
    + destruct Hv as [|v values Hv Hvs]; [cbn in Hc; lia|].
      constructor; [exact Hv|]. apply IH; [cbn in Hc; lia|exact Hvs].
    + constructor; [auto|]. apply IH; [cbn in Hc; lia|exact Hv].
Qed.

End Masks.

(** ** What the two strategies return *)

Section CompressionOutput.
Import msmarco_run_compression.
Context {F : Type} `{Scalar F}.
Variable KMeans : list (list F) -> Z -> Z -> result (list (list F) * list nat).

Lemma ambiguity_scores_shape (vectors centroids : list (list F)) :
  length (ambiguity_scores vectors centroids) = length vectors.
Proof.
  unfold ambiguity_scores, Np.cdist. rewrite !length_map. reflexivity.
Qed.

Lemma classify_boundary_vectors_length (vectors centroids : list (list F))
    (percentile : F) (mask : list bool) :
  classify_boundary_vectors vectors centroids percentile = Ok mask ->
  length mask = length vectors.
Proof.
  unfold classify_boundary_vectors.
  destruct (length centroids <? 2)%nat.
  - intros [= <-]. apply length_map.
  - destruct (Np.np_percentile _ _) as [t|e]; cbn; [|discriminate].
    intros [= <-]. rewrite length_map. apply ambiguity_scores_shape.
Qed.

Lemma run_kmeans_identity_centroids (vectors : list (list F))
    (k random_state : Z) (assigned ideal : list (list F)) :
  run_kmeans KMeans vectors k random_state = Ok (assigned, ideal) ->
  (Z.of_nat (length vectors) <= Z.max 1 k)%Z ->
  ideal = vectors.
Proof.
  unfold run_kmeans. intros Hr Hk.
  destruct (Z.leb_spec k 0) as [Hk0|Hk0];
    match type of Hr with
    | context [(?a <=? ?b)%Z] => destruct (Z.leb_spec a b)
    end; try lia; congruence.
Qed.

(** Whenever the baseline strategy returns, it returns one compressed
    vector per input vector, each of them one of the deduplicated snapped
    centroids, and the count it reports is the number of those centroids:
    at least one, at most the number of centroids of the clustering. *)
Theorem compress_baseline_output (vectors : list (list F)) (grid : F)
    (k random_state : Z) (start_time end_time : F)
    (compressed : list (list F)) (i : info) :
  compress_baseline KMeans vectors grid k random_state start_time end_time
  = Ok (compressed, i) ->
  exists assigned ideal : list (list F),
    run_kmeans KMeans vectors k random_state = Ok (assigned, ideal) /\
    length compressed = length vectors /\
    Forall
      (fun row =>
         row ∈ extract_unique_vectors (snap_to_grid ideal grid)
                 default_tolerance)
      compressed /\
    num_unique_centroids i
    = length (extract_unique_vectors (snap_to_grid ideal grid)
                default_tolerance) /\
    (0 < num_unique_centroids i <= length ideal)%nat.
Proof.
  unfold compress_baseline.
  destruct (run_kmeans KMeans vectors k random_state) as [[assigned ideal]|e];
    cbn [bind]; [|discriminate].
  destruct (assign_nearest _ _) as [out|e] eqn:Ea; cbn [bind]; [|discriminate].
  intros [= <- <-]. exists assigned, ideal. cbn [num_unique_centroids].
  pose proof (assign_nearest_spec _ _ _ Ea) as [Hne _].
  apply assign_nearest_output in Ea as [Hlen Hin].
  repeat split; auto.
  - destruct (extract_unique_vectors _ _); [congruence|cbn; lia].
  - unfold extract_unique_vectors, snap_to_grid.
    etransitivity; [apply np_unique_rows_length|].
    rewrite !length_map. reflexivity.
Qed.

(** The baseline strategy returns as soon as the clustering gave a
    centroid. *)
Lemma compress_baseline_returns (vectors : list (list F)) (grid : F)
    (k random_state : Z) (start_time end_time : F)
    (assigned ideal : list (list F)) :
  run_kmeans KMeans vectors k random_state = Ok (assigned, ideal) ->
  ideal <> [] ->
  exists (compressed : list (list F)) (i : info),
    compress_baseline KMeans vectors grid k random_state start_time end_time
    = Ok (compressed, i).
Proof.
  intros Hr Hne. unfold compress_baseline. rewrite Hr. cbn [bind].
  destruct (assign_nearest_returns vectors
              (extract_unique_vectors (snap_to_grid ideal grid)
                 default_tolerance)) as [out ->].
  - apply np_unique_rows_nonempty. unfold snap_to_grid.
    destruct ideal; [congruence|discriminate].
  - cbn [bind]. eexists _, _. reflexivity.
Qed.

(** Whenever the boundary-aware strategy returns, it returns one
    compressed vector per input vector; the vectors the classifier marked
    are counted as boundary vectors, the others as bulk vectors; a marked
    vector is compressed to a deduplicated centroid snapped at half the
    step, an unmarked one to a deduplicated centroid snapped at the
    step. *)
Theorem compress_boundary_aware_output (vectors : list (list F)) (grid : F)
    (k random_state : Z) (start_time end_time : F)
    (compressed : list (list F)) (i : info) :
  compress_boundary_aware KMeans vectors grid k random_state
    start_time end_time = Ok (compressed, i) ->
  exists (assigned ideal : list (list F)) (boundary_mask : list bool),
    run_kmeans KMeans vectors k random_state = Ok (assigned, ideal) /\
    classify_boundary_vectors vectors ideal (sofZ 10) = Ok boundary_mask /\
    length compressed = length vectors /\
    num_boundary_vectors i = Some (Np.count_true boundary_mask) /\
    num_bulk_vectors i
    = Some (length vectors - Np.count_true boundary_mask)%nat /\
    Forall2
      (fun row (b : bool) =>
         row ∈ extract_unique_vectors
                 (snap_to_grid ideal
                    (if b then smul grid (Np.lit 1 2) else grid))
                 default_tolerance)
      compressed boundary_mask.
Proof.
  unfold compress_boundary_aware.
  destruct (run_kmeans KMeans vectors k random_state) as [[assigned ideal]|e];
    cbn [bind]; [|discriminate].
  destruct (classify_boundary_vectors vectors ideal (sofZ 10))
    as [mask|e] eqn:Ec; cbn [bind]; [|discriminate].
  pose proof (classify_boundary_vectors_length _ _ _ _ Ec) as Hm.
  pose proof (count_true_negb mask) as Hcount.
  set (zeros := map (map (fun _ => sofZ 0)) vectors).
  set (Ubulk := extract_unique_vectors (snap_to_grid ideal grid)
                  default_tolerance).
  set (Ubd := extract_unique_vectors
                (snap_to_grid ideal (smul grid (Np.lit 1 2)))
                default_tolerance).
  assert (Hz : length zeros = length vectors) by apply length_map.
  (* the bulk stage *)
  match goal with
  | |- bind ?r _ = _ -> _ => destruct r as [c1|e] eqn:E1
  end; cbn [bind]; [|discriminate].
  assert (H1 : length c1 = length vectors /\
               Forall2 (fun row (b : bool) => b = true -> row ∈ Ubulk)
                 c1 (map negb mask)).
  { destruct (0 <? Np.count_true (map negb mask))%nat eqn:En.
    - destruct (assign_nearest _ Ubulk) as [a1|e] eqn:Ea; cbn [bind] in E1;
        [|discriminate].
      injection E1 as <-. apply assign_nearest_output in Ea as [Hl Hin].
      rewrite select_masked_length in Hl by (rewrite length_map; lia).
      split; [rewrite assign_masked_length; exact Hz|].
      eapply Forall2_impl.
      + apply (assign_masked_Forall2 (fun row => row ∈ Ubulk)
                 (fun _ => True)); [lia|exact Hin|].
        apply Forall2_same_length_lookup_2.
        * rewrite length_map. lia.
        * auto.
      + cbn. intros row b Hb ->. exact Hb.
    - injection E1 as <-. split; [exact Hz|].
      apply Nat.ltb_ge in En.
      assert (Hf : Forall (fun b => b = false) (map negb mask))
        by (apply count_true_zero; lia).
      apply Forall2_same_length_lookup_2.
      + rewrite length_map. lia.
      + intros j row b _ Hb ->.
        eapply Forall_lookup_1 in Hf; [|exact Hb]. discriminate. }
  destruct H1 as [Hl1 H1].
  (* the boundary stage *)
  match goal with
  | |- bind ?r _ = _ -> _ => destruct r as [c2|e] eqn:E2
  end; cbn [bind]; [|discriminate].
  intros [= <- <-]. exists assigned, ideal, mask.
  cbn [num_boundary_vectors num_bulk_vectors].
  split; [reflexivity|]. split; [exact Ec|].
  assert (H2 : length c2 = length vectors /\
               Forall2 (fun row (b : bool) =>
                          if b then row ∈ Ubd else row ∈ Ubulk) c2 mask).
  { apply Forall2_fmap_r in H1.
    destruct (0 <? Np.count_true mask)%nat eqn:En.
    - destruct (assign_nearest _ Ubd) as [a2|e] eqn:Ea; cbn [bind] in E2;
        [|discriminate].
      injection E2 as <-. apply assign_nearest_output in Ea as [Hl Hin].
      rewrite select_masked_length in Hl by lia.
      split; [rewrite assign_masked_length; exact Hl1|].
      apply assign_masked_Forall2; [lia|exact Hin|].
      eapply Forall2_impl; [exact H1|]. cbn. intros row b Hb ->. auto.
    - injection E2 as <-. split; [exact Hl1|].
      apply Nat.ltb_ge in En.
      assert (Hf : Forall (fun b => b = false) mask)
        by (apply count_true_zero; lia).
      apply Forall2_same_length_lookup_2; [lia|].
      intros j row b Hrow Hb.
      pose proof (Forall_lookup_1 _ _ _ _ Hf Hb) as ->.
      eapply Forall2_lookup_lr in H1; [|exact Hrow|exact Hb].
      apply H1. reflexivity. }
  destruct H2 as [Hl2 H2].
  split; [exact Hl2|]. split; [reflexivity|].
  split; [f_equal; lia|].
  eapply Forall2_impl; [exact H2|]. intros row [] Hrow; exact Hrow.
Qed.

End CompressionOutput.

(** ** Parameters that are not positive *)

Section PercentileReturns.
Import msmarco_run_compression.
Context {F : Type} `{Scalar F}.

Lemma insert_sorted_length (x : F) (l : list F) :
  length (Np.insert_sorted x l) = S (length l).
Proof.
  induction l as [|y l IH]; cbn; [reflexivity|].
  destruct (Np.sort_leb x y); cbn; [reflexivity|]. rewrite IH. reflexivity.
Qed.

Lemma np_sort_length (l : list F) : length (Np.np_sort l) = length l.
Proof.
  induction l as [|x l IH]; [reflexivity|].
  cbn [Np.np_sort fold_right]. fold (Np.np_sort l).
  rewrite insert_sorted_length, IH. reflexivity.
Qed.

(** [np.percentile] returns on a non-empty array and a percentile within
    [0, 100]. *)
Lemma np_percentile_returns (a : list F) (q : F) :
  a <> [] -> sleb (sofZ 0) q && sleb q (sofZ 100) = true ->
  exists t, Np.np_percentile a q = Ok t.
Proof.
  intros Ha Hq. unfold Np.np_percentile. rewrite Hq. cbn [negb].
  assert (Hn : (0 < length a)%nat) by (destruct a; [congruence|cbn; lia]).
  pose proof (np_sort_length a) as Hl.
  repeat match goal with
         | |- context [Np.np_sort a !! ?i] =>
             let x := fresh "x" in
             destruct (lookup_lt_is_Some_2 (Np.np_sort a) i ltac:(lia))
               as [x ->]
         end.
  eexists. reflexivity.
Qed.

Lemma classify_boundary_vectors_total (vectors centroids : list (list F))
    (q : F) :
  vectors <> [] -> sleb (sofZ 0) q && sleb q (sofZ 100) = true ->
  exists mask, classify_boundary_vectors vectors centroids q = Ok mask.
Proof.
  intros Hv Hq. unfold classify_boundary_vectors.
  destruct (length centroids <? 2)%nat; [eexists; reflexivity|].
  destruct (np_percentile_returns (ambiguity_scores vectors centroids) q)
    as [t ->]; [|exact Hq|cbn [bind]; eexists; reflexivity].
  intros E. apply (f_equal length) in E.
  unfold ambiguity_scores, Np.cdist in E. rewrite !length_map in E.
  destruct vectors; [congruence|discriminate].
Qed.

End PercentileReturns.

Section DivisionByZero.
Local Open Scope float_scope.

(** On binary64 a division by zero raises nothing: the quotient is
    infinite or [nan]. *)
Lemma div_by_zero (x : float) :
  x / 0 = nan \/ x / 0 = infinity \/ x / 0 = neg_infinity.
Proof.
  rewrite <- (SF2Prim_Prim2SF (x / 0)), div_spec.
  change (Prim2SF 0) with (S754_zero false).
  destruct (Prim2SF x) as [s|s| |s m e]; cbn; try destruct s; auto.
Qed.

(** With step 0 every coordinate is snapped to [nan]. *)
Lemma round_to_zero_step (x : float) : Np.round_to 0 x = nan.
Proof.
  unfold Np.round_to. cbn [sround sdiv smul float_scalar].
  destruct (div_by_zero x) as [->|[->| ->]]; reflexivity.
Qed.

Lemma snap_to_grid_zero_step (v : list (list float)) :
  msmarco_run_compression.snap_to_grid v 0 = map (map (fun _ => nan)) v.
Proof.
  unfold msmarco_run_compression.snap_to_grid.
  apply map_ext. intros row. apply map_ext. intros x.
  apply round_to_zero_step.
Qed.

End DivisionByZero.

Section NonPositiveParameters.
Import msmarco_run_compression.
Local Open Scope float_scope.
Variable KMeans :
  list (list float) -> Z -> Z -> result (list (list float) * list nat).

(** C6, as the code has it.  No operation rejects a parameter.  With
    [k <= 0], and whatever the step (positive, zero, negative or [nan]),
    on a non-empty input whose clustering with one cluster gives a
    centroid: [run_kmeans] returns what it returns with [k = 1], and both
    strategies return a result, with the compressed vectors they return
    with [k = 1]; [info] records [k] and the step as they were given.
    And [snap_to_grid] returns an array of the input's shape for every
    step, with step 0 an array of [nan]: the division by zero raises
    nothing. *)
Theorem nonpositive_parameters_accepted (vectors : list (list float))
    (grid : float) (k random_state : Z) (start_time end_time : float)
    (assigned ideal : list (list float)) :
  (k <= 0)%Z ->
  vectors <> [] ->
  run_kmeans KMeans vectors 1 random_state = Ok (assigned, ideal) ->
  ideal <> [] ->
  run_kmeans KMeans vectors k random_state = Ok (assigned, ideal) /\
  (exists (compressed : list (list float)) (i i1 : info),
     compress_baseline KMeans vectors grid k random_state
       start_time end_time = Ok (compressed, i) /\
     compress_baseline KMeans vectors grid 1 random_state
       start_time end_time = Ok (compressed, i1) /\
     msmarco_run_compression.k i = k /\
     msmarco_run_compression.grid i = grid) /\
  (exists (compressed : list (list float)) (i i1 : info),
     compress_boundary_aware KMeans vectors grid k random_state
       start_time end_time = Ok (compressed, i) /\
     compress_boundary_aware KMeans vectors grid 1 random_state
       start_time end_time = Ok (compressed, i1) /\
     msmarco_run_compression.k i = k /\
     msmarco_run_compression.grid i = grid) /\
  (forall (v : list (list float)) (step : float),
     map length (snap_to_grid v step) = map length v) /\
  forall v : list (list float),
    snap_to_grid v 0 = map (map (fun _ => nan)) v.
Proof.
  intros Hk Hv Hr Hne.
  assert (Hu : forall step,
             extract_unique_vectors (snap_to_grid ideal step)
               default_tolerance <> []).
  { intros step. apply np_unique_rows_nonempty. unfold snap_to_grid.
    destruct ideal; [congruence|discriminate]. }
  split; [rewrite (run_kmeans_clamps KMeans _ _ _ Hk); exact Hr|].
  split; [|split; [|split; [|apply snap_to_grid_zero_step]]].
  3:{ intros v step. unfold snap_to_grid. rewrite map_map.
      apply map_ext. intros row. apply length_map. }
  - unfold compress_baseline.
    rewrite (run_kmeans_clamps KMeans _ _ _ Hk), Hr. cbn [bind].
    destruct (assign_nearest_returns vectors _ (Hu grid)) as [out ->].
    cbn [bind]. eexists _, _, _. repeat split; reflexivity.
  - unfold compress_boundary_aware.
    rewrite (run_kmeans_clamps KMeans _ _ _ Hk), Hr. cbn [bind].
    assert (Hq : sleb (sofZ 0 : float) (sofZ 10)
                 && sleb (sofZ 10 : float) (sofZ 100) = true)
      by (vm_compute; reflexivity).
    destruct (classify_boundary_vectors_total vectors ideal (sofZ 10) Hv Hq)
      as [mask ->].
    cbn [bind].
    match goal with
    | |- context [assign_nearest ?vs ?cs] =>
        destruct (assign_nearest_returns vs cs (Hu _)) as [a1 ->]
    end.
    match goal with
    | |- context [assign_nearest ?vs ?cs] =>
        destruct (assign_nearest_returns vs cs (Hu _)) as [a2 ->]
    end.
    destruct (0 <? _)%nat, (0 <? _)%nat; cbn [bind];
      eexists _, _, _; repeat split; reflexivity.
Qed.

End NonPositiveParameters.

Section NonPositiveWitness.
Import msmarco_run_compression.
Local Open Scope float_scope.

Lemma nonpositive_parameters_accepted_witness :
  (0 <= 0)%Z /\
  Samples.one_vector <> [] /\
  run_kmeans no_KMeans Samples.one_vector 1 42
  = Ok (Samples.one_vector, Samples.one_vector) /\
  run_kmeans no_KMeans Samples.one_vector 0 42
  = Ok (Samples.one_vector, Samples.one_vector) /\
  (exists (compressed : list (list float)) (i i1 : info),
     compress_baseline no_KMeans Samples.one_vector (-0.1) 0 42 0 1
     = Ok (compressed, i) /\
     compress_baseline no_KMeans Samples.one_vector (-0.1) 1 42 0 1
     = Ok (compressed, i1) /\
     msmarco_run_compression.k i = 0%Z /\
     msmarco_run_compression.grid i = -0.1) /\
  (exists (compressed : list (list float)) (i i1 : info),
     compress_boundary_aware no_KMeans Samples.one_vector (-0.1) 0 42 0 1
     = Ok (compressed, i) /\
     compress_boundary_aware no_KMeans Samples.one_vector (-0.1) 1 42 0 1
     = Ok (compressed, i1) /\
     msmarco_run_compression.k i = 0%Z /\
     msmarco_run_compression.grid i = -0.1).
Proof.
  split; [lia|]. split; [discriminate|]. split; [reflexivity|].
  destruct (nonpositive_parameters_accepted no_KMeans Samples.one_vector
              (-0.1) 0 42 0 1 Samples.one_vector Samples.one_vector
              ltac:(lia) ltac:(discriminate) eq_refl ltac:(discriminate))
    as (Hk & Hb & Ha & _).
  auto.
Defined.

End NonPositiveWitness.

(** ** Nearest centroids in exact arithmetic *)

Section MaskedAssignment.
Context {A B : Type}.

Lemma assign_masked_lookup (P : A -> B -> Prop) (mask : list bool) :
  forall (vs : list A) (target values : list B),
    length vs = length mask -> length target = length mask ->
    Forall2 P (Np.select_masked vs mask) values ->
    forall (j : nat) (v : A) (b : bool) (row : B),
      vs !! j = Some v -> mask !! j = Some b ->
      Np.assign_masked target mask values !! j = Some row ->
      if b then P v row else target !! j = Some row.
Proof.
  induction mask as [|b0 mask IH]; intros vs target values Hvs Ht Hsel j v b row.
  - intros _ Hb. discriminate Hb.
  - destruct vs as [|v0 vs]; [discriminate|].
    destruct target as [|t0 target]; [discriminate|].
    injection Hvs as Hvs. injection Ht as Ht.
    destruct b0; cbn [Np.select_masked Np.assign_masked] in *.
    + inversion Hsel as [|? o ? values' Hv0 Hsel' E1 E2]; subst.
      destruct j as [|j]; cbn.
      * intros [= <-] [= <-] [= <-]. exact Hv0.
      * intros Hv Hb Hrow. eapply (IH vs target values'); eauto.
    + destruct j as [|j]; cbn.
      * intros [= <-] [= <-] [= <-]. reflexivity.
      * intros Hv Hb Hrow. eapply (IH vs target values); eauto.
Qed.

End MaskedAssignment.

Section ExactNearest.
Import msmarco_run_compression Nearest.
Local Open Scope R_scope.

Lemma exact_ltb_lt (x y : R) : Exact.ltb x y = true <-> x < y.
Proof. unfold Exact.ltb. destruct (Rlt_dec x y); intuition congruence. Qed.

Lemma argmin_from_least (l : list R) (best_i : nat) (best : R) (i : nat) :
  let r := Np.argmin_from best_i best i l in
  (r = best_i /\ forall x, x ∈ l -> best <= x) \/
  ((i <= r)%nat /\ nth (r - i) l 0 < best /\
   forall x, x ∈ l -> nth (r - i) l 0 <= x).
Proof.
  revert best_i best i. induction l as [|x l IH]; intros best_i best i; cbn.
  - left. split; [reflexivity|]. intros x Hx. inversion Hx.
  - destruct (Exact.ltb x best) eqn:Elt.
    + apply exact_ltb_lt in Elt. right.
      destruct (IH i x (S i)) as [[-> Hl]|(Hi & Hlt & Hl)].
      * rewrite Nat.sub_diag. cbn. split; [lia|]. split; [exact Elt|].
        intros y Hy. apply elem_of_cons in Hy as [->|Hy]; [lra|auto].
      * set (r := Np.argmin_from i x (S i) l) in *.
        replace (r - i)%nat with (S (r - S i)) by lia. cbn.
        split; [lia|]. split; [lra|].
        intros y Hy. apply elem_of_cons in Hy as [->|Hy]; [lra|auto].
    + assert (Hge : best <= x).
      { destruct (Rle_or_lt best x) as [Hle|Hlt]; [exact Hle|].
        apply exact_ltb_lt in Hlt. congruence. }
      destruct (IH best_i best (S i)) as [[-> Hl]|(Hi & Hlt & Hl)].
      * left. split; [reflexivity|].
        intros y Hy. apply elem_of_cons in Hy as [->|Hy]; [lra|auto].
      * right. set (r := Np.argmin_from best_i best (S i) l) in *.
        replace (r - i)%nat with (S (r - S i)) by lia. cbn.
        split; [lia|]. split; [lra|].
        intros y Hy. apply elem_of_cons in Hy as [->|Hy]; [lra|auto].
Qed.

Lemma np_argmin_least (l : list R) (a : nat) :
  Np.np_argmin l = Ok a -> forall x, x ∈ l -> nth a l 0 <= x.
Proof.
  destruct l as [|x0 l]; cbn [Np.np_argmin]; [discriminate|].
  intros [= <-] x Hx.
  destruct (argmin_from_least l 0 x0 1) as [[-> Hl]|(Hi & Hlt & Hl)].
  - cbn. apply elem_of_cons in Hx as [->|Hx]; [lra|auto].
  - set (r := Np.argmin_from 0 x0 1 l) in *.
    replace r with (S (r - 1)) by lia. cbn [nth].
    apply elem_of_cons in Hx as [->|Hx]; [lra|auto].
Qed.

Lemma assign_nearest_nearest (vectors centroids out : list (list R)) :
  assign_nearest vectors centroids = Ok out ->
  Forall2 (nearest_in centroids) vectors out.
Proof.
  intros Ha. apply assign_nearest_spec in Ha as [_ Ha].
  eapply Forall2_impl; [exact Ha|]. cbn.
  intros v o (a & Harg & Hlt & ->). split.
  - apply list_elem_of_In, nth_In, Hlt.
  - intros c Hc. pose proof (np_argmin_least _ _ Harg (Np.dist v c)) as Hle.
    rewrite (nth_indep _ 0 (Np.dist v [])) in Hle by (rewrite length_map; lia).
    rewrite (map_nth (Np.dist v)) in Hle. apply Hle.
    apply list_elem_of_fmap. exists c. auto.
Qed.

End ExactNearest.

(** ** The inline k-means of run_real_world_evaluation.py *)

Section LloydShapes.
Import run_real_world_evaluation.
Context {F : Type} `{Scalar F}.

Lemma update_centroids_length (embeddings : list (list F))
    (assignments : list nat) (k : Z) (centroids : list (list F)) :
  length (update_centroids embeddings assignments k centroids)
  = length centroids.
Proof.
  unfold update_centroids. generalize (seq 0 (Z.to_nat k)). intros range.
  revert centroids. induction range as [|i range IH]; intros centroids; cbn;
    [reflexivity|].
  rewrite IH.
  match goal with
  | |- context [if ?c then _ else _] => destruct c
  end; [apply length_insert|reflexivity].
Qed.

Lemma argmin_axis1_cdist_returns (a b : list (list F)) :
  b <> [] ->
  exists idx, Np.np_argmin_axis1 (length b) (Np.cdist a b) = Ok idx /\
              length idx = length a /\
              Forall (fun j => (j < length b)%nat) idx.
Proof.
  intros Hb. unfold Np.np_argmin_axis1.
  destruct b as [|c cs] eqn:Eb; [congruence|]. rewrite <- Eb.
  replace (length b =? 0)%nat with false by (subst; reflexivity).
  destruct (map_result_returns Np.np_argmin (Np.cdist a b)) as [idx Hidx].
  - unfold Np.cdist. apply Forall_fmap, Forall_forall. intros v _. cbn.
    apply np_argmin_returns. subst. discriminate.
  - exists idx. split; [exact Hidx|].
    apply map_result_Forall2 in Hidx. unfold Np.cdist in Hidx.
    apply Forall2_fmap_l in Hidx. split.
    + symmetry. eapply Forall2_length, Hidx.
    + eapply Forall2_Forall_r; [exact Hidx|]. apply Forall_forall.
      intros v _ j Hj. apply np_argmin_bound in Hj.
      rewrite length_map in Hj. exact Hj.
Qed.

Lemma lloyd_returns (iterations : nat) (embeddings : list (list F)) (k : Z)
    (centroids : list (list F)) :
  centroids <> [] ->
  exists centroids',
    lloyd iterations embeddings k centroids = Ok centroids' /\
    length centroids' = length centroids.
Proof.
  revert centroids. induction iterations as [|n IH]; intros centroids Hc; cbn.
  - eexists. split; reflexivity.
  - destruct (argmin_axis1_cdist_returns embeddings centroids Hc)
      as (idx & -> & _). cbn [bind].
    destruct (IH (update_centroids embeddings idx k centroids))
      as (cs & Hcs & Hl).
    + intros E. apply (f_equal length) in E.
      rewrite update_centroids_length in E. destruct centroids; [congruence|].
      discriminate.
    + exists cs. split; [exact Hcs|].
      rewrite Hl. apply update_centroids_length.
Qed.

Lemma lloyd_no_centroids (iterations : nat) (embeddings : list (list F))
    (k : Z) :
  lloyd (S iterations) embeddings k [] = Raise ValueError.
Proof. reflexivity. Qed.

(** With [0 < k < n] the inline k-means without boundary treatment always
    returns: exactly [k] centroids, one compressed vector per embedding,
    and every compressed vector is one of the returned centroids. *)
Theorem simple_kmeans_compression_output (embeddings : list (list F))
    (k : Z) (grid_step : F) :
  (0 < k < Z.of_nat (length embeddings))%Z ->
  exists compressed centroids : list (list F),
    simple_kmeans_compression embeddings k grid_step false
    = Ok (compressed, centroids) /\
    length centroids = Z.to_nat k /\
    length compressed = length embeddings /\
    Forall (fun row => row ∈ centroids) compressed.
Proof.
  intros Hk. unfold simple_kmeans_compression.
  destruct (Z.leb_spec (Z.of_nat (length embeddings)) k); [lia|].
  assert (Ht : length (Np.py_take k embeddings) = Z.to_nat k).
  { unfold Np.py_take. destruct (Z.leb_spec 0 k); [|lia].
    rewrite length_take. lia. }
  destruct (lloyd_returns 10 embeddings k (Np.py_take k embeddings))
    as (cs & -> & Hl).
  { intros E. rewrite E in Ht. cbn in Ht. lia. }
  cbn [bind].
  set (snapped := map (map (Np.round_to grid_step)) cs).
  destruct (argmin_axis1_cdist_returns embeddings snapped)
    as (idx & -> & Hlen & Hidx).
  { subst snapped. destruct cs; [cbn in Hl; lia|discriminate]. }
  cbn [bind]. eexists _, _. split; [reflexivity|].
  split; [subst snapped; rewrite length_map; lia|].
  split; [rewrite length_map; exact Hlen|].
  apply Forall_fmap. eapply Forall_impl; [exact Hidx|].
  intros j Hj. cbn. apply list_elem_of_In, nth_In, Hj.
Qed.

(** With [k = 0] and at least one embedding there is no centroid to
    assign to: [np.argmin] raises [ValueError] in the first iteration, in
    either mode. *)
Theorem simple_kmeans_compression_no_clusters (embeddings : list (list F))
    (grid_step : F) (boundary_aware : bool) :
  embeddings <> [] ->
  simple_kmeans_compression embeddings 0 grid_step boundary_aware
  = Raise ValueError.
Proof.
  intros Hne. unfold simple_kmeans_compression.
  destruct (Z.leb_spec (Z.of_nat (length embeddings)) 0) as [Hl|Hl].
  - destruct embeddings; [congruence|cbn in Hl; lia].
  - reflexivity.
Qed.

End LloydShapes.

Section ExactStrategies.
Import msmarco_run_compression Nearest.
Local Open Scope R_scope.
Variable KMeans : list (list R) -> Z -> Z -> result (list (list R) * list nat).

(** In exact arithmetic the baseline strategy compresses every vector to
    a nearest deduplicated snapped centroid: the compressed vector is one
    of those centroids, and no other of them is closer. *)
Theorem compress_baseline_nearest (vectors : list (list R)) (grid : R)
    (k random_state : Z) (start_time end_time : R)
    (compressed : list (list R)) (i : info) :
  compress_baseline KMeans vectors grid k random_state start_time end_time
  = Ok (compressed, i) ->
  exists assigned ideal : list (list R),
    run_kmeans KMeans vectors k random_state = Ok (assigned, ideal) /\
    Forall2
      (nearest_in
         (extract_unique_vectors (snap_to_grid ideal grid)
            default_tolerance))
      vectors compressed.
Proof.
  unfold compress_baseline.
  destruct (run_kmeans KMeans vectors k random_state) as [[assigned ideal]|e];
    cbn [bind]; [|discriminate].
  destruct (assign_nearest _ _) as [out|e] eqn:Ea; cbn [bind]; [|discriminate].
  intros [= <- <-]. exists assigned, ideal. split; [reflexivity|].
  apply assign_nearest_nearest, Ea.
Qed.

(** In exact arithmetic the boundary-aware strategy compresses every
    vector to a nearest centroid of its own class: the compressed vector
    is one of the deduplicated centroids snapped at half the step for a
    boundary vector, at the step for a bulk vector, and no other centroid
    of that class is closer. *)
Theorem compress_boundary_aware_nearest (vectors : list (list R)) (grid : R)
    (k random_state : Z) (start_time end_time : R)
    (compressed : list (list R)) (i : info) :
  compress_boundary_aware KMeans vectors grid k random_state
    start_time end_time = Ok (compressed, i) ->
  exists (assigned ideal : list (list R)) (boundary_mask : list bool),
    run_kmeans KMeans vectors k random_state = Ok (assigned, ideal) /\
    classify_boundary_vectors vectors ideal 10 = Ok boundary_mask /\
    length compressed = length vectors /\
    forall (j : nat) (v row : list R) (b : bool),
      vectors !! j = Some v -> boundary_mask !! j = Some b ->
      compressed !! j = Some row ->
      nearest_in
        (extract_unique_vectors
           (snap_to_grid ideal (if b then grid * (1 / 2) else grid))
           default_tolerance)
        v row.
Proof.
  unfold compress_boundary_aware.
  destruct (run_kmeans KMeans vectors k random_state) as [[assigned ideal]|e];
    cbn [bind]; [|discriminate].
  change (@sofZ R real_scalar 10) with 10.
  destruct (classify_boundary_vectors vectors ideal 10)
    as [mask|e] eqn:Ec; cbn [bind]; [|discriminate].
  pose proof (classify_boundary_vectors_length _ _ _ _ Ec) as Hm.
  pose proof (count_true_negb mask) as Hcount.
  change (smul grid (Np.lit 1 2)) with (grid * (1 / 2)).
  set (zeros := map (map (fun _ => sofZ 0)) vectors).
  set (Ubulk := extract_unique_vectors (snap_to_grid ideal grid)
                  default_tolerance).
  set (Ubd := extract_unique_vectors (snap_to_grid ideal (grid * (1 / 2)))
                default_tolerance).
  assert (Hz : length zeros = length vectors) by apply length_map.
  match goal with
  | |- bind ?r _ = _ -> _ => destruct r as [c1|e] eqn:E1
  end; cbn [bind]; [|discriminate].
  assert (H1 : length c1 = length vectors /\
               forall j v row, vectors !! j = Some v ->
                 mask !! j = Some false -> c1 !! j = Some row ->
                 nearest_in Ubulk v row).
  { destruct (0 <? Np.count_true (map negb mask))%nat eqn:En.
    - destruct (assign_nearest _ Ubulk) as [a1|e] eqn:Ea; cbn [bind] in E1;
        [|discriminate].
      injection E1 as <-. apply assign_nearest_nearest in Ea.
      split; [rewrite assign_masked_length; exact Hz|].
      intros j v row Hv Hb Hrow.
      apply (assign_masked_lookup (nearest_in Ubulk) (map negb mask)
               vectors zeros a1 ltac:(rewrite length_map; lia)
               ltac:(rewrite length_map; lia) Ea j v true row Hv);
        [|exact Hrow].
      rewrite list_lookup_fmap, Hb. reflexivity.
    - injection E1 as <-. split; [exact Hz|].
      apply Nat.ltb_ge in En.
      assert (Hf : Forall (fun b => b = false) (map negb mask))
        by (apply count_true_zero; lia).
      intros j v row _ Hb _.
      assert (Hn : map negb mask !! j = Some true)
        by (rewrite list_lookup_fmap, Hb; reflexivity).
      eapply Forall_lookup_1 in Hf; [|exact Hn]. discriminate. }
  destruct H1 as [Hl1 H1].
  match goal with
  | |- bind ?r _ = _ -> _ => destruct r as [c2|e] eqn:E2
  end; cbn [bind]; [|discriminate].
  intros [= <- <-]. exists assigned, ideal, mask.
  split; [reflexivity|]. split; [exact Ec|].
  assert (Hl2 : length c2 = length vectors).
  { destruct (0 <? Np.count_true mask)%nat.
    - destruct (assign_nearest _ Ubd) as [a2|e]; cbn [bind] in E2;
        [|discriminate].
      injection E2 as <-. rewrite assign_masked_length. exact Hl1.
    - injection E2 as <-. exact Hl1. }
  split; [exact Hl2|].
  assert (H2 : forall j v row (b : bool), vectors !! j = Some v ->
                 mask !! j = Some b -> c2 !! j = Some row ->
                 nearest_in (if b then Ubd else Ubulk) v row).
  { destruct (0 <? Np.count_true mask)%nat eqn:En.
    - destruct (assign_nearest _ Ubd) as [a2|e] eqn:Ea; cbn [bind] in E2;
        [|discriminate].
      injection E2 as <-. apply assign_nearest_nearest in Ea.
      intros j v row b Hv Hb Hrow.
      pose proof (assign_masked_lookup (nearest_in Ubd) mask
                    vectors c1 a2 ltac:(lia) ltac:(lia) Ea j v b row
                    Hv Hb Hrow) as Hres.
      destruct b; [exact Hres|]. eapply H1; eauto.
    - injection E2 as <-. apply Nat.ltb_ge in En.
      assert (Hf : Forall (fun b => b = false) mask)
        by (apply count_true_zero; lia).
      intros j v row b Hv Hb Hrow.
      pose proof (Forall_lookup_1 _ _ _ _ Hf Hb) as ->. eapply H1; eauto. }
  intros j v row b Hv Hb Hrow.
  pose proof (H2 j v row b Hv Hb Hrow) as Hn. destruct b; exact Hn.
Qed.

End ExactStrategies.

(** ** The quantization error *)

Section QuantizationError.
Import msmarco_run_compression.
Local Open Scope R_scope.

Lemma round_error (x : R) : Rabs (Exact.round x - x) <= 1 / 2.
Proof.
  pose proof (Int_part_bounds x) as Hb.
  unfold Exact.round. rewrite plus_IZR.
  destruct (Rlt_dec _ _); [apply Rabs_le; lra|].
  destruct (Rlt_dec _ _); [apply Rabs_le; lra|].
  destruct (Z.even _); apply Rabs_le; lra.
Qed.

Lemma round_to_error (s x : R) :
  s <> 0 -> Rabs (Np.round_to s x - x) <= Rabs s / 2.
Proof.
  intros Hs. unfold Np.round_to. cbn [sround sdiv smul real_scalar].
  replace (Exact.round (x / s) * s - x)
    with ((Exact.round (x / s) - x / s) * s) by (field; exact Hs).
  rewrite Rabs_mult. pose proof (round_error (x / s)).
  pose proof (Rabs_pos s). nra.
Qed.

(** In exact arithmetic, snapping at a step other than zero moves no
    coordinate by more than half the step, and every snapped coordinate
    is an integer multiple of the step. *)
Theorem snap_to_grid_error (vectors : list (list R)) (step : R) :
  step <> 0 ->
  Forall2
    (Forall2
       (fun x y =>
          Rabs (y - x) <= Rabs step / 2 /\ exists n : Z, y = IZR n * step))
    vectors (snap_to_grid vectors step).
Proof.
  intros Hs. unfold snap_to_grid.
  apply Forall2_fmap_r, Forall_Forall2_diag, Forall_forall. intros v _.
  apply Forall2_fmap_r, Forall_Forall2_diag, Forall_forall. intros x _.
  split; [apply round_to_error, Hs|].
  unfold Np.round_to. cbn [sround sdiv smul real_scalar].
  destruct (round_integral (x / step)) as [n ->]. exists n. reflexivity.
Qed.

Lemma snap_to_grid_error_witness :
  1 / 10 <> 0 /\
  Forall2
    (Forall2
       (fun x y =>
          Rabs (y - x) <= Rabs (1 / 10) / 2 /\
          exists n : Z, y = IZR n * (1 / 10)))
    Samples.exact_vectors (snap_to_grid Samples.exact_vectors (1 / 10)).
Proof.
  split; [lra|].
  apply (snap_to_grid_error Samples.exact_vectors (1 / 10)). lra.
Defined.

End QuantizationError.

Section ExactReturns.
Import msmarco_run_compression.
Local Open Scope R_scope.
Variable KMeans : list (list R) -> Z -> Z -> result (list (list R) * list nat).

Lemma classify_boundary_vectors_returns (vectors centroids : list (list R))
    (q : R) :
  vectors <> [] -> 0 <= q <= 100 ->
  exists mask, classify_boundary_vectors vectors centroids q = Ok mask.
Proof.
  intros Hv Hq. unfold classify_boundary_vectors.
  destruct (length centroids <? 2)%nat; [eexists; reflexivity|].
  rewrite np_percentile_real; [cbn; eexists; reflexivity| |exact Hq].
  intros E. apply (f_equal length) in E.
  rewrite ambiguity_scores_length in E. destruct vectors; [congruence|].
  discriminate.
Qed.

Lemma compress_boundary_aware_returns (vectors : list (list R)) (grid : R)
    (k random_state : Z) (start_time end_time : R)
    (assigned ideal : list (list R)) :
  vectors <> [] ->
  run_kmeans KMeans vectors k random_state = Ok (assigned, ideal) ->
  ideal <> [] ->
  exists (compressed : list (list R)) (i : info),
    compress_boundary_aware KMeans vectors grid k random_state
      start_time end_time = Ok (compressed, i).
Proof.
  intros Hv Hr Hne.
  assert (Hu : forall step,
             extract_unique_vectors (snap_to_grid ideal step)
               default_tolerance <> []).
  { intros step. apply np_unique_rows_nonempty. unfold snap_to_grid.
    destruct ideal; [congruence|discriminate]. }
  unfold compress_boundary_aware. rewrite Hr. cbn [bind].
  destruct (classify_boundary_vectors_returns vectors ideal 10 Hv
              ltac:(lra)) as [mask Hmask].
  change (@sofZ R real_scalar 10) with 10. rewrite Hmask. cbn [bind].
  match goal with
  | |- context [assign_nearest ?vs ?cs] =>
      destruct (assign_nearest_returns vs cs (Hu _)) as [a1 ->]
  end.
  match goal with
  | |- context [assign_nearest ?vs ?cs] =>
      destruct (assign_nearest_returns vs cs (Hu _)) as [a2 ->]
  end.
  destruct (0 <? _)%nat, (0 <? _)%nat; cbn [bind]; eexists _, _; reflexivity.
Qed.

(** In exact arithmetic both strategies return on every non-empty input
    whose clustering gave a centroid: the [ValueError] of the baseline
    strategy is left to the empty input. *)
Theorem strategies_return (vectors : list (list R)) (grid : R)
    (k random_state : Z) (start_time end_time : R)
    (assigned ideal : list (list R)) :
  vectors <> [] ->
  run_kmeans KMeans vectors k random_state = Ok (assigned, ideal) ->
  ideal <> [] ->
  (exists (compressed : list (list R)) (i : info),
     compress_baseline KMeans vectors grid k random_state
       start_time end_time = Ok (compressed, i)) /\
  (exists (compressed : list (list R)) (i : info),
     compress_boundary_aware KMeans vectors grid k random_state
       start_time end_time = Ok (compressed, i)).
Proof.
  intros Hv Hr Hne. split.
  - eapply compress_baseline_returns; eassumption.
  - eapply compress_boundary_aware_returns; eassumption.
Qed.

End ExactReturns.

(** ** Ranges of the ranking metrics *)

Section RankingBounds.
Import msmarco_eval_retrieval Ranking.
Local Open Scope R_scope.

Lemma IZR_of_nat_pos (n : nat) : (0 < n)%nat -> 0 < IZR (Z.of_nat n).
Proof. intros Hn. apply IZR_lt. lia. Qed.

Lemma py_take_prefix {A : Type} (k k' : Z) (l : list A) :
  (0 <= k <= k')%Z -> exists rest, Np.py_take k' l = Np.py_take k l ++ rest.
Proof.
  intros Hk. unfold Np.py_take.
  destruct (Z.leb_spec 0 k); [|lia]. destruct (Z.leb_spec 0 k'); [|lia].
  exists (drop (Z.to_nat k) (take (Z.to_nat k') l)).
  rewrite <- (take_drop (Z.to_nat k) (take (Z.to_nat k') l)) at 1.
  rewrite take_take. f_equal. f_equal. lia.
Qed.

Lemma recall_denominator (relevant : gset string) :
  relevant <> ∅ -> 0 < IZR (Z.of_nat (size relevant)).
Proof.
  intros Hrel. apply IZR_of_nat_pos.
  destruct (size relevant) eqn:Es; [|lia].
  apply size_empty_iff in Es. exfalso. apply Hrel.
  apply leibniz_equiv. exact Es.
Qed.

Lemma recall_bounds (retrieved : list string) (relevant : gset string)
    (k : Z) :
  0 <= compute_recall_at_k (F:=R) retrieved relevant k <= 1.
Proof.
  unfold compute_recall_at_k. case_bool_decide as Hrel; [cbn; lra|].
  unfold Np.of_nat. cbn [sofZ sdiv real_scalar].
  pose proof (recall_denominator relevant Hrel) as Hden.
  assert (Hsub : (size (list_to_set (Np.py_take k retrieved) ∩ relevant)
                  <= size relevant)%nat)
    by (apply subseteq_size; set_solver).
  split.
  - apply Rmult_le_pos; [apply IZR_le; lia|].
    apply Rlt_le, Rinv_0_lt_compat, Hden.
  - apply Rmult_le_reg_r with (IZR (Z.of_nat (size relevant)));
      [exact Hden|].
    unfold Rdiv. rewrite Rmult_assoc, Rinv_l, Rmult_1_r, Rmult_1_l by lra.
    apply IZR_le. lia.
Qed.

Lemma recall_mono (retrieved : list string) (relevant : gset string)
    (k k' : Z) :
  (0 <= k <= k')%Z ->
  compute_recall_at_k (F:=R) retrieved relevant k
  <= compute_recall_at_k (F:=R) retrieved relevant k'.
Proof.
  intros Hk. unfold compute_recall_at_k.
  case_bool_decide as Hrel; [cbn; lra|].
  unfold Np.of_nat. cbn [sofZ sdiv real_scalar].
  pose proof (recall_denominator relevant Hrel) as Hden.
  destruct (py_take_prefix k k' retrieved Hk) as [rest ->].
  apply Rmult_le_compat_r; [apply Rlt_le, Rinv_0_lt_compat, Hden|].
  apply IZR_le, inj_le, subseteq_size.
  rewrite list_to_set_app. set_solver.
Qed.

(** In exact arithmetic Recall@k lies between 0 and 1; with some
    relevant passage it is 1 exactly when every relevant passage is among
    the first [k] retrieved; and it does not decrease when the cutoff
    grows. *)
Theorem compute_recall_at_k_range (retrieved : list string)
    (relevant : gset string) (k : Z) :
  0 <= compute_recall_at_k (F:=R) retrieved relevant k <= 1 /\
  (relevant <> ∅ ->
   (compute_recall_at_k (F:=R) retrieved relevant k = 1 <->
    relevant ⊆ list_to_set (Np.py_take k retrieved))) /\
  forall k' : Z,
    (0 <= k <= k')%Z ->
    compute_recall_at_k (F:=R) retrieved relevant k
    <= compute_recall_at_k (F:=R) retrieved relevant k'.
Proof.
  split; [apply recall_bounds|]. split; [|apply recall_mono].
  intros Hrel. unfold compute_recall_at_k.
  rewrite bool_decide_false by exact Hrel.
  unfold Np.of_nat. cbn [sofZ sdiv real_scalar].
  pose proof (recall_denominator relevant Hrel) as Hden.
  set (top := list_to_set (Np.py_take k retrieved) : gset string).
  split.
  - intros E.
    assert (Es : size (top ∩ relevant) = size relevant).
    { apply Nat2Z.inj, eq_IZR.
      apply Rmult_eq_reg_r with (/ IZR (Z.of_nat (size relevant)));
        [|apply Rinv_neq_0_compat; lra].
      unfold Rdiv in E. rewrite E. field. lra. }
    assert (Heq : top ∩ relevant ≡ relevant).
    { apply set_subseteq_size_equiv; [set_solver|lia]. }
    set_solver.
  - intros Hs.
    replace (top ∩ relevant) with relevant
      by (apply leibniz_equiv; set_solver).
    field. lra.
Qed.

Lemma first_relevant_spec (retrieved : list string) (relevant : gset string)
    (i : nat) :
  match first_relevant i retrieved relevant with
  | Some j => (i <= j)%nat /\
              (exists x, retrieved !! (j - i)%nat = Some x /\ x ∈ relevant) /\
              forall m x, (m < j - i)%nat -> retrieved !! m = Some x ->
                          x ∉ relevant
  | None => forall x, x ∈ retrieved -> x ∉ relevant
  end.
Proof.
  revert i. induction retrieved as [|p retrieved IH]; intros i; cbn.
  - intros x Hx. inversion Hx.
  - case_bool_decide as Hp.
    + split; [lia|]. rewrite Nat.sub_diag. split; [eauto|]. intros; lia.
    + specialize (IH (S i)).
      destruct (first_relevant (S i) retrieved relevant) as [j|].
      * destruct IH as (Hj & (x & Hx & Hxr) & Hbefore).
        split; [lia|]. replace (j - i)%nat with (S (j - S i)) by lia.
        split; [eauto|]. intros [|m] y Hm; cbn.
        -- intros [= <-]. exact Hp.
        -- apply Hbefore. lia.
      * intros x Hx. apply elem_of_cons in Hx as [->|Hx]; auto.
Qed.

Lemma mrr_bounds (retrieved : list string) (relevant : gset string) :
  0 <= compute_mrr (F:=R) retrieved relevant <= 1.
Proof.
  unfold compute_mrr.
  destruct (first_relevant 0 retrieved relevant) as [j|];
    [|cbn [sofZ real_scalar]; lra].
  unfold Np.of_nat. cbn [sofZ sdiv real_scalar].
  assert (Hj : 1 <= IZR (Z.of_nat (j + 1))) by (apply IZR_le; lia).
  assert (Hinv : 0 < / IZR (Z.of_nat (j + 1)) <= 1).
  { split; [apply Rinv_0_lt_compat; lra|].
    rewrite <- Rinv_1. apply Rinv_le_contravar; lra. }
  unfold Rdiv. rewrite Rmult_1_l. lra.
Qed.

(** In exact arithmetic the reciprocal rank lies between 0 and 1; it is 0
    exactly when no retrieved passage is relevant, and 1 exactly when the
    first one is. *)
Theorem compute_mrr_range (retrieved : list string) (relevant : gset string) :
  0 <= compute_mrr (F:=R) retrieved relevant <= 1 /\
  (compute_mrr (F:=R) retrieved relevant = 0 <->
   forall x, x ∈ retrieved -> x ∉ relevant) /\
  (compute_mrr (F:=R) retrieved relevant = 1 <->
   exists x, head retrieved = Some x /\ x ∈ relevant).
Proof.
  unfold compute_mrr.
  pose proof (first_relevant_spec retrieved relevant 0) as Hspec.
  destruct (first_relevant 0 retrieved relevant) as [j|].
  - destruct Hspec as (_ & (x & Hx & Hxr) & Hbefore).
    rewrite Nat.sub_0_r in Hx, Hbefore.
    unfold Np.of_nat. cbn [sofZ sdiv real_scalar].
    assert (Hj : 1 <= IZR (Z.of_nat (j + 1))) by (apply IZR_le; lia).
    assert (Hinv : 0 < / IZR (Z.of_nat (j + 1)) <= 1).
    { split; [apply Rinv_0_lt_compat; lra|].
      rewrite <- Rinv_1. apply Rinv_le_contravar; lra. }
    unfold Rdiv. rewrite Rmult_1_l.
    split; [lra|]. split.
    + split; [lra|]. intros Hnone. exfalso.
      apply (Hnone x); [|exact Hxr]. eapply list_elem_of_lookup_2, Hx.
    + split.
      * intros E. assert (j = 0%nat).
        { destruct j; [reflexivity|]. exfalso.
          assert (2 <= IZR (Z.of_nat (S j + 1))) by (apply IZR_le; lia).
          assert (/ IZR (Z.of_nat (S j + 1)) <= / 2)
            by (apply Rinv_le_contravar; lra).
          lra. }
        subst j. exists x. split; [|exact Hxr].
        destruct retrieved; [discriminate|]. cbn in *. congruence.
      * intros (y & Hy & Hyr). assert (j = 0%nat).
        { destruct j; [reflexivity|]. exfalso.
          apply (Hbefore 0%nat y); [lia| |exact Hyr].
          destruct retrieved; [discriminate|]. cbn in *. congruence. }
        subst j. change (Z.of_nat (0 + 1)) with 1%Z. apply Rinv_1.
  - cbn [sofZ real_scalar]. split; [lra|]. split.
    + split; [intros _; exact Hspec|reflexivity].
    + split; [lra|]. intros (y & Hy & Hyr). exfalso.
      apply (Hspec y); [|exact Hyr].
      destruct retrieved; [discriminate|]. injection Hy as ->. left.
Qed.

End RankingBounds.

Section DiscountedGain.
Import msmarco_eval_retrieval Ranking.
Local Open Scope R_scope.

Lemma log2_ge_1 (n : nat) : 1 <= Exact.log2 (IZR (Z.of_nat (n + 2))).
Proof.
  unfold Exact.log2. pose proof ln_2_pos as H2.
  assert (Hn : 2 <= IZR (Z.of_nat (n + 2))) by (apply IZR_le; lia).
  assert (Hln : ln 2 <= ln (IZR (Z.of_nat (n + 2)))).
  { destruct Hn as [Hn|<-]; [|lra]. left. apply ln_increasing; lra. }
  apply Rmult_le_reg_r with (ln 2); [exact H2|].
  unfold Rdiv. rewrite Rmult_assoc, Rinv_l by lra. lra.
Qed.

Lemma discount_pos (i : nat) : 0 < discount i.
Proof.
  unfold discount. pose proof (log2_ge_1 i).
  apply Rdiv_lt_0_compat; lra.
Qed.

Lemma discount_antitone (c i : nat) : (c <= i)%nat -> discount i <= discount c.
Proof.
  intros Hci. unfold discount. pose proof (log2_ge_1 c) as Hc.
  unfold Rdiv. rewrite !Rmult_1_l. apply Rinv_le_contravar; [lra|].
  unfold Exact.log2. pose proof ln_2_pos as H2.
  apply Rmult_le_compat_r; [left; apply Rinv_0_lt_compat; exact H2|].
  assert (Hle : IZR (Z.of_nat (c + 2)) <= IZR (Z.of_nat (i + 2)))
    by (apply IZR_le; lia).
  assert (Hpos : 0 < IZR (Z.of_nat (c + 2))) by (apply IZR_lt; lia).
  destruct Hle as [Hlt|<-]; [|lra]. left. apply ln_increasing; lra.
Qed.

Lemma dcg_fold (relevant : gset string) (l : list string) (i : nat)
    (acc : R) :
  fold_left
    (fun dcg '(j, passage_id) =>
       if bool_decide (passage_id ∈ relevant)
       then sadd dcg (sdiv (sofZ 1) (slog2 (Np.of_nat (j + 2))))
       else dcg)
    (imap (fun j => pair (i + j)%nat) l) acc
  = acc + dcg_from relevant i l.
Proof.
  revert i acc. induction l as [|x l IH]; intros i acc; cbn [imap fold_left].
  - cbn. lra.
  - rewrite (imap_ext _ (fun j => pair (S i + j)%nat))
      by (intros; cbn; f_equal; lia).
    rewrite IH. cbn [dcg_from]. rewrite Nat.add_0_r.
    case_bool_decide; [|lra].
    unfold discount, Np.of_nat. cbn [sadd sdiv sofZ real_scalar].
    change (@slog2 R real_log2) with Exact.log2. lra.
Qed.

Lemma compute_dcg_at_k_exact (retrieved : list string)
    (relevant : gset string) (k : Z) :
  compute_dcg_at_k (F:=R) retrieved relevant k
  = dcg_from relevant 0 (Np.py_take k retrieved).
Proof.
  unfold compute_dcg_at_k.
  rewrite (imap_ext pair (fun j => pair (0 + j)%nat)) by reflexivity.
  rewrite dcg_fold. cbn [sofZ real_scalar]. lra.
Qed.

Lemma sum_discount_nonneg (c h : nat) : 0 <= sum_discount c h.
Proof.
  revert c. induction h as [|h IH]; intros c; cbn; [lra|].
  pose proof (discount_pos c). specialize (IH (S c)). lra.
Qed.

Lemma sum_discount_pos (c h : nat) : (0 < h)%nat -> 0 < sum_discount c h.
Proof.
  destruct h as [|h]; [lia|]. intros _. cbn.
  pose proof (discount_pos c). pose proof (sum_discount_nonneg (S c) h). lra.
Qed.

Lemma sum_discount_shift (c h : nat) :
  sum_discount (S c) h <= sum_discount c h.
Proof.
  revert c. induction h as [|h IH]; intros c; cbn; [lra|].
  pose proof (discount_antitone c (S c) ltac:(lia)). specialize (IH (S c)). lra.
Qed.

Lemma sum_discount_mono (c h h' : nat) :
  (h <= h')%nat -> sum_discount c h <= sum_discount c h'.
Proof.
  revert c h'. induction h as [|h IH]; intros c h' Hh; cbn.
  - apply sum_discount_nonneg.
  - destruct h' as [|h']; [lia|]. cbn.
    specialize (IH (S c) h' ltac:(lia)). lra.
Qed.

Lemma dcg_from_nonneg (relevant : gset string) (i : nat) (l : list string) :
  0 <= dcg_from relevant i l.
Proof.
  revert i. induction l as [|x l IH]; intros i; cbn; [lra|].
  specialize (IH (S i)). pose proof (discount_pos i).
  case_bool_decide; lra.
Qed.

(** The gain of a ranking is at most that of its hits moved to the top. *)
Lemma dcg_from_le_ideal (relevant : gset string) (l : list string)
    (c i : nat) :
  (c <= i)%nat ->
  dcg_from relevant i l <= sum_discount c (hits relevant l).
Proof.
  revert c i. induction l as [|x l IH]; intros c i Hci; cbn; [lra|].
  case_bool_decide.
  - cbn. pose proof (discount_antitone c i Hci).
    specialize (IH (S c) (S i) ltac:(lia)). lra.
  - cbn. specialize (IH c (S i) ltac:(lia)). lra.
Qed.

Lemma dcg_from_all_hits (relevant : gset string) (l : list string)
    (i : nat) :
  Forall (fun x => x ∈ relevant) l ->
  dcg_from relevant i l = sum_discount i (length l).
Proof.
  intros Hl. revert i. induction Hl as [|x l Hx _ IH]; intros i; cbn;
    [reflexivity|].
  rewrite bool_decide_true by exact Hx. rewrite IH. reflexivity.
Qed.

Lemma hits_filter (relevant : gset string) (l : list string) :
  hits relevant l = length (filter (fun x => x ∈ relevant) l).
Proof.
  induction l as [|x l IH]; [reflexivity|]. cbn [hits].
  rewrite filter_cons. case_bool_decide as Hx.
  - rewrite decide_True by exact Hx. cbn. lia.
  - rewrite decide_False by exact Hx. cbn. lia.
Qed.

Lemma hits_le_length (relevant : gset string) (l : list string) :
  (hits relevant l <= length l)%nat.
Proof. rewrite hits_filter. apply length_filter. Qed.

Lemma hits_le_size (relevant : gset string) (l : list string) :
  NoDup l -> (hits relevant l <= size relevant)%nat.
Proof.
  intros Hnd. rewrite hits_filter.
  assert (Hnd' : NoDup (filter (fun x => x ∈ relevant) l))
    by (apply NoDup_filter, Hnd).
  rewrite <- (size_list_to_set (C:=gset string) _ Hnd').
  apply subseteq_size. intros x Hx.
  apply elem_of_list_to_set, list_elem_of_filter in Hx. tauto.
Qed.

Lemma py_take_sublist {A : Type} (k : Z) (l : list A) :
  sublist (Np.py_take k l) l.
Proof.
  unfold Np.py_take. destruct (0 <=? k)%Z; apply sublist_take.
Qed.

Lemma py_take_length {A : Type} (k : Z) (l : list A) :
  (0 <= k)%Z -> (length (Np.py_take k l) <= Z.to_nat k)%nat.
Proof.
  intros Hk. unfold Np.py_take. destruct (Z.leb_spec 0 k); [|lia].
  rewrite length_take. lia.
Qed.

Lemma ideal_dcg_exact (relevant : gset string) (k : Z) :
  let m := Z.to_nat (Z.min (Z.of_nat (size relevant)) k) in
  dcg_from (list_to_set (replicate m "relevant"))
    0 (Np.py_take k (replicate m "relevant"))
  = sum_discount 0 m.
Proof.
  intros m.
  assert (Htake : Np.py_take k (replicate m "relevant")
                  = replicate m "relevant").
  { destruct m as [|m'] eqn:Em; [unfold Np.py_take;
      destruct (0 <=? k)%Z; apply take_nil|].
    unfold Np.py_take. destruct (Z.leb_spec 0 k); [|lia].
    apply take_ge. rewrite length_replicate. lia. }
  rewrite Htake, dcg_from_all_hits; [rewrite length_replicate; reflexivity|].
  apply Forall_forall. intros x Hx. apply elem_of_list_to_set. exact Hx.
Qed.

Lemma ndcg_bounds (retrieved : list string)
    (relevant : gset string) (k : Z) :
  NoDup retrieved ->
  0 <= compute_ndcg_at_k (F:=R) retrieved relevant k <= 1.
Proof.
  intros Hnd. unfold compute_ndcg_at_k.
  rewrite !compute_dcg_at_k_exact.
  set (m := Z.to_nat (Z.min (Z.of_nat (size relevant)) k)).
  set (top := Np.py_take k retrieved).
  pose proof (ideal_dcg_exact relevant k) as Hideal. cbv zeta in Hideal.
  fold m in Hideal.
  rewrite Hideal. cbn [seqb sofZ sdiv real_scalar].
  unfold Exact.eqb. destruct (Req_dec_T (sum_discount 0 m) 0) as [E|E];
    [lra|].
  assert (Hm : (0 < m)%nat).
  { destruct m; [exfalso; apply E; reflexivity|lia]. }
  pose proof (sum_discount_pos 0 m Hm) as Hpos.
  pose proof (dcg_from_nonneg relevant 0 top) as Hnonneg.
  assert (Hh : (hits relevant top <= m)%nat).
  { assert (Hk : (0 < k)%Z) by lia.
    pose proof (hits_le_length relevant top).
    pose proof (py_take_length k retrieved ltac:(lia)).
    assert (NoDup top) by (eapply sublist_NoDup; [exact Hnd|apply py_take_sublist]).
    pose proof (hits_le_size relevant top ltac:(assumption)).
    subst m top. lia. }
  pose proof (dcg_from_le_ideal relevant top 0 0 ltac:(lia)) as Hle.
  pose proof (sum_discount_mono 0 _ _ Hh) as Hmono.
  split.
  - apply Rmult_le_pos; [exact Hnonneg|]. left. apply Rinv_0_lt_compat, Hpos.
  - apply Rmult_le_reg_r with (sum_discount 0 m); [exact Hpos|].
    unfold Rdiv. rewrite Rmult_assoc, Rinv_l by lra. lra.
Qed.

Lemma dcg_from_zero (relevant : gset string) (i : nat) (l : list string) :
  dcg_from relevant i l = 0 <-> forall x, x ∈ l -> x ∉ relevant.
Proof.
  revert i. induction l as [|x l IH]; intros i; cbn.
  - split; [intros _ y Hy; inversion Hy|reflexivity].
  - pose proof (discount_pos i) as Hd.
    pose proof (dcg_from_nonneg relevant (S i) l) as Hn.
    case_bool_decide as Hx.
    + split; [lra|]. intros Hnone. exfalso. apply (Hnone x); [left|exact Hx].
    + rewrite Rplus_0_l, IH. split.
      * intros Hl y Hy. apply elem_of_cons in Hy as [->|Hy]; auto.
      * intros Hl y Hy. apply Hl. right. exact Hy.
Qed.

(** In exact arithmetic NDCG@k lies between 0 and 1 for every ranking
    that retrieves no passage twice, and it is 0 exactly when the cutoff
    is not positive or none of the first [k] retrieved passages is
    relevant. *)
Theorem compute_ndcg_at_k_range (retrieved : list string)
    (relevant : gset string) (k : Z) :
  NoDup retrieved ->
  0 <= compute_ndcg_at_k (F:=R) retrieved relevant k <= 1 /\
  (compute_ndcg_at_k (F:=R) retrieved relevant k = 0 <->
   (k <= 0)%Z \/
   forall x, x ∈ Np.py_take k retrieved -> x ∉ relevant).
Proof.
  intros Hnd. split; [apply ndcg_bounds, Hnd|].
  unfold compute_ndcg_at_k. rewrite !compute_dcg_at_k_exact.
  set (m := Z.to_nat (Z.min (Z.of_nat (size relevant)) k)).
  pose proof (ideal_dcg_exact relevant k) as Hideal. cbv zeta in Hideal.
  fold m in Hideal. rewrite Hideal. cbn [seqb sofZ sdiv real_scalar].
  unfold Exact.eqb. destruct (Req_dec_T (sum_discount 0 m) 0) as [E|E].
  - split; [|reflexivity]. intros _.
    destruct m as [|m'] eqn:Em.
    + destruct (Z.le_gt_cases k 0) as [Hk|Hk]; [left; exact Hk|].
      right. intros x Hx Hrel.
      assert (size relevant <> 0%nat).
      { intros Hs. apply size_empty_iff in Hs. set_solver. }
      lia.
    + exfalso. pose proof (sum_discount_pos 0 (S m') ltac:(lia)). lra.
  - assert (Hm : (0 < m)%nat).
    { destruct m; [exfalso; apply E; reflexivity|lia]. }
    pose proof (sum_discount_pos 0 m Hm) as Hpos.
    rewrite <- dcg_from_zero with (i := 0%nat).
    split.
    + intros Hz. right.
      apply Rmult_eq_reg_r with (/ sum_discount 0 m);
        [|apply Rinv_neq_0_compat; lra].
      unfold Rdiv in Hz. lra.
    + intros [Hk|Hz]; [lia|]. rewrite Hz. unfold Rdiv. lra.
Qed.

End DiscountedGain.

(** ** The order of binary64, continued *)

Section Binary64TotalOrder.
Local Open Scope float_scope.

Lemma SFcompare_le_trans (x y z : spec_float) :
  (SFcompare x y = Some Lt \/ SFcompare x y = Some Eq) ->
  (SFcompare y z = Some Lt \/ SFcompare y z = Some Eq) ->
  SFcompare x z = Some Lt \/ SFcompare x z = Some Eq.
Proof.
  destruct x as [sx|sx| |sx mx ex], y as [sy|sy| |sy my ey],
    z as [sz|sz| |sz mz ez]; cbn;
    try (destruct sx); try (destruct sy); try (destruct sz); cbn;
    intros [H1|H1] [H2|H2]; try discriminate; auto;
    cmp_cases; subst; cbn in *; try discriminate; auto; try lia.
Qed.

Lemma SFcompare_lt_le_trans (x y z : spec_float) :
  SFcompare x y = Some Lt ->
  (SFcompare y z = Some Lt \/ SFcompare y z = Some Eq) ->
  SFcompare x z = Some Lt.
Proof.
  destruct x as [sx|sx| |sx mx ex], y as [sy|sy| |sy my ey],
    z as [sz|sz| |sz mz ez]; cbn;
    try (destruct sx); try (destruct sy); try (destruct sz); cbn;
    intros H1 [H2|H2]; try discriminate; auto;
    cmp_cases; subst; cbn in *; try discriminate; auto; try lia.
Qed.

Lemma SFcompare_le_lt_trans (x y z : spec_float) :
  (SFcompare x y = Some Lt \/ SFcompare x y = Some Eq) ->
  SFcompare y z = Some Lt ->
  SFcompare x z = Some Lt.
Proof.
  destruct x as [sx|sx| |sx mx ex], y as [sy|sy| |sy my ey],
    z as [sz|sz| |sz mz ez]; cbn;
    try (destruct sx); try (destruct sy); try (destruct sz); cbn;
    intros [H1|H1] H2; try discriminate; auto;
    cmp_cases; subst; cbn in *; try discriminate; auto; try lia.
Qed.

Lemma SFcompare_refl (x : spec_float) :
  SFcompare x x = Some Eq \/ SFcompare x x = None.
Proof.
  destruct x as [sx|sx| |sx mx ex]; cbn; auto; destruct sx; auto;
    rewrite Z.compare_refl;
    change (Pos.compare_cont Eq mx mx) with (mx ?= mx)%positive;
    rewrite Pos.compare_refl; auto.
Qed.

Lemma SFcompare_none (x y : spec_float) :
  SFcompare x y = None <-> SFcompare x x = None \/ SFcompare y y = None.
Proof.
  destruct x as [sx|sx| |sx mx ex], y as [sy|sy| |sy my ey]; cbn;
    repeat match goal with
           | |- context [Pos.compare_cont Eq ?a ?b] =>
               change (Pos.compare_cont Eq a b) with (a ?= b)%positive
           end;
    try destruct sx; try destruct sy; cbn;
    repeat rewrite Z.compare_refl; repeat rewrite Pos.compare_refl;
    try destruct (ex ?= ey)%Z; try destruct (mx ?= my)%positive; cbn;
    (split; [intros E; try discriminate E; auto
            |intros [E|E]; try discriminate E; auto]).
Qed.

Lemma b64_isnan_cmp (x : float) :
  F64.isnan x = false <-> SFcompare (Prim2SF x) (Prim2SF x) = Some Eq.
Proof.
  unfold F64.isnan. rewrite FloatAxioms.eqb_spec. unfold SFeqb.
  destruct (SFcompare (Prim2SF x) (Prim2SF x)) as [[]|]; cbn;
    intuition congruence.
Qed.

Lemma b64_leb_cmp (x y : float) :
  (x <=? y) = true <->
  SFcompare (Prim2SF x) (Prim2SF y) = Some Lt \/
  SFcompare (Prim2SF x) (Prim2SF y) = Some Eq.
Proof.
  rewrite FloatAxioms.leb_spec. unfold SFleb.
  destruct (SFcompare (Prim2SF x) (Prim2SF y)) as [[]|];
    intuition congruence.
Qed.

Lemma b64_ltb_cmp (x y : float) :
  (x <? y) = true <-> SFcompare (Prim2SF x) (Prim2SF y) = Some Lt.
Proof.
  rewrite FloatAxioms.ltb_spec. unfold SFltb.
  destruct (SFcompare (Prim2SF x) (Prim2SF y)) as [[]|];
    intuition congruence.
Qed.

Lemma b64_eqb_cmp (x y : float) :
  (x =? y) = true <-> SFcompare (Prim2SF x) (Prim2SF y) = Some Eq.
Proof.
  rewrite FloatAxioms.eqb_spec. unfold SFeqb.
  destruct (SFcompare (Prim2SF x) (Prim2SF y)) as [[]|];
    intuition congruence.
Qed.

Lemma b64_leb_trans (x y z : float) :
  (x <=? y) = true -> (y <=? z) = true -> (x <=? z) = true.
Proof. rewrite !b64_leb_cmp. apply SFcompare_le_trans. Qed.

Lemma b64_ltb_leb_trans (x y z : float) :
  (x <? y) = true -> (y <=? z) = true -> (x <? z) = true.
Proof. rewrite !b64_ltb_cmp, b64_leb_cmp. apply SFcompare_lt_le_trans. Qed.

Lemma b64_leb_ltb_trans (x y z : float) :
  (x <=? y) = true -> (y <? z) = true -> (x <? z) = true.
Proof. rewrite !b64_ltb_cmp, b64_leb_cmp. apply SFcompare_le_lt_trans. Qed.

Lemma b64_leb_refl (x : float) : F64.isnan x = false -> (x <=? x) = true.
Proof. rewrite b64_isnan_cmp, b64_leb_cmp. auto. Qed.

Lemma b64_ltb_irrefl (x : float) : (x <? x) = false.
Proof.
  destruct (x <? x) eqn:E; [|reflexivity].
  pose proof (ltb_asym x x E). congruence.
Qed.

(** On two numbers, [<] is the negation of the reversed [<=]. *)
Lemma b64_ltb_negb_leb (x y : float) :
  F64.isnan x = false -> F64.isnan y = false ->
  (x <? y) = negb (y <=? x).
Proof.
  rewrite !b64_isnan_cmp. intros Hx Hy.
  rewrite FloatAxioms.ltb_spec, FloatAxioms.leb_spec. unfold SFltb, SFleb.
  rewrite (SFcompare_antisym (Prim2SF x) (Prim2SF y)).
  destruct (SFcompare (Prim2SF x) (Prim2SF y)) as [[]|] eqn:E; cbn;
    try reflexivity.
  apply SFcompare_none in E. destruct E; congruence.
Qed.

Lemma b64_ltb_not_leb (x y : float) : (x <? y) = true -> (y <=? x) = false.
Proof.
  rewrite b64_ltb_cmp. intros E. rewrite FloatAxioms.leb_spec. unfold SFleb.
  rewrite (SFcompare_antisym (Prim2SF x) (Prim2SF y)), E. reflexivity.
Qed.

Lemma b64_ltb_leb (x y : float) : (x <? y) = true -> (x <=? y) = true.
Proof. rewrite b64_ltb_cmp, b64_leb_cmp. auto. Qed.

Lemma b64_leb_total (x y : float) :
  F64.isnan x = false -> F64.isnan y = false ->
  (x <=? y) = true \/ (y <=? x) = true.
Proof.
  intros Hx Hy. pose proof (b64_ltb_negb_leb x y Hx Hy) as E.
  destruct (y <=? x); [auto|]. left. apply b64_ltb_leb. exact E.
Qed.

Lemma b64_ltb_notnan (x y : float) :
  (x <? y) = true -> F64.isnan x = false /\ F64.isnan y = false.
Proof.
  rewrite b64_ltb_cmp, !b64_isnan_cmp. intros E.
  destruct (SFcompare_refl (Prim2SF x)) as [Hx|Hx],
    (SFcompare_refl (Prim2SF y)) as [Hy|Hy]; auto;
    exfalso;
    assert (N : SFcompare (Prim2SF x) (Prim2SF y) = None)
      by (apply SFcompare_none; auto); congruence.
Qed.

Lemma b64_leb_notnan (x y : float) :
  (x <=? y) = true -> F64.isnan x = false /\ F64.isnan y = false.
Proof.
  rewrite b64_leb_cmp, !b64_isnan_cmp. intros E.
  destruct (SFcompare_refl (Prim2SF x)) as [Hx|Hx],
    (SFcompare_refl (Prim2SF y)) as [Hy|Hy]; auto;
    exfalso;
    assert (N : SFcompare (Prim2SF x) (Prim2SF y) = None)
      by (apply SFcompare_none; auto); destruct E; congruence.
Qed.

End Binary64TotalOrder.

Section Binary64Equality.
Local Open Scope float_scope.

Lemma b64_eqb_leb (x y : float) :
  (x =? y) = true <-> (x <=? y) = true /\ (y <=? x) = true.
Proof.
  rewrite b64_eqb_cmp, !b64_leb_cmp.
  rewrite (SFcompare_antisym (Prim2SF x) (Prim2SF y)).
  destruct (SFcompare (Prim2SF x) (Prim2SF y)) as [[]|]; cbn;
    intuition congruence.
Qed.

Lemma b64_eqb_sym (x y : float) : (x =? y) = (y =? x).
Proof.
  apply eq_true_iff_eq. rewrite !b64_eqb_leb. tauto.
Qed.

Lemma b64_eqb_trans (x y z : float) :
  (x =? y) = true -> (y =? z) = true -> (x =? z) = true.
Proof.
  rewrite !b64_eqb_leb. intros [H1 H2] [H3 H4].
  split; eapply b64_leb_trans; eauto.
Qed.

Lemma b64_eqb_refl (x : float) : F64.isnan x = false -> (x =? x) = true.
Proof. unfold F64.isnan. destruct (x =? x); [reflexivity|discriminate]. Qed.

Lemma b64_leb_neqb_ltb (x y : float) :
  (x <=? y) = true -> (x =? y) = false -> (x <? y) = true.
Proof.
  intros Hle Hne. destruct (b64_leb_notnan x y Hle) as [Hx Hy].
  rewrite (b64_ltb_negb_leb x y Hx Hy).
  destruct (y <=? x) eqn:E; [|reflexivity].
  assert ((x =? y) = true) by (apply b64_eqb_leb; auto). congruence.
Qed.

End Binary64Equality.

Section Binary64Sort.
Local Open Scope float_scope.

Lemma F64_insert_sorted_perm (x : float) (l : list float) :
  F64.insert_sorted x l ≡ₚ x :: l.
Proof.
  induction l as [|y l IH]; cbn; [reflexivity|].
  destruct (F64.isnan y || _); [reflexivity|].
  rewrite IH. apply Permutation_swap.
Qed.

Lemma F64_np_sort_perm (l : list float) : F64.np_sort l ≡ₚ l.
Proof.
  induction l as [|x l IH]; [reflexivity|].
  change (F64.np_sort (x :: l)) with (F64.insert_sorted x (F64.np_sort l)).
  rewrite F64_insert_sorted_perm, IH. reflexivity.
Qed.

(** Inserting a number unequal to every element of a strictly ascending
    list of numbers keeps it strictly ascending. *)
Lemma F64_insert_sorted_strict (x : float) (l : list float) :
  F64.isnan x = false ->
  Forall (fun y => F64.isnan y = false) l ->
  Forall (fun y => (x =? y) = false) l ->
  StronglySorted (fun a b => (a <? b) = true) l ->
  StronglySorted (fun a b => (a <? b) = true) (F64.insert_sorted x l).
Proof.
  intros Hx Hnan Hne Hs.
  induction Hs as [|y l Hs IH Hy]; cbn.
  - repeat constructor.
  - inversion Hnan as [|? ? Hyn Hnan']; subst.
    inversion Hne as [|? ? Hxy Hne']; subst.
    rewrite Hyn, Hx. cbn.
    destruct (x <=? y) eqn:Hle.
    + pose proof (b64_leb_neqb_ltb x y Hle Hxy) as Hlt.
      constructor; [constructor; assumption|].
      constructor; [exact Hlt|].
      eapply Forall_impl; [exact Hy|]. cbn. intros z Hz.
      eapply b64_ltb_leb_trans; [exact Hlt|]. apply b64_ltb_leb, Hz.
    + constructor; [apply IH; assumption|].
      assert (Hyx : (y <? x) = true).
      { rewrite (b64_ltb_negb_leb y x Hyn Hx), Hle. reflexivity. }
      eapply Forall_forall. intros z Hz.
      rewrite F64_insert_sorted_perm in Hz.
      apply elem_of_cons in Hz as [->|Hz]; [exact Hyx|].
      eapply Forall_forall in Hy; eauto.
Qed.

Lemma F64_np_sort_strict (l : list float) :
  Forall (fun y => F64.isnan y = false) l ->
  StronglySorted (fun a b => (a =? b) = false) l ->
  StronglySorted (fun a b => (a <? b) = true) (F64.np_sort l).
Proof.
  intros Hnan Hd. induction Hd as [|x l Hd IH Hx]; [constructor|].
  inversion Hnan as [|? ? Hxn Hnan']; subst.
  change (F64.np_sort (x :: l)) with (F64.insert_sorted x (F64.np_sort l)).
  apply F64_insert_sorted_strict; auto.
  - rewrite F64_np_sort_perm. exact Hnan'.
  - rewrite F64_np_sort_perm. exact Hx.
Qed.

End Binary64Sort.

Section GridDictionary.
Import run_boundary_eval.
Local Open Scope float_scope.

Lemma dict_append_split (g delta : float) (d : grid_dict) :
  (Forall (fun e => (fst e =? g) = false) d /\
   dict_append g delta d = d ++ [(g, [delta])]) \/
  exists d1 g' ds d2,
    d = d1 ++ (g', ds) :: d2 /\
    Forall (fun e => (fst e =? g) = false) d1 /\
    (g' =? g) = true /\
    dict_append g delta d = d1 ++ (g', ds ++ [delta]) :: d2.
Proof.
  induction d as [|[g' ds] d IH]; cbn.
  - left. split; [constructor|reflexivity].
  - destruct (g' =? g) eqn:E.
    + right. exists [], g', ds, d. cbn. auto.
    + destruct IH as [[Hall ->]|(d1 & g'' & ds' & d2 & -> & Hall & Hg & ->)].
      * left. split; [constructor; assumption|reflexivity].
      * right. exists ((g', ds) :: d1), g'', ds', d2. cbn.
        repeat split; auto.
Qed.

Lemma dict_get_split (g : float) (d1 d2 : grid_dict) (g' : float)
    (ds : list float) :
  Forall (fun e => (fst e =? g) = false) d1 ->
  (g' =? g) = true ->
  dict_get g (d1 ++ (g', ds) :: d2) = ds.
Proof.
  intros Hall Hg. induction Hall as [|[g0 ds0] d1 Hg0 _ IH]; cbn.
  - rewrite Hg. reflexivity.
  - cbn in Hg0. rewrite Hg0. exact IH.
Qed.

Lemma filter_snoc {A : Type} (f : A -> bool) (l : list A) (x : A) :
  List.filter f (l ++ [x]) = List.filter f l ++ (if f x then [x] else []).
Proof. rewrite List.filter_app. cbn. destruct (f x); reflexivity. Qed.

Lemma deltas_at_snoc (g : float) (points : list point) (p : point) :
  deltas_at g (points ++ [p])
  = deltas_at g points
    ++ (if g =? grid p then [default nan (delta_boundary p)] else []).
Proof.
  unfold deltas_at. rewrite filter_snoc, map_app.
  destruct (g =? grid p); reflexivity.
Qed.

Lemma collect_points_snoc (points : list point) (p : point) :
  collect_points (points ++ [p])
  = dict_append (grid p) (default nan (delta_boundary p))
      (collect_points points).
Proof. unfold collect_points. rewrite fold_left_app. reflexivity. Qed.

Lemma collect_points_invariant (points : list point) :
  Forall (fun p => F64.isnan (grid p) = false) points ->
  let d := collect_points points in
  StronglySorted (fun a b => (a =? b) = false) (map fst d) /\
  Forall (fun e => F64.isnan (fst e) = false /\
                   (exists p, p ∈ points /\ grid p = fst e) /\
                   snd e = deltas_at (fst e) points) d /\
  Forall (fun p => exists e, e ∈ d /\ (fst e =? grid p) = true) points.
Proof.
  induction points as [|p points IH] using rev_ind; intros Hnan d.
  - subst d. cbn. repeat split; constructor.
  - apply Forall_app in Hnan as [Hnan Hp].
    apply Forall_inv in Hp.
    specialize (IH Hnan). cbv zeta in IH. destruct IH as (Hd & He & Hc).
    subst d. rewrite collect_points_snoc.
    set (d := collect_points points) in *.
    destruct (dict_append_split (grid p) (default nan (delta_boundary p)) d)
      as [[Hall ->]|(d1 & g' & ds & d2 & Ed & Hall & Hg & ->)].
    + (* a new key *)
      assert (Hnone : forall q, q ∈ points -> (grid p =? grid q) = false).
      { intros q Hq. eapply Forall_forall in Hc; [|exact Hq].
        destruct Hc as (e & He' & Heq).
        eapply Forall_forall in Hall; [|exact He'].
        destruct (grid p =? grid q) eqn:E; [|reflexivity].
        rewrite b64_eqb_sym in E.
        pose proof (b64_eqb_trans _ _ _ Heq E). congruence. }
      split; [|split].
      * rewrite map_app. cbn. clear -Hd Hall.
        induction d as [|e d IH]; cbn; [repeat constructor|].
        inversion Hd; subst. inversion Hall; subst.
        constructor; [auto|]. apply Forall_app. split; [assumption|].
        constructor; [assumption|constructor].
      * apply Forall_app. split.
        -- eapply Forall_impl.
           { apply Forall_and. split; [exact He|exact Hall]. }
           cbn. intros e [(Hen & (q & Hq & Hqe) & Hs) Hne].
           split; [exact Hen|]. split.
           { exists q. split; [apply elem_of_app; auto|exact Hqe]. }
           rewrite deltas_at_snoc, Hne, app_nil_r. exact Hs.
        -- constructor; [|constructor]. cbn. split; [exact Hp|]. split.
           { exists p. split; [apply elem_of_app; right; left|reflexivity]. }
           rewrite deltas_at_snoc, (b64_eqb_refl _ Hp).
           replace (deltas_at (grid p) points) with (@nil float);
             [reflexivity|].
           unfold deltas_at. symmetry.
           replace (List.filter _ points) with (@nil point); [reflexivity|].
           symmetry. clear -Hnone. induction points as [|q points IH];
             [reflexivity|]. cbn.
           rewrite (Hnone q) by left. apply IH. intros q' Hq'.
           apply Hnone. right. exact Hq'.
      * apply Forall_app. split.
        -- eapply Forall_impl; [exact Hc|]. cbn. intros q (e & He' & Heq).
           exists e. split; [apply elem_of_app; auto|exact Heq].
        -- constructor; [|constructor]. exists (grid p, [default nan (delta_boundary p)]).
           split; [apply elem_of_app; right; left|]. cbn. apply b64_eqb_refl, Hp.
    + (* an existing key *)
      rewrite Ed in Hd, He, Hc.
      rewrite map_app in Hd. cbn [map fst] in Hd.
      apply Forall_app in He as [He1 He2].
      inversion He2 as [|? ? (Hgn & (q0 & Hq0 & Hq0g) & Hds) He3]; subst.
      cbn [fst snd] in *.
      assert (Hother : Forall (fun e => (fst e =? grid p) = false) d2).
      { pose proof (proj1 (StronglySorted_app _ _ _) Hd) as (_ & _ & Hd2).
        inversion Hd2 as [|? ? _ Hg2]; subst.
        apply Forall_fmap in Hg2. eapply Forall_impl; [exact Hg2|].
        cbn. intros e Hne. destruct (fst e =? grid p) eqn:E; [|reflexivity].
        rewrite b64_eqb_sym in E. pose proof (b64_eqb_trans _ _ _ Hg E). congruence. }
      split; [|split].
      * rewrite map_app. cbn [map fst]. exact Hd.
      * apply Forall_app. split.
        -- eapply Forall_impl.
           { apply Forall_and. split; [exact He1|exact Hall]. }
           cbn. intros e [(Hen & (q & Hq & Hqe) & Hs) Hne].
           split; [exact Hen|]. split.
           { exists q. split; [apply elem_of_app; auto|exact Hqe]. }
           rewrite deltas_at_snoc, Hne, app_nil_r. exact Hs.
        -- constructor.
           { cbn. split; [exact Hgn|]. split.
             { exists q0. split; [apply elem_of_app; auto|exact Hq0g]. }
             rewrite deltas_at_snoc, Hg, Hds. reflexivity. }
           eapply Forall_impl.
           { apply Forall_and. split; [exact He3|exact Hother]. }
           cbn. intros e [(Hen & (q & Hq & Hqe) & Hs) Hne].
           split; [exact Hen|]. split.
           { exists q. split; [apply elem_of_app; auto|exact Hqe]. }
           rewrite deltas_at_snoc, Hne, app_nil_r. exact Hs.
      * apply Forall_app. split.
        -- eapply Forall_impl; [exact Hc|]. cbn. intros q (e & He' & Heq).
           apply elem_of_app in He' as [He'|He'].
           { exists e. split; [apply elem_of_app; auto|exact Heq]. }
           apply elem_of_cons in He' as [->|He'].
           { exists (g', ds ++ [default nan (delta_boundary p)]).
             split; [apply elem_of_app; right; left|exact Heq]. }
           exists e. split; [|exact Heq].
           apply elem_of_app. right. right. exact He'.
        -- constructor; [|constructor].
           exists (g', ds ++ [default nan (delta_boundary p)]).
           split; [apply elem_of_app; right; left|exact Hg].
Qed.

End GridDictionary.

(** ** The stability summary *)

Section StabilitySummary.
Import run_boundary_eval.
Local Open Scope float_scope.

Lemma dict_get_entry (d : grid_dict) (e : float * list float) :
  StronglySorted (fun a b => (a =? b) = false) (map fst d) ->
  F64.isnan (fst e) = false ->
  e ∈ d -> dict_get (fst e) d = snd e.
Proof.
  intros Hd Hn He. apply list_elem_of_split in He as (d1 & d2 & ->).
  destruct e as [g ds]. cbn [fst snd] in *.
  apply dict_get_split; [|apply b64_eqb_refl, Hn].
  rewrite map_app in Hd. cbn [map fst] in Hd.
  apply StronglySorted_app in Hd as (Hcross & _ & _).
  apply Forall_forall. intros e He. apply Hcross.
  - apply list_elem_of_fmap. exists e. auto.
  - left.
Qed.

(** The zero-crossing loop over the means of the steps. *)
Lemma find_zero_crossings_sign_changes (mean : float -> float)
    (steps : list float) :
  find_zero_crossings steps (map mean steps) = sign_changes mean steps.
Proof.
  unfold find_zero_crossings.
  induction steps as [|g steps IH]; [reflexivity|].
  destruct steps as [|g' steps]; [reflexivity|].
  change (sign_changes mean (g :: g' :: steps))
    with ((if crosses (mean g) (mean g') then [g] else [])
          ++ sign_changes mean (g' :: steps)).
  rewrite <- IH. clear IH.
  cbn [map length]. rewrite !Nat.sub_succ, !Nat.sub_0_r.
  rewrite length_map.
  change (seq 0 (S (length steps))) with (0%nat :: seq 1 (length steps)).
  cbn [flat_map]. f_equal.
  rewrite <- seq_shift, flat_map_concat_map, map_map.
  rewrite <- flat_map_concat_map. reflexivity.
Qed.

(** The loop of [compute_stability_metrics] over the sorted keys, on
    sweeps whose grid values are numbers. *)
Lemma stability_lists (results : list run) (dataset_name : string) :
  Forall (fun p => F64.isnan (grid p) = false) (concat results) ->
  let s := compute_stability_metrics results dataset_name in
  StronglySorted (fun a b => (a <? b) = true) (grid_values s) /\
  (forall g, g ∈ grid_values s ->
             exists p, p ∈ concat results /\ grid p = g) /\
  (forall p, p ∈ concat results ->
             exists g, g ∈ grid_values s /\ (g =? grid p) = true) /\
  mean_delta s
  = map (fun g => F64.np_mean (deltas_at g (concat results)))
      (grid_values s) /\
  std_delta s
  = map (fun g => F64.np_std (deltas_at g (concat results)))
      (grid_values s).
Proof.
  intros Hnan s.
  destruct (collect_points_invariant (concat results) Hnan)
    as (Hd & He & Hc).
  change (collect_points (concat results)) with (collect results) in *.
  subst s. unfold compute_stability_metrics.
  cbn [grid_values mean_delta std_delta].
  set (d := collect results) in *.
  assert (Hkeys : forall g, g ∈ F64.np_sort (map fst d) ->
                            exists e, e ∈ d /\ fst e = g).
  { intros g Hg. rewrite F64_np_sort_perm in Hg.
    apply list_elem_of_fmap in Hg as (e & -> & He'). eauto. }
  assert (Hget : forall g, g ∈ F64.np_sort (map fst d) ->
                           dict_get g d = deltas_at g (concat results)).
  { intros g Hg. destruct (Hkeys g Hg) as (e & He' & <-).
    pose proof He' as Hin. eapply Forall_forall in He; [|exact Hin].
    destruct He as (Hn & _ & Hs).
    rewrite (dict_get_entry d e Hd Hn He'), Hs. reflexivity. }
  split; [|split; [|split; [|split]]].
  - apply F64_np_sort_strict; [|exact Hd].
    apply Forall_fmap. eapply Forall_impl; [exact He|]. cbn. tauto.
  - intros g Hg. destruct (Hkeys g Hg) as (e & He' & <-).
    eapply Forall_forall in He; [|exact He']. tauto.
  - intros p Hp. eapply Forall_forall in Hc; [|exact Hp].
    destruct Hc as (e & He' & Heq). exists (fst e). split; [|exact Heq].
    rewrite F64_np_sort_perm. apply list_elem_of_fmap. eauto.
  - apply map_ext_in. intros g Hg. rewrite Hget; [reflexivity|].
    apply list_elem_of_In, Hg.
  - apply map_ext_in. intros g Hg. rewrite Hget; [reflexivity|].
    apply list_elem_of_In, Hg.
Qed.

(** On sweeps whose grid values are numbers, the summary lists every
    distinct grid value once, in strictly ascending order; each listed
    value is the grid of some point and every point's grid is listed; and
    the mean and the standard deviation at a listed value are those of
    the deltas of all points of all runs at that value. *)
Theorem stability_groups_by_grid (results : list run)
    (dataset_name : string) :
  Forall (fun p => F64.isnan (grid p) = false) (concat results) ->
  let s := compute_stability_metrics results dataset_name in
  StronglySorted (fun a b => (a <? b) = true) (grid_values s) /\
  (forall g, g ∈ grid_values s ->
             exists p, p ∈ concat results /\ grid p = g) /\
  (forall p, p ∈ concat results ->
             exists g, g ∈ grid_values s /\ (g =? grid p) = true) /\
  forall (i : nat) (g : float),
    grid_values s !! i = Some g ->
    mean_delta s !! i
    = Some (F64.np_mean (deltas_at g (concat results))) /\
    std_delta s !! i
    = Some (F64.np_std (deltas_at g (concat results))).
Proof.
  intros Hnan s.
  destruct (stability_lists results dataset_name Hnan)
    as (Hsorted & Hin & Hall & Hmean & Hstd).
  fold s in Hsorted, Hin, Hall, Hmean, Hstd.
  split; [exact Hsorted|]. split; [exact Hin|]. split; [exact Hall|].
  intros i g Hi. rewrite Hmean, Hstd, !list_lookup_fmap, Hi. auto.
Qed.

(** C10.  On sweeps whose grid values are numbers: the steps are the
    distinct grid values in ascending order, the mean of a step is
    [np.mean] of the deltas of all runs at that step, and the zero
    crossings reported are, in order and once each, the lower steps of
    the pairs of adjacent steps whose means go from non-positive to
    positive or from non-negative to negative.  On the deltas
    [-0.1, -0.05, 0.02, 0.08] over the steps [0.1, 0.2, 0.3, 0.4] the one
    crossing reported is at step 0.2, the lower end of (0.2, 0.3). *)
Theorem zero_crossings_between_sign_changes :
  (forall (results : list run) (dataset_name : string),
     Forall (fun p => F64.isnan (grid p) = false) (concat results) ->
     let s := compute_stability_metrics results dataset_name in
     let mean g := F64.np_mean (deltas_at g (concat results)) in
     StronglySorted (fun a b => (a <? b) = true) (grid_values s) /\
     (forall g, g ∈ grid_values s ->
                exists p, p ∈ concat results /\ grid p = g) /\
     (forall p, p ∈ concat results ->
                exists g, g ∈ grid_values s /\ (g =? grid p) = true) /\
     mean_delta s = map mean (grid_values s) /\
     zero_crossings s = sign_changes mean (grid_values s)) /\
  (forall a b : float,
     crosses a b = true <->
     ((a <=? 0) = true /\ (0 <? b) = true) \/
     ((0 <=? a) = true /\ (b <? 0) = true)) /\
  (let s := compute_stability_metrics
              [single_run [0.1; 0.2; 0.3; 0.4] [-0.1; -0.05; 0.02; 0.08]]
              "deltas" in
   grid_values s = [0.1; 0.2; 0.3; 0.4] /\
   mean_delta s = [-0.1; -0.05; 0.02; 0.08] /\
   zero_crossings s = [0.2]).
Proof.
  split; [|split].
  - intros results dataset_name Hnan s mean.
    destruct (stability_lists results dataset_name Hnan)
      as (Hsorted & Hin & Hall & Hmean & _).
    fold s in Hsorted, Hin, Hall, Hmean.
    split; [exact Hsorted|]. split; [exact Hin|]. split; [exact Hall|].
    split; [exact Hmean|].
    transitivity (find_zero_crossings (grid_values s) (mean_delta s));
      [reflexivity|].
    rewrite Hmean. apply find_zero_crossings_sign_changes.
  - intros a b. unfold crosses.
    rewrite orb_true_iff, !andb_true_iff. reflexivity.
  - vm_compute. repeat split; reflexivity.
Qed.

Lemma zero_crossings_between_sign_changes_witness :
  let results :=
    [single_run [0.1; 0.2; 0.3; 0.4] [-0.1; -0.05; 0.02; 0.08]] in
  let s := compute_stability_metrics results "deltas" in
  Forall (fun p => F64.isnan (grid p) = false) (concat results) /\
  zero_crossings s
  = sign_changes (fun g => F64.np_mean (deltas_at g (concat results)))
      (grid_values s).
Proof.
  cbv zeta.
  assert (Hnan : Forall (fun p => F64.isnan (grid p) = false)
                   (concat [single_run [0.1; 0.2; 0.3; 0.4]
                              [-0.1; -0.05; 0.02; 0.08]]))
    by (repeat constructor).
  split; [exact Hnan|].
  apply (proj1 zero_crossings_between_sign_changes
           [single_run [0.1; 0.2; 0.3; 0.4] [-0.1; -0.05; 0.02; 0.08]]
           "deltas" Hnan).
Defined.

Lemma stability_groups_by_grid_witness :
  Forall (fun p => F64.isnan (grid p) = false)
    (concat [single_run [0.2; 0.1] [0.5; -0.5];
             single_run [0.1; 0.2] [0.25; 0.5]]) /\
  StronglySorted (fun a b => (a <? b) = true)
    (grid_values
       (compute_stability_metrics
          [single_run [0.2; 0.1] [0.5; -0.5];
           single_run [0.1; 0.2] [0.25; 0.5]] "sweep")).
Proof.
  split; [repeat constructor|].
  apply (stability_groups_by_grid
           [single_run [0.2; 0.1] [0.5; -0.5];
            single_run [0.1; 0.2] [0.25; 0.5]] "sweep").
  repeat constructor.
Defined.

Lemma crosses_same_sign (a b : float) :
  ((0 <? a) = true /\ (0 <? b) = true) \/
  ((a <? 0) = true /\ (b <? 0) = true) ->
  crosses a b = false.
Proof.
  unfold crosses. intros [[Ha Hb]|[Ha Hb]].
  - rewrite (b64_ltb_not_leb _ _ Ha), (ltb_asym _ _ Hb).
    cbn. apply andb_false_r.
  - rewrite (ltb_asym _ _ Hb), (b64_ltb_not_leb _ _ Ha).
    cbn. rewrite andb_false_r. reflexivity.
Qed.

Lemma find_zero_crossings_none (grid mean : list float) :
  (forall i a b, mean !! i = Some a -> mean !! (i + 1)%nat = Some b ->
                 crosses a b = false) ->
  find_zero_crossings grid mean = [].
Proof.
  intros Hno. unfold find_zero_crossings.
  induction (seq 0 (length mean - 1)) as [|i l IH]; [reflexivity|].
  cbn [flat_map]. rewrite IH, app_nil_r.
  destruct (mean !! i) as [a|] eqn:Ha; [|reflexivity].
  destruct (mean !! (i + 1)%nat) as [b|] eqn:Hb; [|reflexivity].
  destruct (grid !! i); [|reflexivity].
  rewrite (Hno i a b Ha Hb). reflexivity.
Qed.

(** A sweep whose mean deltas are all positive, or all negative, has no
    zero crossing. *)
Theorem stability_no_sign_change (results : list run)
    (dataset_name : string) :
  let s := compute_stability_metrics results dataset_name in
  Forall (fun a => (0 <? a) = true) (mean_delta s) \/
  Forall (fun a => (a <? 0) = true) (mean_delta s) ->
  zero_crossings s = [].
Proof.
  intros s Hsign. subst s. unfold compute_stability_metrics in *.
  cbn [zero_crossings mean_delta] in *.
  apply find_zero_crossings_none. intros i a b Ha Hb.
  apply crosses_same_sign.
  destruct Hsign as [Hs|Hs]; [left|right];
    split; eapply (Forall_lookup_1 _ _ _ _ Hs); eauto.
Qed.

Lemma stability_no_sign_change_witness :
  Forall (fun a => (0 <? a) = true)
    (mean_delta
       (compute_stability_metrics
          [single_run [0.1; 0.2] [0.25; 0.5]] "sweep")) /\
  zero_crossings
    (compute_stability_metrics [single_run [0.1; 0.2] [0.25; 0.5]] "sweep")
  = [].
Proof.
  assert (Hpos : Forall (fun a => (0 <? a) = true)
                   (mean_delta
                      (compute_stability_metrics
                         [single_run [0.1; 0.2] [0.25; 0.5]] "sweep")))
    by (vm_compute; repeat constructor).
  split; [exact Hpos|].
  apply (stability_no_sign_change
           [single_run [0.1; 0.2] [0.25; 0.5]] "sweep").
  left. exact Hpos.
Defined.

(** The summary has one mean and one standard deviation per grid value;
    the zero crossings and the high-variance regions are grid values, and
    there are fewer zero crossings than grid values. *)
Theorem stability_summary_shape (results : list run)
    (dataset_name : string) :
  let s := compute_stability_metrics results dataset_name in
  length (mean_delta s) = length (grid_values s) /\
  length (std_delta s) = length (grid_values s) /\
  Forall (fun g => g ∈ grid_values s) (zero_crossings s) /\
  (length (zero_crossings s) <= length (grid_values s) - 1)%nat /\
  Forall (fun g => g ∈ grid_values s) (high_variance_regions s).
Proof.
  intros s. subst s. unfold compute_stability_metrics.
  cbn [grid_values mean_delta std_delta zero_crossings high_variance_regions].
  set (gv := F64.np_sort _).
  rewrite !length_map. split; [reflexivity|]. split; [reflexivity|].
  split; [|split].
  - apply Forall_forall. intros g Hg.
    apply find_zero_crossings_spec in Hg as (i & _ & _ & _ & _ & Hg & _).
    eapply list_elem_of_lookup_2, Hg.
  - unfold find_zero_crossings.
    match goal with
    | |- (length (flat_map ?f (seq 0 ?n)) <= _)%nat =>
        assert (Hgen : forall l, (length (flat_map f l) <= length l)%nat);
        [|etransitivity; [apply Hgen|rewrite length_seq, length_map; lia]]
    end.
    induction l as [|i l IH]; [reflexivity|].
    cbn [flat_map]. rewrite length_app. cbn [length].
    repeat match goal with
           | |- context [match ?x with _ => _ end] => destruct x
           end; cbn [length]; lia.
  - destruct (0 <? _)%nat; [|constructor].
    apply Forall_forall. intros g Hg.
    apply list_elem_of_In, in_flat_map in Hg as (i & _ & Hg).
    repeat match type of Hg with
           | context [match ?x with _ => _ end] => destruct x eqn:?
           end; try (inversion Hg; fail).
    destruct Hg as [->|[]]. eapply list_elem_of_lookup_2; eauto.
Qed.

End StabilitySummary.

(** ** The count-based verdict: invariants *)

Section CountVerdictInvariants.
Import compare_boundary_aware.
Local Open Scope float_scope.

(** The verdict is a function of the counts alone. *)
Lemma compute_verdict_of_counts (rows rows' : list row) :
  improved_counts rows = improved_counts rows' ->
  compared_rows rows = compared_rows rows' ->
  compute_verdict rows = compute_verdict rows'.
Proof.
  intros Hi Ht. unfold compute_verdict. rewrite !fold_count_row.
  rewrite Hi, Ht. reflexivity.
Qed.

Lemma filter_length_perm {A : Type} (f : A -> bool) (l l' : list A) :
  l ≡ₚ l' -> length (List.filter f l) = length (List.filter f l').
Proof.
  induction 1 as [|x l l' _ IH|x y l|l l' l'' _ IH1 _ IH2]; cbn.
  - reflexivity.
  - destruct (f x); cbn; congruence.
  - destruct (f x), (f y); reflexivity.
  - congruence.
Qed.

(** The verdict does not depend on the order of the rows of the
    comparison table. *)
Theorem compute_verdict_row_order (rows rows' : list row) :
  rows ≡ₚ rows' -> compute_verdict rows = compute_verdict rows'.
Proof.
  intros Hp. apply compute_verdict_of_counts.
  - unfold improved_counts, improved_rows.
    f_equal; apply filter_length_perm, Hp.
  - unfold compared_rows. apply filter_length_perm, Hp.
Qed.

Lemma compute_verdict_row_order_witness :
  [mse_row 0.1 1.0 2.0; mse_row 0.2 2.0 1.0]
  ≡ₚ [mse_row 0.2 2.0 1.0; mse_row 0.1 1.0 2.0] /\
  compute_verdict [mse_row 0.1 1.0 2.0; mse_row 0.2 2.0 1.0]
  = compute_verdict [mse_row 0.2 2.0 1.0; mse_row 0.1 1.0 2.0].
Proof.
  split; [apply Permutation_swap|].
  apply (compute_verdict_row_order
           [mse_row 0.1 1.0 2.0; mse_row 0.2 2.0 1.0]
           [mse_row 0.2 2.0 1.0; mse_row 0.1 1.0 2.0]).
  apply Permutation_swap.
Defined.

(** A row in which no pair of values was measured on both sides changes
    nothing: the verdict is that of the table without it. *)
Theorem compute_verdict_skips_unmeasured (rows rows' : list row) (r : row) :
  unmeasured r = true ->
  compute_verdict (rows ++ r :: rows') = compute_verdict (rows ++ rows').
Proof.
  unfold unmeasured. rewrite !andb_true_iff, !negb_true_iff.
  intros ((((H1 & H2) & H3) & H4) & H5).
  apply compute_verdict_of_counts.
  - unfold improved_counts, improved_rows.
    rewrite !List.filter_app. cbn [List.filter].
    rewrite H1, H2, H3, H4, H5. cbn [andb]. reflexivity.
  - unfold compared_rows. rewrite !List.filter_app. cbn [List.filter].
    rewrite H1. reflexivity.
Qed.

Lemma filter_length_le {A : Type} (f : A -> bool) (l : list A) :
  (length (List.filter f l) <= length l)%nat.
Proof.
  induction l as [|x l IH]; cbn; [lia|]. destruct (f x); cbn; lia.
Qed.

Lemma filter_length_and {A : Type} (f g : A -> bool) (l : list A) :
  (length (List.filter (fun x => f x && g x) l)
   <= length (List.filter f l))%nat.
Proof.
  induction l as [|x l IH]; cbn; [lia|].
  destruct (f x), (g x); cbn; lia.
Qed.

(** The number of compared rows is at most the number of rows, the
    global-MSE count at most the number of compared rows, every count at
    most the number of rows; a verdict that is not exploitable has all
    five counts at 0; and a table without a compared row is judged
    exploitable with confidence high. *)
Theorem compute_verdict_count_bounds (rows : list row) :
  let v := compute_verdict rows in
  (total_comparisons v <= length rows)%nat /\
  (mse_global (improvements v) <= total_comparisons v)%nat /\
  Forall (fun count => (count <= length rows)%nat) (values (improvements v)) /\
  (exploitable v = false ->
   Forall (fun count => count = 0%nat) (values (improvements v))) /\
  (total_comparisons v = 0%nat ->
   exploitable v = true /\ confidence v = high).
Proof.
  intros v. subst v.
  destruct (compute_verdict_counts rows) as [Hi Ht].
  rewrite Hi, Ht.
  assert (Hm : (mse_global (improved_counts rows) <= compared_rows rows)%nat).
  { unfold improved_counts, improved_rows, compared_rows. cbn [mse_global].
    apply (filter_length_and
             (fun r => comparable (baseline_mse_global r)
                         (boundary_mse_global r))). }
  split; [apply filter_length_le|]. split; [exact Hm|].
  split; [|split].
  - unfold values, improved_counts, improved_rows.
    cbn [mse_global mse_boundary delta_boundary knn_overlap lsi].
    repeat constructor; apply filter_length_le.
  - unfold compute_verdict in *. rewrite fold_count_row in *.
    cbn [no_improvements mse_global mse_boundary delta_boundary knn_overlap
         lsi Nat.add] in *.
    assert (E : forall i : improvements_t,
               {| mse_global := mse_global i; mse_boundary := mse_boundary i;
                  delta_boundary := delta_boundary i;
                  knn_overlap := knn_overlap i; lsi := lsi i |} = i)
      by (intros []; reflexivity).
    rewrite E in *.
    destruct (strong_improvement _ _); [discriminate|].
    destruct (consistent_improvement _ _); [discriminate|].
    destruct (any_improvement _) eqn:Ea; [discriminate|]. intros _.
    unfold any_improvement in Ea.
    apply Forall_forall. intros count Hc.
    destruct count; [reflexivity|]. exfalso.
    assert (Hex : existsb (fun count => (0 <? count)%nat)
                    (values (improved_counts rows)) = true).
    { apply existsb_exists. exists (S count).
      split; [apply list_elem_of_In, Hc|reflexivity]. }
    congruence.
  - intros Hz. rewrite Hz in Hm.
    assert (Hs : strong_improvement (improved_counts rows)
                   (compared_rows rows) = true).
    { unfold strong_improvement, values. rewrite Hz.
      replace (mse_global (improved_counts rows)) with 0%nat by lia.
      reflexivity. }
    unfold compute_verdict. rewrite fold_count_row.
    cbn [no_improvements mse_global mse_boundary delta_boundary knn_overlap
         lsi Nat.add].
    assert (E : forall i : improvements_t,
               {| mse_global := mse_global i; mse_boundary := mse_boundary i;
                  delta_boundary := delta_boundary i;
                  knn_overlap := knn_overlap i; lsi := lsi i |} = i)
      by (intros []; reflexivity).
    rewrite E, Hs. cbn. auto.
Qed.

End CountVerdictInvariants.

(** ** The threshold verdict: which metrics are compared *)

Section ComparedMetrics.
Import analyze_validation_results.
Local Open Scope float_scope.

Lemma compare_metric_lookup (b a : gmap string metric_stats)
    (comparison : comparison_t) (metric m : string) :
  compare_metric b a comparison metric !! m
  = if bool_decide (m = metric) then
      match compare_metric b a ∅ metric !! metric with
      | Some e => Some e
      | None => comparison !! m
      end
    else comparison !! m.
Proof.
  unfold compare_metric, comparison_t in *.
  destruct (b !! metric) as [sb|], (a !! metric) as [sa|];
    case_bool_decide as Hm; subst;
    repeat rewrite lookup_insert_eq; rewrite ?lookup_empty;
    try rewrite lookup_insert_ne by congruence; reflexivity.
Qed.

Lemma fold_compare_metric_lookup (b a : gmap string metric_stats)
    (ms : list string) (comparison : comparison_t) (m : string) :
  fold_left (compare_metric b a) ms comparison !! m
  = if bool_decide (m ∈ ms) then
      match compare_metric b a ∅ m !! m with
      | Some e => Some e
      | None => comparison !! m
      end
    else comparison !! m.
Proof.
  revert comparison. induction ms as [|metric ms IH]; intros comparison.
  - cbn. rewrite bool_decide_false by apply not_elem_of_nil. reflexivity.
  - cbn [fold_left]. rewrite IH.
    rewrite !(compare_metric_lookup b a comparison metric m).
    destruct (decide (m = metric)) as [->|Hne].
    + rewrite !(bool_decide_true (metric = metric)) by reflexivity.
      rewrite (bool_decide_true (metric ∈ metric :: ms)) by left.
      destruct (compare_metric b a ∅ metric !! metric);
        destruct (bool_decide (metric ∈ ms)); reflexivity.
    + rewrite !(bool_decide_false (m = metric)) by exact Hne.
      destruct (decide (m ∈ ms)) as [Hin|Hout].
      * rewrite !bool_decide_true; [reflexivity|right; exact Hin|exact Hin].
      * rewrite !bool_decide_false; [reflexivity| |exact Hout].
        intros Hc. apply elem_of_cons in Hc as [?|?]; contradiction.
Qed.

(** With both methods present, the comparison holds an entry for a
    metric exactly when it is one of the six key metrics and both methods
    measured it, and that entry depends on the two statistics of that
    metric only. *)
Theorem compare_methods_lookup (stats : stats_t)
    (b a : gmap string metric_stats) (m : string) :
  stats !! "lattice-hybrid" = Some b ->
  stats !! "boundary-aware" = Some a ->
  compare_methods stats !! m
  = if bool_decide (m ∈ metrics) then compare_metric b a ∅ m !! m else None.
Proof.
  intros Hb Ha. unfold compare_methods. rewrite Hb, Ha.
  rewrite fold_compare_metric_lookup. unfold comparison_t.
  rewrite lookup_empty.
  case_bool_decide; [|reflexivity].
  match goal with
  | |- _ = ?r =>
      change (match r with Some e => Some e | None => None end = r);
      destruct r; reflexivity
  end.
Qed.

Lemma compare_metric_single (b a : gmap string metric_stats) (m : string) :
  compare_metric b a ∅ m !! m = None <-> b !! m = None \/ a !! m = None.
Proof.
  unfold compare_metric, comparison_t.
  destruct (b !! m) as [sb|], (a !! m) as [sa|];
    rewrite ?lookup_insert_eq, ?lookup_empty; intuition congruence.
Qed.

Lemma determine_verdict_insufficient (comparison : comparison_t) :
  determine_verdict comparison = INSUFFICIENT_DATA <-> comparison = ∅.
Proof.
  unfold determine_verdict, comparison_t in *.
  destruct (Nat.eqb_spec (size comparison) 0) as [E|E].
  - apply map_size_empty_iff in E. intuition congruence.
  - split.
    + repeat match goal with
             | |- context [if ?c then _ else _] => destruct c
             end; discriminate.
    + intros ->. exfalso. apply E. apply map_size_empty.
Qed.

(** The verdict on the statistics is INSUFFICIENT_DATA exactly when a
    method is missing or the two methods share none of the six key
    metrics. *)
Theorem insufficient_data_iff (stats : stats_t) :
  determine_verdict (compare_methods stats) = INSUFFICIENT_DATA <->
  stats !! "lattice-hybrid" = None \/ stats !! "boundary-aware" = None \/
  exists b a : gmap string metric_stats,
    stats !! "lattice-hybrid" = Some b /\
    stats !! "boundary-aware" = Some a /\
    forall m, m ∈ metrics -> b !! m = None \/ a !! m = None.
Proof.
  rewrite determine_verdict_insufficient.
  destruct (stats !! "lattice-hybrid") as [b|] eqn:Hb;
    [|unfold compare_methods; rewrite Hb; tauto].
  destruct (stats !! "boundary-aware") as [a|] eqn:Ha;
    [|unfold compare_methods; rewrite Hb, Ha; tauto].
  split.
  - intros E. right. right. exists b, a. split; [reflexivity|].
    split; [reflexivity|]. intros m Hm.
    apply compare_metric_single.
    pose proof (compare_methods_lookup stats b a m Hb Ha) as Hl.
    rewrite E in Hl. unfold comparison_t in Hl.
    rewrite lookup_empty, bool_decide_true in Hl by exact Hm. auto.
  - intros [Hn|[Hn|(b' & a' & [= <-] & [= <-] & Hnone)]]; try discriminate.
    apply map_eq. intros m. unfold comparison_t in *.
    etransitivity; [apply (compare_methods_lookup stats b a m Hb Ha)|].
    rewrite lookup_empty.
    case_bool_decide as Hm; [|reflexivity].
    apply compare_metric_single, Hnone, Hm.
Qed.

(** A comparison that holds some metric but not Recall@10 is REJECTED:
    the missing improvement counts as 0. *)
Theorem missing_recall_rejected (comparison : comparison_t) :
  comparison <> ∅ ->
  comparison !! "recall_at_10" = None ->
  determine_verdict comparison = REJECTED.
Proof.
  intros Hne Hr.
  unfold determine_verdict, get_improvement_pct, comparison_t in *.
  destruct (Nat.eqb_spec (size comparison) 0) as [E|_].
  - exfalso. apply Hne. apply map_size_empty_iff in E. exact E.
  - rewrite Hr. reflexivity.
Qed.

(** A baseline whose mean Recall@10 is zero gives an improvement of 0
    percent, whatever the boundary-aware recall, and so REJECTED. *)
Theorem zero_baseline_recall_rejected (stats : stats_t)
    (b a : gmap string metric_stats) (sb sa : metric_stats) :
  stats !! "lattice-hybrid" = Some b ->
  stats !! "boundary-aware" = Some a ->
  b !! "recall_at_10" = Some sb -> a !! "recall_at_10" = Some sa ->
  (mean sb =? 0) = true ->
  get_improvement_pct (compare_methods stats) "recall_at_10" = 0 /\
  determine_verdict (compare_methods stats) = REJECTED.
Proof.
  intros Hb Ha Hsb Hsa Hz.
  assert (Hl : exists e, compare_methods stats !! "recall_at_10" = Some e /\
                         improvement_pct e = 0).
  { unfold comparison_t.
    rewrite (compare_methods_lookup stats b a _ Hb Ha).
    rewrite bool_decide_true by (unfold metrics; left).
    unfold compare_metric, comparison_t. rewrite Hsb, Hsa, lookup_insert_eq.
    eexists. split; [reflexivity|]. cbn. rewrite Hz. reflexivity. }
  destruct Hl as (e & He & Hi).
  assert (Hg : get_improvement_pct (compare_methods stats) "recall_at_10" = 0)
    by (unfold get_improvement_pct; rewrite He; exact Hi).
  split; [exact Hg|].
  unfold determine_verdict.
  destruct (Nat.eqb_spec (size (compare_methods stats)) 0) as [E|_].
  - unfold comparison_t in *. apply map_size_empty_iff in E. rewrite E in He. unfold comparison_t in He.
    rewrite lookup_empty in He. discriminate.
  - rewrite Hg. reflexivity.
Qed.

End ComparedMetrics.

(** ** Self-referential metrics: when they return *)

Section SelfReferential.
Import real_world_validation.
Local Open Scope float_scope.

Lemma insert_indexed_perm (x : nat * float) (l : list (nat * float)) :
  insert_indexed x l ≡ₚ x :: l.
Proof.
  induction l as [|y l IH]; cbn; [reflexivity|].
  destruct (Np.sort_leb _ _); [reflexivity|].
  rewrite IH. apply Permutation_swap.
Qed.

Lemma imap_pair_fst {A : Type} (a : list A) (i : nat) :
  map fst (imap (fun j => pair (i + j)%nat) a) = seq i (length a).
Proof.
  revert i. induction a as [|x a IH]; intros i; cbn; [reflexivity|].
  rewrite Nat.add_0_r. f_equal.
  rewrite (imap_ext _ (fun j => pair (S i + j)%nat))
    by (intros; cbn; f_equal; lia).
  apply IH.
Qed.

(** [np.argsort] returns every index once. *)
Lemma np_argsort_perm (a : list float) : np_argsort a ≡ₚ seq 0 (length a).
Proof.
  unfold np_argsort.
  assert (Hp : fold_right insert_indexed [] (imap pair a) ≡ₚ imap pair a).
  { induction (imap pair a) as [|x l IH]; [reflexivity|].
    cbn [fold_right]. rewrite insert_indexed_perm, IH. reflexivity. }
  rewrite Hp. rewrite (imap_ext pair (fun j => pair (0 + j)%nat)) by reflexivity.
  rewrite imap_pair_fst. reflexivity.
Qed.

Lemma index_of_returns (x : nat) (a : list nat) :
  x ∈ a -> exists i, index_of x a = Ok i.
Proof.
  induction a as [|y a IH]; intros Hx; [inversion Hx|]. cbn.
  destruct (Nat.eqb_spec y x) as [->|Hne]; [eauto|].
  apply elem_of_cons in Hx as [->|Hx]; [congruence|].
  destruct (IH Hx) as [i ->]. cbn. eauto.
Qed.

Lemma dists_to_returns (embeddings : list (list float)) (i : nat) :
  (i < length embeddings)%nat ->
  exists d, dists_to embeddings i = Ok d /\ length d = length embeddings.
Proof.
  intros Hi. unfold dists_to.
  destruct (lookup_lt_is_Some_2 embeddings i Hi) as [e ->].
  eexists. split; [reflexivity|]. apply length_map.
Qed.

Lemma dists_to_raises (embeddings : list (list float)) (i : nat) :
  (length embeddings <= i)%nat -> dists_to embeddings i = Raise IndexError.
Proof.
  intros Hi. unfold dists_to. rewrite lookup_ge_None_2 by exact Hi.
  reflexivity.
Qed.

Lemma map_result_first_raise {A B : Type} (f : A -> result B)
    (l1 l2 : list A) (a : A) (e : exn) :
  Forall (fun x => exists b, f x = Ok b) l1 ->
  f a = Raise e ->
  Np.map_result f (l1 ++ a :: l2) = Raise e.
Proof.
  intros Hl Ha. induction Hl as [|x l1 [b Hb] _ IH]; cbn.
  - rewrite Ha. reflexivity.
  - rewrite Hb. cbn. rewrite IH. reflexivity.
Qed.

(** One step of the loop of [compute_mrr] returns when the compressed set
    has a vector at every index of the original one. *)
Lemma compute_mrr_step_returns (original compressed : list (list float))
    (k i : nat) :
  (i < length original)%nat -> (length original <= length compressed)%nat ->
  exists v,
    (do orig_dists <- dists_to original i;
     let orig_dists := <[i := infinity]> orig_dists in
     do true_nearest <- Np.np_argmin orig_dists;
     do comp_dists <- dists_to compressed i;
     let comp_ranks := np_argsort comp_dists in
     do pos <- index_of true_nearest comp_ranks;
     let rank := (pos + 1)%nat in
     Ok (if Nat.leb rank k then 1.0 / F64.of_nat rank else 0.0)) = Ok v.
Proof.
  intros Hi Hn.
  destruct (dists_to_returns original i Hi) as (d & -> & Hd). cbn [bind].
  destruct (Np.np_argmin (<[i:=infinity]> d)) as [a|e] eqn:Ea.
  2:{ destruct d; [cbn in Hd; lia|]. destruct i; discriminate. }
  cbn [bind]. apply np_argmin_bound in Ea. rewrite length_insert in Ea.
  destruct (dists_to_returns compressed i ltac:(lia)) as (c & -> & Hc).
  cbn [bind].
  destruct (index_of_returns a (np_argsort c)) as [pos ->].
  { rewrite np_argsort_perm. apply elem_of_seq. lia. }
  cbn [bind]. eauto.
Qed.

Lemma map_result_raises_only {A B : Type} (f : A -> result B)
    (l : list A) (e : exn) :
  Forall (fun x => (exists b, f x = Ok b) \/ f x = Raise e) l ->
  Exists (fun x => f x = Raise e) l ->
  Np.map_result f l = Raise e.
Proof.
  intros Hall Hex. induction Hall as [|x l Hx Hall IH]; [inversion Hex|].
  cbn. destruct Hx as [[b Hb]|Hr]; [|rewrite Hr; reflexivity].
  rewrite Hb. cbn [bind]. rewrite IH; [reflexivity|].
  inversion Hex as [? ? Hx|]; subst; [congruence|assumption].
Qed.

Lemma index_of_raises_only (x : nat) (a : list nat) :
  (exists i, index_of x a = Ok i) \/ index_of x a = Raise IndexError.
Proof.
  induction a as [|y a IH]; cbn; [auto|].
  destruct (y =? x)%nat; [eauto|].
  destruct IH as [[i ->]| ->]; cbn; eauto.
Qed.

Lemma compute_mrr_total (original compressed : list (list float))
    (k : nat) :
  (length original <= length compressed)%nat ->
  exists v, compute_mrr original compressed k = Ok v.
Proof.
  intros Hn. unfold compute_mrr.
  match goal with
  | |- context [Np.map_result ?f ?l] =>
      destruct (map_result_returns f l) as [rr ->]
  end.
  - apply Forall_forall. intros i Hi. apply elem_of_seq in Hi.
    apply compute_mrr_step_returns; lia.
  - cbn [bind]. eauto.
Qed.

(** The self-referential MRR returns exactly when the compressed set has
    at least as many vectors as the original one; with fewer it raises
    [IndexError]. *)
Theorem compute_mrr_returns (original compressed : list (list float))
    (k : nat) :
  ((length original <= length compressed)%nat ->
   exists v, compute_mrr original compressed k = Ok v) /\
  ((length compressed < length original)%nat ->
   compute_mrr original compressed k = Raise IndexError).
Proof.
  split; [apply compute_mrr_total|].
  unfold compute_mrr. intros Hn.
  rewrite (map_result_raises_only _ _ IndexError); [reflexivity| |].
  - apply Forall_forall. intros i Hi. apply elem_of_seq in Hi.
    destruct (dists_to_returns original i ltac:(lia)) as (d & -> & Hd).
    cbn [bind].
    destruct (Np.np_argmin (<[i:=infinity]> d)) as [a|e] eqn:Ea.
    2:{ destruct d; [cbn in Hd; lia|]. destruct i; discriminate. }
    cbn [bind].
    destruct (Nat.lt_ge_cases i (length compressed)) as [Hi'|Hi'].
    + destruct (dists_to_returns compressed i Hi') as (c & -> & Hc).
      cbn [bind].
      destruct (index_of_raises_only a (np_argsort c)) as [[pos ->]| ->];
        cbn [bind]; eauto.
    + rewrite (dists_to_raises compressed i Hi'). auto.
  - apply Exists_exists. exists (length compressed).
    split; [apply elem_of_seq; lia|].
    destruct (dists_to_returns original (length compressed) Hn)
      as (d & -> & Hd).
    cbn [bind].
    destruct (Np.np_argmin _) as [a|e] eqn:Ea.
    2:{ destruct d; [cbn in Hd; lia|].
        destruct (length compressed); discriminate. }
    cbn [bind]. rewrite dists_to_raises by lia. reflexivity.
Qed.

Lemma compute_recall_step_returns (original compressed : list (list float))
    (k i : nat) :
  (0 < k)%nat ->
  (i < length original)%nat -> (i < length compressed)%nat ->
  exists v,
    (do orig_dists <- dists_to original i;
     let orig_nearest := slice_1_k k (np_argsort orig_dists) in
     do comp_dists <- dists_to compressed i;
     let comp_nearest := slice_1_k k (np_argsort comp_dists) in
     let intersection :=
       size (list_to_set orig_nearest ∩ list_to_set comp_nearest
             : gset nat) in
     if Nat.eqb k 0 then Raise ZeroDivisionError
     else Ok (F64.of_nat intersection / F64.of_nat k)) = Ok v.
Proof.
  intros Hk Hi Hc.
  destruct (dists_to_returns original i Hi) as (d & -> & _). cbn [bind].
  destruct (dists_to_returns compressed i Hc) as (c & -> & _). cbn [bind].
  destruct (Nat.eqb_spec k 0); [lia|]. eauto.
Qed.

(** On two sets of the same size and a cutoff of at least 1 none of the
    three self-referential metrics raises. *)
Theorem metrics_return_on_equal_sizes (np_log2 : float -> float)
    (original compressed : list (list float)) (k : nat) :
  length compressed = length original -> (0 < k)%nat ->
  (exists v, compute_recall_at_k original compressed k = Ok v) /\
  (exists v, compute_mrr original compressed k = Ok v) /\
  (exists v, compute_ndcg np_log2 original compressed k = Ok v).
Proof.
  intros Hn Hk. split; [|split].
  - unfold compute_recall_at_k. destruct (_ <? _)%nat; [eauto|].
    match goal with
    | |- context [Np.map_result ?f ?l] =>
        destruct (map_result_returns f l) as [rr ->]
    end.
    + apply Forall_forall. intros i Hi. apply elem_of_seq in Hi.
      apply compute_recall_step_returns; lia.
    + cbn [bind]. eauto.
  - apply compute_mrr_total. lia.
  - unfold compute_ndcg. destruct (_ <? _)%nat; [eauto|].
    match goal with
    | |- context [Np.map_result ?f ?l] =>
        destruct (map_result_returns f l) as [rr ->]
    end.
    + apply Forall_forall. intros i Hi. apply elem_of_seq in Hi.
      destruct (dists_to_returns original i ltac:(lia)) as (d & -> & _).
      cbn [bind].
      destruct (dists_to_returns compressed i ltac:(lia)) as (c & -> & _).
      cbn [bind]. eauto.
    + cbn [bind]. eauto.
Qed.

(** Recall@0 of non-empty sets divides by the cutoff: [ZeroDivisionError]. *)
Theorem compute_recall_at_zero (original compressed : list (list float)) :
  original <> [] -> compressed <> [] ->
  compute_recall_at_k original compressed 0 = Raise ZeroDivisionError.
Proof.
  intros Ho Hc. unfold compute_recall_at_k.
  destruct original as [|o original]; [congruence|].
  destruct compressed as [|c compressed]; [congruence|].
  reflexivity.
Qed.

End SelfReferential.

(** ** The properties on sample inputs *)

Section CompressionWitnesses.
Import msmarco_run_compression run_real_world_evaluation.
Local Open Scope float_scope.

Lemma compress_baseline_output_witness :
  exists (compressed : list (list float)) (i : info),
    compress_baseline no_KMeans Samples.two_vectors 0.1 5 42 0 1
    = Ok (compressed, i) /\
    length compressed = length Samples.two_vectors.
Proof.
  eexists _, _. split; [vm_compute; reflexivity|].
  edestruct (compress_baseline_output no_KMeans Samples.two_vectors
               0.1 5 42 0 1) as (a & ideal & _ & Hlen & _);
    [vm_compute; reflexivity|].
  exact Hlen.
Defined.

Lemma compress_boundary_aware_output_witness :
  exists (compressed : list (list float)) (i : info),
    compress_boundary_aware no_KMeans Samples.two_vectors 0.1 5 42 0 1
    = Ok (compressed, i) /\
    length compressed = length Samples.two_vectors.
Proof.
  eexists _, _. split; [vm_compute; reflexivity|].
  edestruct (compress_boundary_aware_output no_KMeans Samples.two_vectors
               0.1 5 42 0 1) as (a & ideal & mask & _ & _ & Hlen & _);
    [vm_compute; reflexivity|].
  exact Hlen.
Defined.

Lemma simple_kmeans_compression_output_witness :
  (0 < 1 < Z.of_nat (length Samples.two_vectors))%Z /\
  exists compressed centroids : list (list float),
    simple_kmeans_compression Samples.two_vectors 1 0.1 false
    = Ok (compressed, centroids) /\
    length centroids = Z.to_nat 1 /\
    length compressed = length Samples.two_vectors /\
    Forall (fun row => row ∈ centroids) compressed.
Proof.
  split; [cbn; lia|].
  apply (simple_kmeans_compression_output Samples.two_vectors 1 0.1).
  cbn. lia.
Defined.

Lemma simple_kmeans_compression_no_clusters_witness :
  Samples.two_vectors <> [] /\
  simple_kmeans_compression Samples.two_vectors 0 0.1 true
  = Raise ValueError.
Proof.
  split; [discriminate|].
  apply (simple_kmeans_compression_no_clusters Samples.two_vectors 0.1 true).
  discriminate.
Defined.

End CompressionWitnesses.

Section ExactWitnesses.
Import msmarco_run_compression msmarco_eval_retrieval.
Local Open Scope R_scope.

Lemma exact_points_identity :
  run_kmeans no_KMeans Samples.exact_points 5 42
  = Ok (Samples.exact_points, Samples.exact_points).
Proof. apply run_kmeans_identity. cbn. lia. Qed.

Lemma compress_baseline_nearest_witness :
  exists (compressed : list (list R)) (i : info),
    compress_baseline no_KMeans Samples.exact_points (1 / 10) 5 42 0 1
    = Ok (compressed, i) /\
    exists assigned ideal : list (list R),
      run_kmeans no_KMeans Samples.exact_points 5 42 = Ok (assigned, ideal) /\
      Forall2
        (Nearest.nearest_in
           (extract_unique_vectors (snap_to_grid ideal (1 / 10))
              default_tolerance))
        Samples.exact_points compressed.
Proof.
  destruct (compress_baseline_returns no_KMeans Samples.exact_points
              (1 / 10) 5 42 0 1 _ _ exact_points_identity
              ltac:(discriminate)) as (c & i & E).
  exists c, i. split; [exact E|].
  apply (compress_baseline_nearest no_KMeans Samples.exact_points
           (1 / 10) 5 42 0 1 c i E).
Defined.

Lemma compress_boundary_aware_nearest_witness :
  exists (compressed : list (list R)) (i : info),
    compress_boundary_aware no_KMeans Samples.exact_points (1 / 10) 5 42 0 1
    = Ok (compressed, i) /\
    exists (assigned ideal : list (list R)) (boundary_mask : list bool),
      run_kmeans no_KMeans Samples.exact_points 5 42 = Ok (assigned, ideal) /\
      classify_boundary_vectors Samples.exact_points ideal 10
      = Ok boundary_mask /\
      length compressed = length Samples.exact_points /\
      forall (j : nat) (v row : list R) (b : bool),
        Samples.exact_points !! j = Some v -> boundary_mask !! j = Some b ->
        compressed !! j = Some row ->
        Nearest.nearest_in
          (extract_unique_vectors
             (snap_to_grid ideal
                (if b then 1 / 10 * (1 / 2) else 1 / 10))
             default_tolerance)
          v row.
Proof.
  destruct (compress_boundary_aware_returns no_KMeans Samples.exact_points
              (1 / 10) 5 42 0 1 _ _ ltac:(discriminate)
              exact_points_identity ltac:(discriminate)) as (c & i & E).
  exists c, i. split; [exact E|].
  apply (compress_boundary_aware_nearest no_KMeans Samples.exact_points
           (1 / 10) 5 42 0 1 c i E).
Defined.

Lemma strategies_return_witness :
  Samples.exact_points <> [] /\
  run_kmeans no_KMeans Samples.exact_points 5 42
  = Ok (Samples.exact_points, Samples.exact_points) /\
  (exists (compressed : list (list R)) (i : info),
     compress_baseline no_KMeans Samples.exact_points (1 / 10) 5 42 0 1
     = Ok (compressed, i)) /\
  (exists (compressed : list (list R)) (i : info),
     compress_boundary_aware no_KMeans Samples.exact_points (1 / 10) 5 42
       0 1 = Ok (compressed, i)).
Proof.
  split; [discriminate|]. split; [exact exact_points_identity|].
  apply (strategies_return no_KMeans Samples.exact_points (1 / 10) 5 42 0 1
           Samples.exact_points Samples.exact_points);
    [discriminate|exact exact_points_identity|discriminate].
Defined.

Lemma q1_retrieved_NoDup : NoDup Samples.q1_retrieved.
Proof.
  unfold Samples.q1_retrieved.
  repeat (constructor; [set_solver|]). constructor.
Qed.

Lemma compute_ndcg_at_k_range_witness :
  NoDup Samples.q1_retrieved /\
  0 <= compute_ndcg_at_k (F:=R) Samples.q1_retrieved Samples.q1_relevant 10
    <= 1.
Proof.
  split; [exact q1_retrieved_NoDup|].
  exact (proj1 (compute_ndcg_at_k_range Samples.q1_retrieved
                  Samples.q1_relevant 10 q1_retrieved_NoDup)).
Defined.

End ExactWitnesses.

Section VerdictWitnesses.
Import compare_boundary_aware analyze_validation_results.
Local Open Scope float_scope.

Lemma compute_verdict_skips_unmeasured_witness :
  unmeasured Samples.unmeasured_row = true /\
  compute_verdict
    ([Samples.worse_row] ++ Samples.unmeasured_row :: [Samples.better_row])
  = compute_verdict ([Samples.worse_row] ++ [Samples.better_row]).
Proof.
  split; [vm_compute; reflexivity|].
  apply (compute_verdict_skips_unmeasured [Samples.worse_row]
           [Samples.better_row] Samples.unmeasured_row).
  vm_compute. reflexivity.
Defined.

Lemma compare_methods_lookup_witness :
  Samples.scenario_stats !! "lattice-hybrid"
  = Some (Samples.method_stats 0.50 1.0) /\
  Samples.scenario_stats !! "boundary-aware"
  = Some (Samples.method_stats 0.52 1.1) /\
  compare_methods Samples.scenario_stats !! "mrr"
  = if bool_decide ("mrr" ∈ metrics)
    then compare_metric (Samples.method_stats 0.50 1.0)
           (Samples.method_stats 0.52 1.1) ∅ "mrr" !! "mrr"
    else None.
Proof.
  split; [vm_compute; reflexivity|].
  split; [vm_compute; reflexivity|].
  apply (compare_methods_lookup Samples.scenario_stats
           (Samples.method_stats 0.50 1.0) (Samples.method_stats 0.52 1.1));
    vm_compute; reflexivity.
Defined.

Lemma missing_recall_rejected_witness :
  Samples.mrr_comparison <> ∅ /\
  Samples.mrr_comparison !! "recall_at_10" = None /\
  determine_verdict Samples.mrr_comparison = REJECTED.
Proof.
  assert (Hne : Samples.mrr_comparison <> ∅).
  { intros E. apply (f_equal size) in E. vm_compute in E. discriminate. }
  assert (Hr : Samples.mrr_comparison !! "recall_at_10" = None)
    by (vm_compute; reflexivity).
  split; [exact Hne|]. split; [exact Hr|].
  apply (missing_recall_rejected Samples.mrr_comparison Hne Hr).
Defined.

Lemma zero_baseline_recall_rejected_witness :
  Samples.zero_recall_stats !! "lattice-hybrid"
  = Some (Samples.method_stats 0 1.0) /\
  Samples.zero_recall_stats !! "boundary-aware"
  = Some (Samples.method_stats 0.52 1.1) /\
  Samples.method_stats 0 1.0 !! "recall_at_10" = Some (Samples.stat 0) /\
  Samples.method_stats 0.52 1.1 !! "recall_at_10"
  = Some (Samples.stat 0.52) /\
  (mean (Samples.stat 0) =? 0) = true /\
  get_improvement_pct (compare_methods Samples.zero_recall_stats)
    "recall_at_10" = 0 /\
  determine_verdict (compare_methods Samples.zero_recall_stats) = REJECTED.
Proof.
  split; [vm_compute; reflexivity|]. split; [vm_compute; reflexivity|].
  split; [vm_compute; reflexivity|]. split; [vm_compute; reflexivity|].
  split; [vm_compute; reflexivity|].
  apply (zero_baseline_recall_rejected Samples.zero_recall_stats
           (Samples.method_stats 0 1.0) (Samples.method_stats 0.52 1.1)
           (Samples.stat 0) (Samples.stat 0.52));
    vm_compute; reflexivity.
Defined.

End VerdictWitnesses.

Section SelfReferentialWitnesses.
Import real_world_validation.
Local Open Scope float_scope.

Lemma metrics_return_on_equal_sizes_witness :
  length Samples.line_points = length Samples.line_points /\
  (0 < 1)%nat /\
  (exists v, compute_recall_at_k Samples.line_points Samples.line_points 1
             = Ok v) /\
  (exists v, compute_mrr Samples.line_points Samples.line_points 1 = Ok v) /\
  (exists v, compute_ndcg (fun x => x) Samples.line_points
               Samples.line_points 1 = Ok v).
Proof.
  split; [reflexivity|]. split; [lia|].
  apply (metrics_return_on_equal_sizes (fun x => x) Samples.line_points
           Samples.line_points 1); [reflexivity|lia].
Defined.

Lemma compute_recall_at_zero_witness :
  Samples.line_points <> [] /\ Samples.line_points <> [] /\
  compute_recall_at_k Samples.line_points Samples.line_points 0
  = Raise ZeroDivisionError.
Proof.
  split; [discriminate|]. split; [discriminate|].
  apply (compute_recall_at_zero Samples.line_points Samples.line_points);
    discriminate.
Defined.

End SelfReferentialWitnesses.

(** ** Stability regions *)

Section StabilityRegions.
Import real_world_validation.
Local Open Scope float_scope.

Lemma elem_of_filter_bool {A : Type} (f : A -> bool) (l : list A) (x : A) :
  x ∈ List.filter f l <-> x ∈ l /\ f x = true.
Proof. rewrite !list_elem_of_In. apply filter_In. Qed.

Lemma find_collapse_elem (grid_values : list float) (i : nat)
    (pairs : list (float * float)) (c : float) :
  find_collapse grid_values i pairs = Ok (Some c) -> c ∈ grid_values.
Proof.
  revert i. induction pairs as [|[delta mse] pairs IH]; intros i; cbn;
    [discriminate|].
  destruct ((0.5 <? mse) || (1.0 <? delta)); [|apply IH].
  destruct (grid_values !! i) as [g|] eqn:Hg; [|discriminate].
  intros [= <-]. eapply list_elem_of_lookup_2, Hg.
Qed.

Lemma find_collapse_none (grid_values : list float) (i : nat)
    (pairs : list (float * float)) :
  Forall (fun p => (0.5 <? snd p) = false /\ (1.0 <? fst p) = false) pairs ->
  find_collapse grid_values i pairs = Ok None.
Proof.
  intros Hp. revert i. induction Hp as [|[delta mse] pairs [Hm Hd] _ IH];
    intros i; cbn; [reflexivity|].
  cbn in Hm, Hd. rewrite Hm, Hd. apply IH.
Qed.

(** The three tests of the classification are exclusive and exhaustive
    on numbers when half the threshold is not above the threshold. *)
Lemma region_tests (c g : float) :
  (c * 0.5 <=? c) = true -> F64.isnan g = false ->
  let stable := g <? c * 0.5 in
  let ridge := (c * 0.5 <=? g) && (g <? c) in
  let instability := c <=? g in
  (stable = true /\ ridge = false /\ instability = false) \/
  (stable = false /\ ridge = true /\ instability = false) \/
  (stable = false /\ ridge = false /\ instability = true).
Proof.
  intros Hh Hg. cbv zeta.
  destruct (b64_leb_notnan _ _ Hh) as [Hhn Hcn].
  rewrite (b64_ltb_negb_leb g (c * 0.5) Hg Hhn).
  rewrite (b64_ltb_negb_leb g c Hg Hcn).
  destruct (c * 0.5 <=? g) eqn:E1; cbn.
  - destruct (c <=? g); cbn; auto.
  - left. split; [reflexivity|]. split; [reflexivity|].
    destruct (c <=? g) eqn:E2; [|reflexivity].
    pose proof (b64_leb_trans _ _ _ Hh E2). congruence.
Qed.

(** Without a delta there is no minimum to report: [ValueError], whatever
    the grid and the MSE values. *)
Theorem detect_stability_regions_no_delta (grid_values mse_values : list float) :
  detect_stability_regions grid_values [] mse_values = Raise ValueError.
Proof. reflexivity. Qed.

(** When no point meets the collapse criteria (an MSE above 0.5 or a delta
    above 1.0) there is no collapse threshold and every grid value is
    stable. *)
Theorem no_collapse_all_stable
    (grid_values delta_boundary_values mse_values : list float) :
  delta_boundary_values <> [] ->
  Forall (fun p => (0.5 <? snd p) = false /\ (1.0 <? fst p) = false)
    (combine delta_boundary_values mse_values) ->
  exists r : stability_regions,
    detect_stability_regions grid_values delta_boundary_values mse_values
    = Ok r /\
    collapse_threshold r = None /\
    stable_region r = grid_values /\
    ridge_region r = [] /\ instability_region r = [].
Proof.
  intros Hne Hp. unfold detect_stability_regions.
  rewrite (find_collapse_none _ _ _ Hp). cbn [bind].
  destruct delta_boundary_values as [|d ds]; [congruence|].
  cbn [F64.np_min F64.np_max bind].
  eexists. split; [reflexivity|]. cbn. auto.
Qed.

(** With a collapse threshold [c] whose half is not above it (as for
    every non-negative step), and grid values that are numbers: the
    threshold is a grid value and lies in the instability region, and
    every grid value lies in exactly one of the three regions. *)
Theorem regions_partition
    (grid_values delta_boundary_values mse_values : list float)
    (r : stability_regions) (c : float) :
  detect_stability_regions grid_values delta_boundary_values mse_values
  = Ok r ->
  collapse_threshold r = Some c ->
  (c * 0.5 <=? c) = true ->
  Forall (fun g => F64.isnan g = false) grid_values ->
  c ∈ grid_values /\ c ∈ instability_region r /\
  forall g : float,
    g ∈ grid_values ->
    (g ∈ stable_region r /\ (g ∉ ridge_region r) /\
     (g ∉ instability_region r)) \/
    ((g ∉ stable_region r) /\ g ∈ ridge_region r /\
     (g ∉ instability_region r)) \/
    ((g ∉ stable_region r) /\ (g ∉ ridge_region r) /\
     g ∈ instability_region r).
Proof.
  unfold detect_stability_regions. intros Hr Hc Hh Hnan.
  destruct (find_collapse grid_values 0
              (combine delta_boundary_values mse_values))
    as [[c'|]|e] eqn:Ef; cbn [bind] in Hr; try discriminate.
  - destruct (F64.np_min _) as [mn|e]; cbn [bind] in Hr; [|discriminate].
    destruct (F64.np_max _) as [mx|e]; cbn [bind] in Hr; [|discriminate].
    injection Hr as <-. cbn in Hc. injection Hc as ->.
    cbn [stable_region ridge_region instability_region].
    pose proof (find_collapse_elem _ _ _ _ Ef) as Hin.
    assert (Hcn : F64.isnan c = false)
      by (eapply Forall_forall in Hnan; eauto).
    split; [exact Hin|]. split.
    { apply elem_of_filter_bool. split; [exact Hin|].
      apply b64_leb_refl, Hcn. }
    intros g Hg.
    assert (Hgn : F64.isnan g = false)
      by (eapply Forall_forall in Hnan; eauto).
    rewrite !elem_of_filter_bool.
    destruct (region_tests c g Hh Hgn) as [(H1 & H2 & H3)|[(H1 & H2 & H3)|(H1 & H2 & H3)]];
      rewrite H1, H2, H3; [left|right; left|right; right];
      intuition congruence.
  - destruct (F64.np_min _) as [mn|e]; cbn [bind] in Hr; [|discriminate].
    destruct (F64.np_max _) as [mx|e]; cbn [bind] in Hr; [|discriminate].
    injection Hr as <-. discriminate Hc.
Qed.

Lemma no_collapse_all_stable_witness :
  Samples.sweep_deltas <> [] /\
  Forall (fun p => (0.5 <? snd p) = false /\ (1.0 <? fst p) = false)
    (combine Samples.sweep_deltas Samples.sweep_small_mse) /\
  exists r : stability_regions,
    detect_stability_regions Samples.sweep_steps Samples.sweep_deltas
      Samples.sweep_small_mse = Ok r /\
    collapse_threshold r = None /\
    stable_region r = Samples.sweep_steps /\
    ridge_region r = [] /\ instability_region r = [].
Proof.
  assert (Hp : Forall
                 (fun p => (0.5 <? snd p) = false /\ (1.0 <? fst p) = false)
                 (combine Samples.sweep_deltas Samples.sweep_small_mse))
    by (repeat constructor).
  split; [discriminate|]. split; [exact Hp|].
  apply (no_collapse_all_stable Samples.sweep_steps Samples.sweep_deltas
           Samples.sweep_small_mse); [discriminate|exact Hp].
Defined.

Lemma regions_partition_witness :
  exists r : stability_regions,
    detect_stability_regions Samples.sweep_steps Samples.sweep_large_deltas
      Samples.sweep_mse = Ok r /\
    collapse_threshold r = Some 0.3 /\
    (0.3 * 0.5 <=? 0.3) = true /\
    Forall (fun g => F64.isnan g = false) Samples.sweep_steps /\
    0.3 ∈ instability_region r.
Proof.
  eexists. split; [vm_compute; reflexivity|].
  split; [reflexivity|]. split; [reflexivity|].
  assert (Hn : Forall (fun g => F64.isnan g = false) Samples.sweep_steps)
    by (repeat constructor).
  split; [exact Hn|].
  edestruct (regions_partition Samples.sweep_steps
               Samples.sweep_large_deltas Samples.sweep_mse)
    as (_ & Hin & _); [vm_compute; reflexivity|reflexivity|reflexivity
                      |exact Hn|].
  exact Hin.
Defined.

End StabilityRegions.

(** ** The comparison table *)

Section ComparisonTable.
Import compare_boundary_aware.
Local Open Scope float_scope.

Lemma set_add_invariant (l acc : list float) :
  Forall (fun x => F64.isnan x = false) (acc ++ l) ->
  StronglySorted (fun a b => (a =? b) = false) acc ->
  let s := fold_left set_add l acc in
  StronglySorted (fun a b => (a =? b) = false) s /\
  Forall (fun x => F64.isnan x = false) s /\
  (forall x, x ∈ s -> x ∈ acc ++ l) /\
  (forall x, x ∈ acc ++ l -> exists y, y ∈ s /\ (y =? x) = true).
Proof.
  revert acc. induction l as [|x l IH]; intros acc Hnan Hd;
    cbn [fold_left].
  - cbv zeta. rewrite app_nil_r in *. repeat split; auto.
    intros x Hx. exists x. split; [exact Hx|].
    apply b64_eqb_refl. eapply Forall_forall in Hnan; eauto.
  - assert (Hx : F64.isnan x = false).
    { eapply Forall_forall in Hnan; [exact Hnan|].
      apply elem_of_app. right. left. }
    cbv zeta.
    destruct (existsb (fun y => y =? x) acc) eqn:Ex.
    + replace (set_add acc x) with acc
        by (unfold set_add; rewrite Ex; reflexivity).
      destruct (IH acc) as (H1 & H2 & H3 & H4); [|exact Hd|].
      { apply Forall_app in Hnan as [Ha Hl]. apply Forall_app.
        split; [exact Ha|]. inversion Hl; assumption. }
      split; [exact H1|]. split; [exact H2|]. split.
      * intros y Hy. apply H3 in Hy. apply elem_of_app in Hy as [Hy|Hy];
          apply elem_of_app; [left|right; right]; exact Hy.
      * intros y Hy. apply elem_of_app in Hy as [Hy|Hy].
        -- apply H4. apply elem_of_app. left. exact Hy.
        -- apply elem_of_cons in Hy as [->|Hy].
           ++ apply existsb_exists in Ex as (z & Hz & Hzx).
              apply list_elem_of_In in Hz.
              destruct (H4 z) as (w & Hw & Hwz);
                [apply elem_of_app; left; exact Hz|].
              exists w. split; [exact Hw|].
              eapply b64_eqb_trans; eauto.
           ++ apply H4. apply elem_of_app. right. exact Hy.
    + replace (set_add acc x) with (acc ++ [x])
        by (unfold set_add; rewrite Ex; reflexivity).
      destruct (IH (acc ++ [x])) as (H1 & H2 & H3 & H4).
      { rewrite <- app_assoc. exact Hnan. }
      { apply StronglySorted_app. split; [|split; [exact Hd|]].
        - intros a b Ha Hb. apply list_elem_of_singleton in Hb as ->.
          destruct (a =? x) eqn:E; [|reflexivity].
          assert (existsb (fun y => y =? x) acc = true); [|congruence].
          apply existsb_exists. exists a.
          split; [apply list_elem_of_In, Ha|exact E].
        - repeat constructor. }
      split; [exact H1|]. split; [exact H2|]. split.
      * intros y Hy. apply H3 in Hy. rewrite <- app_assoc in Hy. exact Hy.
      * intros y Hy. apply H4. rewrite <- app_assoc. exact Hy.
Qed.

Lemma filter_filter_implied {A : Type} (p q : A -> bool) (l : list A) :
  (forall x, x ∈ l -> p x = true -> q x = true) ->
  List.filter p (List.filter q l) = List.filter p l.
Proof.
  induction l as [|x l IH]; intros Hpq; [reflexivity|]. cbn.
  assert (Hl : forall y, y ∈ l -> p y = true -> q y = true)
    by (intros y Hy; apply Hpq; right; exact Hy).
  destruct (q x) eqn:Eq; cbn.
  - destruct (p x); rewrite IH by exact Hl; reflexivity.
  - destruct (p x) eqn:Ep; [|apply IH, Hl].
    rewrite (Hpq x) in Eq by (try left; assumption). discriminate.
Qed.

Lemma unmeasured_not_comparable (r : row) :
  unmeasured r = true ->
  comparable (baseline_mse_global r) (boundary_mse_global r) = false /\
  comparable (baseline_mse_boundary r) (boundary_mse_boundary r) = false /\
  comparable (baseline_delta r) (boundary_delta r) = false /\
  comparable (baseline_knn r) (boundary_knn r) = false /\
  comparable (baseline_lsi r) (boundary_lsi r) = false.
Proof.
  unfold unmeasured. rewrite !andb_true_iff, !negb_true_iff. tauto.
Qed.

(** Rows in which nothing was measured on both sides can be dropped. *)
Lemma compute_verdict_filter (keep : row -> bool) (rows : list row) :
  (forall r, r ∈ rows -> keep r = false -> unmeasured r = true) ->
  compute_verdict rows = compute_verdict (List.filter keep rows).
Proof.
  intros Hk. symmetry. apply compute_verdict_of_counts.
  - unfold improved_counts, improved_rows.
    f_equal; f_equal; apply filter_filter_implied; intros r Hr Hp;
      (destruct (keep r) eqn:E; [reflexivity|]);
      destruct (unmeasured_not_comparable r (Hk r Hr E))
        as (H1 & H2 & H3 & H4 & H5);
      rewrite ?H1, ?H2, ?H3, ?H4, ?H5 in Hp; discriminate.
  - unfold compared_rows. f_equal. apply filter_filter_implied.
    intros r Hr Hp. destruct (keep r) eqn:E; [reflexivity|].
    destruct (unmeasured_not_comparable r (Hk r Hr E)) as (H1 & _).
    congruence.
Qed.

Lemma comparable_nan_l (x : float) : comparable nan x = false.
Proof. reflexivity. Qed.

Lemma comparable_nan_r (x : float) : comparable x nan = false.
Proof. unfold comparable. cbn. apply andb_false_r. Qed.

(** A grid value swept by only one of the two runs gives a row in which
    nothing is measured on both sides, so the verdict on the table is the
    verdict on its rows for the grid values both runs swept. *)
Theorem one_sided_grids_do_not_count
    (baseline_metrics boundary_metrics : by_grid (gmap string float)) :
  let rows := compute_comparison_table baseline_metrics boundary_metrics in
  (forall r, r ∈ rows ->
     has_grid baseline_metrics (grid r) = false \/
     has_grid boundary_metrics (grid r) = false ->
     unmeasured r = true) /\
  compute_verdict rows
  = compute_verdict
      (List.filter
         (fun r => has_grid baseline_metrics (grid r)
                   && has_grid boundary_metrics (grid r))
         rows).
Proof.
  intros rows.
  assert (Hun : forall r, r ∈ rows ->
            has_grid baseline_metrics (grid r) = false \/
            has_grid boundary_metrics (grid r) = false ->
            unmeasured r = true).
  { intros r Hr Hside. subst rows. unfold compute_comparison_table in Hr.
    apply list_elem_of_fmap in Hr as (g & -> & _).
    cbn [grid] in Hside. unfold has_grid in Hside. unfold unmeasured.
    cbn [baseline_mse_global boundary_mse_global baseline_mse_boundary
         boundary_mse_boundary baseline_delta boundary_delta baseline_knn
         boundary_knn baseline_lsi boundary_lsi].
    destruct Hside as [Hs|Hs].
    - destruct (grid_lookup g baseline_metrics); [discriminate|].
      cbn [default]. unfold get_nan. rewrite !lookup_empty. cbn [default].
      rewrite !comparable_nan_l. reflexivity.
    - destruct (grid_lookup g boundary_metrics); [discriminate|].
      cbn [default]. unfold get_nan. rewrite !lookup_empty. cbn [default].
      rewrite !comparable_nan_r. reflexivity. }
  split; [exact Hun|].
  apply compute_verdict_filter. intros r Hr Hk. apply (Hun r Hr).
  apply andb_false_iff in Hk. exact Hk.
Qed.

Lemma grid_lookup_some {V : Type} (g : float) (d : by_grid V) :
  (exists g', g' ∈ map fst d /\ (g' =? g) = true) ->
  has_grid d g = true.
Proof.
  unfold has_grid. induction d as [|[g0 v] d IH]; cbn.
  - intros (g' & Hg & _). inversion Hg.
  - intros (g' & Hg & Heq). destruct (g0 =? g) eqn:E; [reflexivity|].
    apply IH. apply elem_of_cons in Hg as [->|Hg]; [congruence|eauto].
Qed.

(** On dictionaries whose keys are numbers the table has one row per
    distinct grid value of either run, in strictly ascending order. *)
Theorem comparison_table_grids
    (baseline_metrics boundary_metrics : by_grid (gmap string float)) :
  Forall (fun g => F64.isnan g = false)
    (map fst baseline_metrics ++ map fst boundary_metrics) ->
  let rows := compute_comparison_table baseline_metrics boundary_metrics in
  StronglySorted (fun a b => (a <? b) = true) (map grid rows) /\
  (forall r, r ∈ rows ->
     grid r ∈ map fst baseline_metrics ++ map fst boundary_metrics) /\
  (forall g, g ∈ map fst baseline_metrics ++ map fst boundary_metrics ->
     exists r, r ∈ rows /\ (grid r =? g) = true).
Proof.
  intros Hnan rows. subst rows. unfold compute_comparison_table.
  set (keys := map fst baseline_metrics ++ map fst boundary_metrics) in *.
  destruct (set_add_invariant keys [] Hnan ltac:(constructor))
    as (Hd & Hn & Hsub & Hcov).
  cbv zeta in Hd, Hn, Hsub, Hcov. cbn [app] in Hsub, Hcov.
  set (s := fold_left set_add keys []) in *.
  rewrite map_map. cbn [grid]. rewrite map_id.
  split; [apply F64_np_sort_strict; assumption|]. split.
  - intros r Hr. apply list_elem_of_fmap in Hr as (g & -> & Hg).
    cbn [grid]. apply Hsub. rewrite F64_np_sort_perm in Hg. exact Hg.
  - intros g Hg. destruct (Hcov g Hg) as (y & Hy & Heq).
    eexists. split.
    + apply list_elem_of_fmap. exists y. split; [reflexivity|].
      rewrite F64_np_sort_perm. exact Hy.
    + exact Heq.
Qed.

Lemma comparison_table_grids_witness :
  Forall (fun g => F64.isnan g = false)
    (map fst Samples.baseline_by_grid ++ map fst Samples.boundary_by_grid) /\
  StronglySorted (fun a b => (a <? b) = true)
    (map grid
       (compute_comparison_table Samples.baseline_by_grid
          Samples.boundary_by_grid)).
Proof.
  assert (Hn : Forall (fun g => F64.isnan g = false)
                 (map fst Samples.baseline_by_grid
                  ++ map fst Samples.boundary_by_grid))
    by (repeat constructor).
  split; [exact Hn|].
  exact (proj1 (comparison_table_grids Samples.baseline_by_grid
                  Samples.boundary_by_grid Hn)).
Defined.

End ComparisonTable.

(** ** Metrics grouped by grid value *)

Section GridUpdate.
Import compare_boundary_aware.
Local Open Scope float_scope.
Context {V : Type}.

Lemma grid_update_split (g : float) (init : V) (f : V -> V) (d : by_grid V) :
  (Forall (fun e => (fst e =? g) = false) d /\
   grid_update g init f d = d ++ [(g, f init)]) \/
  exists d1 g' v d2,
    d = d1 ++ (g', v) :: d2 /\
    Forall (fun e => (fst e =? g) = false) d1 /\
    (g' =? g) = true /\
    grid_update g init f d = d1 ++ (g', f v) :: d2.
Proof.
  induction d as [|[g' v] d IH]; cbn.
  - left. split; [constructor|reflexivity].
  - destruct (g' =? g) eqn:E.
    + right. exists [], g', v, d. cbn. auto.
    + destruct IH as [[Hall ->]|(d1 & g'' & v' & d2 & -> & Hall & Hg & ->)].
      * left. split; [constructor; assumption|reflexivity].
      * right. exists ((g', v) :: d1), g'', v', d2. cbn.
        repeat split; auto.
Qed.

End GridUpdate.

Section GroupedMetrics.
Import compare_boundary_aware.
Local Open Scope float_scope.

Lemma fmap_app_nil (o : option (list float)) :
  (fun l => l ++ []) <$> o = o.
Proof. destruct o as [l|]; cbn; [rewrite app_nil_r|]; reflexivity. Qed.

(** One round of the loop over the five averaged metrics. *)
Lemma accumulate_step_lookup (metrics : gmap string (option float))
    (lists : gmap string (list float)) (metric k : string) :
  match metrics !! metric with
  | Some (Some v) =>
      if negb (F64.isnan v)
      then alter (fun l => l ++ [v]) metric lists else lists
  | _ => lists
  end !! k
  = if bool_decide (k = metric)
    then (fun l =>
            l ++ match metrics !! metric with
                 | Some (Some v) => if F64.isnan v then [] else [v]
                 | _ => []
                 end) <$> lists !! k
    else lists !! k.
Proof.
  case_bool_decide as Hk.
  - subst k. destruct (metrics !! metric) as [[v|]|];
      rewrite ?fmap_app_nil; try reflexivity.
    destruct (F64.isnan v); cbn [negb];
      [rewrite fmap_app_nil; reflexivity|apply lookup_alter_eq].
  - destruct (metrics !! metric) as [[v|]|]; try reflexivity.
    destruct (F64.isnan v); cbn [negb]; [reflexivity|].
    apply lookup_alter_ne. congruence.
Qed.

Lemma accumulate_fold_lookup (metrics : gmap string (option float))
    (ms : list string) (lists : gmap string (list float)) (k : string) :
  NoDup ms ->
  fold_left
    (fun lists metric =>
       match metrics !! metric with
       | Some (Some v) =>
           if negb (F64.isnan v)
           then alter (fun l => l ++ [v]) metric lists else lists
       | _ => lists
       end) ms lists !! k
  = if bool_decide (k ∈ ms)
    then (fun l =>
            l ++ match metrics !! k with
                 | Some (Some v) => if F64.isnan v then [] else [v]
                 | _ => []
                 end) <$> lists !! k
    else lists !! k.
Proof.
  intros Hnd. revert lists.
  induction Hnd as [|m ms Hm Hnd IH]; intros lists.
  - cbn. rewrite bool_decide_false by apply not_elem_of_nil. reflexivity.
  - cbn [fold_left]. rewrite IH, accumulate_step_lookup.
    destruct (decide (k = m)) as [->|Hne].
    + rewrite (bool_decide_true (m = m)) by reflexivity.
      rewrite (bool_decide_false (m ∈ ms)) by exact Hm.
      rewrite (bool_decide_true (m ∈ m :: ms)) by left. reflexivity.
    + rewrite (bool_decide_false (k = m)) by exact Hne.
      destruct (decide (k ∈ ms)) as [Hin|Hout].
      * rewrite !bool_decide_true; [reflexivity|right; exact Hin|exact Hin].
      * rewrite !bool_decide_false; [reflexivity| |exact Hout].
        intros Hc. apply elem_of_cons in Hc as [?|?]; contradiction.
Qed.

Lemma accumulate_lookup (metrics : gmap string (option float))
    (lists : gmap string (list float)) (metric : string) :
  accumulate metrics lists !! metric
  = (fun l => l ++ contribution metric metrics) <$> lists !! metric.
Proof.
  unfold accumulate, contribution.
  set (five := ["mse_global"; "mse_boundary"; "mse_bulk";
                "delta_boundary"; "lsi"]).
  assert (Hnd : NoDup five).
  { subst five. repeat (constructor; [set_solver|]). constructor. }
  assert (Hk : "knn_overlap" ∉ five) by (subst five; set_solver).
  pose proof (accumulate_fold_lookup metrics five lists metric Hnd) as Hf.
  destruct (decide (metric = "knn_overlap")) as [->|Hknn].
  - rewrite (bool_decide_true ("knn_overlap" = "knn_overlap")) by reflexivity.
    rewrite bool_decide_false in Hf by exact Hk.
    destruct (metrics !! "neighborhoodOverlap") as [[v|]|];
      rewrite ?fmap_app_nil; try exact Hf.
    rewrite lookup_alter_eq, Hf. reflexivity.
  - rewrite (bool_decide_false (metric = "knn_overlap")) by exact Hknn.
    assert (Hg : forall v : float,
               alter (fun l => l ++ [v]) "knn_overlap"
                 (fold_left
                    (fun lists metric =>
                       match metrics !! metric with
                       | Some (Some v) =>
                           if negb (F64.isnan v)
                           then alter (fun l => l ++ [v]) metric lists
                           else lists
                       | _ => lists
                       end) five lists) !! metric
               = fold_left
                   (fun lists metric =>
                      match metrics !! metric with
                      | Some (Some v) =>
                          if negb (F64.isnan v)
                          then alter (fun l => l ++ [v]) metric lists
                          else lists
                      | _ => lists
                      end) five lists !! metric).
    { intros v. apply lookup_alter_ne. congruence. }
    destruct (metrics !! "neighborhoodOverlap") as [[v|]|];
      rewrite ?Hg, Hf; case_bool_decide; rewrite ?fmap_app_nil; reflexivity.
Qed.

Lemma empty_lists_lookup (metric : string) :
  empty_lists !! metric
  = if bool_decide (metric ∈ averaged_metrics) then Some [] else None.
Proof.
  unfold empty_lists, averaged_metrics.
  cbn [list_to_map foldr uncurry fst snd].
  rewrite !lookup_insert, lookup_empty.
  repeat (destruct (decide _) as [<-|?];
          [rewrite bool_decide_true by set_solver; reflexivity|]).
  rewrite bool_decide_false; [reflexivity|set_solver].
Qed.

Lemma contribution_outside (metric : string)
    (metrics : gmap string (option float)) :
  metric ∉ averaged_metrics -> contribution metric metrics = [].
Proof.
  unfold averaged_metrics, contribution. intros Hm.
  rewrite bool_decide_false by set_solver.
  rewrite bool_decide_false by set_solver. reflexivity.
Qed.

Lemma collect_metrics_snoc (points : list point) (p : point) :
  collect_metrics (points ++ [p])
  = match point_grid p with
    | None => collect_metrics points
    | Some grid =>
        grid_update grid empty_lists (accumulate (point_metrics p))
          (collect_metrics points)
    end.
Proof. unfold collect_metrics. rewrite fold_left_app. reflexivity. Qed.

Lemma values_at_snoc (g : float) (metric : string) (points : list point)
    (p : point) :
  values_at g metric (points ++ [p])
  = values_at g metric points
    ++ match point_grid p with
       | Some g' =>
           if g =? g' then contribution metric (point_metrics p) else []
       | None => []
       end.
Proof.
  unfold values_at, points_at. rewrite List.filter_app, flat_map_app.
  f_equal. cbn. destruct (point_grid p) as [g'|]; [|reflexivity].
  destruct (g =? g'); cbn; [apply app_nil_r|reflexivity].
Qed.

Lemma values_at_none (g : float) (metric : string) (points : list point) :
  (forall q g', q ∈ points -> point_grid q = Some g' -> (g =? g') = false) ->
  values_at g metric points = [].
Proof.
  intros Hnone. unfold values_at, points_at.
  replace (List.filter _ points) with (@nil point); [reflexivity|].
  symmetry. induction points as [|q points IH]; [reflexivity|]. cbn.
  destruct (point_grid q) as [g'|] eqn:Eq.
  - rewrite (Hnone q g') by (try left; auto).
    apply IH. intros q' g'' Hq'. apply Hnone. right. exact Hq'.
  - apply IH. intros q' g'' Hq'. apply Hnone. right. exact Hq'.
Qed.

Lemma collect_metrics_invariant (points : list point) :
  Forall (fun p => forall g, point_grid p = Some g -> F64.isnan g = false)
    points ->
  let d := collect_metrics points in
  StronglySorted (fun a b => (a =? b) = false) (map fst d) /\
  Forall (fun e =>
            F64.isnan (fst e) = false /\
            (exists p, p ∈ points /\ point_grid p = Some (fst e)) /\
            forall metric,
              snd e !! metric
              = if bool_decide (metric ∈ averaged_metrics)
                then Some (values_at (fst e) metric points) else None) d /\
  Forall (fun p => forall g, point_grid p = Some g ->
                   exists e, e ∈ d /\ (fst e =? g) = true) points.
Proof.
  induction points as [|p points IH] using rev_ind; intros Hnan d.
  - subst d. cbn. repeat split; constructor.
  - apply Forall_app in Hnan as [Hnan Hp]. apply Forall_inv in Hp.
    specialize (IH Hnan). cbv zeta in IH. destruct IH as (Hd & He & Hc).
    subst d. rewrite collect_metrics_snoc.
    set (d := collect_metrics points) in *.
    assert (Hkeep : forall e : float * gmap string (list float),
              (F64.isnan (fst e) = false /\
               (exists q, q ∈ points /\ point_grid q = Some (fst e)) /\
               forall metric,
                 snd e !! metric
                 = if bool_decide (metric ∈ averaged_metrics)
                   then Some (values_at (fst e) metric points) else None) ->
              (forall g, point_grid p = Some g -> (fst e =? g) = false) ->
              F64.isnan (fst e) = false /\
              (exists q, q ∈ points ++ [p] /\ point_grid q = Some (fst e)) /\
              forall metric,
                snd e !! metric
                = if bool_decide (metric ∈ averaged_metrics)
                  then Some (values_at (fst e) metric (points ++ [p]))
                  else None).
    { intros e (Hen & (q & Hq & Hqe) & Hs) Hne. split; [exact Hen|]. split.
      { exists q. split; [apply elem_of_app; auto|exact Hqe]. }
      intros metric. rewrite Hs, values_at_snoc.
      destruct (point_grid p) as [g|]; [|rewrite app_nil_r; reflexivity].
      rewrite (Hne g eq_refl), app_nil_r. reflexivity. }
    destruct (point_grid p) as [g|] eqn:Eg.
    2:{ split; [exact Hd|]. split.
        - eapply Forall_impl; [exact He|]. intros e Hprop.
          apply Hkeep; [exact Hprop|intros ? [=]].
        - apply Forall_app. split; [exact Hc|].
          constructor; [intros g0 Hg0; congruence|constructor]. }
    assert (Hg : F64.isnan g = false) by (apply Hp; reflexivity).
    destruct (grid_update_split g empty_lists
                (accumulate (point_metrics p)) d)
      as [[Hall ->]|(d1 & g' & v & d2 & Ed & Hall & Hgg & ->)].
    + (* a new grid value *)
      assert (Hnone : forall q g', q ∈ points -> point_grid q = Some g' ->
                                   (g =? g') = false).
      { intros q g' Hq Hqg. eapply Forall_forall in Hc; [|exact Hq].
        destruct (Hc g' Hqg) as (e & He' & Heq).
        eapply Forall_forall in Hall; [|exact He'].
        destruct (g =? g') eqn:E; [|reflexivity].
        rewrite b64_eqb_sym in E.
        pose proof (b64_eqb_trans _ _ _ Heq E). congruence. }
      split; [|split].
      * rewrite map_app. cbn. apply StronglySorted_app.
        split; [|split; [exact Hd|repeat constructor]].
        intros a b Ha Hb. apply list_elem_of_singleton in Hb as ->.
        apply list_elem_of_fmap in Ha as (e & -> & He').
        eapply Forall_forall in Hall; eauto.
      * apply Forall_app. split.
        -- eapply Forall_impl.
           { apply Forall_and. split; [exact He|exact Hall]. }
           cbn. intros e [Hprop Hne]. apply Hkeep; [exact Hprop|].
           intros g0 [= <-]. exact Hne.
        -- constructor; [|constructor]. cbn [fst snd].
           split; [exact Hg|]. split.
           { exists p. split; [apply elem_of_app; right; left|exact Eg]. }
           intros metric.
           rewrite accumulate_lookup, empty_lists_lookup, values_at_snoc.
           rewrite Eg, (b64_eqb_refl _ Hg).
           rewrite (values_at_none g metric points Hnone).
           case_bool_decide; reflexivity.
      * apply Forall_app. split.
        -- eapply Forall_impl; [exact Hc|]. cbn. intros q Hq g0 Hg0.
           destruct (Hq g0 Hg0) as (e & He' & Heq).
           exists e. split; [apply elem_of_app; auto|exact Heq].
        -- constructor; [|constructor]. intros g0 Hg0.
           assert (g0 = g) by congruence. subst g0.
           eexists. split; [apply elem_of_app; right; left|].
           cbn. apply b64_eqb_refl, Hg.
    + (* a grid value seen before *)
      rewrite Ed in Hd, He, Hc.
      rewrite map_app in Hd. cbn [map fst] in Hd.
      apply Forall_app in He as [He1 He2].
      inversion He2 as [|? ? (Hgn & (q0 & Hq0 & Hq0g) & Hv) He3]; subst.
      cbn [fst snd] in *.
      assert (Hother : Forall (fun e => (fst e =? g) = false) d2).
      { pose proof (proj1 (StronglySorted_app _ _ _) Hd) as (_ & _ & Hd2).
        inversion Hd2 as [|? ? _ Hg2]; subst.
        apply Forall_fmap in Hg2. eapply Forall_impl; [exact Hg2|].
        cbn. intros e Hne. destruct (fst e =? g) eqn:E; [|reflexivity].
        rewrite b64_eqb_sym in E.
        pose proof (b64_eqb_trans _ _ _ Hgg E). congruence. }
      split; [|split].
      * rewrite map_app. cbn [map fst]. exact Hd.
      * apply Forall_app. split.
        -- eapply Forall_impl.
           { apply Forall_and. split; [exact He1|exact Hall]. }
           cbn. intros e [Hprop Hne]. apply Hkeep; [exact Hprop|].
           intros g0 [= <-]. exact Hne.
        -- constructor.
           { cbn [fst snd]. split; [exact Hgn|]. split.
             { exists q0. split; [apply elem_of_app; auto|exact Hq0g]. }
             intros metric.
             rewrite accumulate_lookup, Hv, values_at_snoc, Eg, Hgg.
             case_bool_decide as Hm; [reflexivity|].
             reflexivity. }
           eapply Forall_impl.
           { apply Forall_and. split; [exact He3|exact Hother]. }
           cbn. intros e [Hprop Hne]. apply Hkeep; [exact Hprop|].
           intros g0 [= <-]. exact Hne.
      * apply Forall_app. split.
        -- eapply Forall_impl; [exact Hc|]. cbn. intros q Hq g0 Hg0.
           destruct (Hq g0 Hg0) as (e & He' & Heq).
           apply elem_of_app in He' as [He'|He'].
           { exists e. split; [apply elem_of_app; auto|exact Heq]. }
           apply elem_of_cons in He' as [->|He'].
           { eexists. split; [apply elem_of_app; right; left|exact Heq]. }
           exists e. split; [|exact Heq].
           apply elem_of_app. right. right. exact He'.
        -- constructor; [|constructor]. intros g0 Hg0.
           assert (g0 = g) by congruence. subst g0.
           eexists. split; [apply elem_of_app; right; left|exact Hgg].
Qed.

(** On points whose grid values are numbers: the averaged metrics hold
    every distinct grid value once; each grid value of a point is a key;
    and under a key each of the six metrics is the average of the values
    measured at that grid value ([nan] when there is none), a missing,
    null or (but for the k-NN overlap) [nan] measurement being left
    out. *)
Theorem extract_metrics_by_grid_spec (points : list point) :
  Forall (fun p => forall g, point_grid p = Some g -> F64.isnan g = false)
    points ->
  let averaged := extract_metrics_by_grid points in
  StronglySorted (fun a b => (a =? b) = false) (map fst averaged) /\
  (forall p g, p ∈ points -> point_grid p = Some g ->
               has_grid averaged g = true) /\
  forall g m,
    (g, m) ∈ averaged ->
    (exists p, p ∈ points /\ point_grid p = Some g) /\
    forall metric,
      m !! metric
      = if bool_decide (metric ∈ averaged_metrics)
        then Some (average (values_at g metric points)) else None.
Proof.
  intros Hnan averaged.
  destruct (collect_metrics_invariant points Hnan) as (Hd & He & Hc).
  cbv zeta in Hd, He, Hc.
  assert (Hkeys : map fst averaged = map fst (collect_metrics points)).
  { subst averaged. unfold extract_metrics_by_grid. rewrite map_map.
    apply map_ext. intros [g lists]. reflexivity. }
  split; [rewrite Hkeys; exact Hd|]. split.
  - intros p g Hp Hg. apply grid_lookup_some.
    eapply Forall_forall in Hc; [|exact Hp].
    destruct (Hc g Hg) as (e & He' & Heq). exists (fst e).
    split; [|exact Heq]. rewrite Hkeys. apply list_elem_of_fmap. eauto.
  - intros g m Hgm. subst averaged. unfold extract_metrics_by_grid in Hgm.
    apply list_elem_of_fmap in Hgm as ([g' lists] & [= -> ->] & Hin).
    eapply Forall_forall in He; [|exact Hin].
    destruct He as (_ & Hp & Hs). cbn [fst snd] in *.
    split; [exact Hp|]. intros metric.
    rewrite lookup_fmap, Hs. case_bool_decide; reflexivity.
Qed.

Lemma extract_metrics_by_grid_spec_witness :
  Forall (fun p => forall g, point_grid p = Some g -> F64.isnan g = false)
    Samples.result_points /\
  StronglySorted (fun a b => (a =? b) = false)
    (map fst (extract_metrics_by_grid Samples.result_points)).
Proof.
  assert (Hn : Forall (fun p => forall g, point_grid p = Some g ->
                                          F64.isnan g = false)
                 Samples.result_points).
  { repeat constructor; cbn; intros g Hg; try discriminate Hg;
      injection Hg as <-; reflexivity. }
  split; [exact Hn|].
  exact (proj1 (extract_metrics_by_grid_spec Samples.result_points Hn)).
Defined.

End GroupedMetrics.

(** ** Aggregation by method *)

Section Aggregation.
Import analyze_validation_results.
Local Open Scope float_scope.

Implicit Type by_method : gmap string (gmap string (list float)).

Lemma append_value_collected by_method (m k : string) (x : float)
    (m' k' : string) :
  collected (append_value m k x by_method) m' k'
  = if bool_decide (m' = m /\ k' = k)
    then Some (default [] (collected by_method m k) ++ [x])
    else collected by_method m' k'.
Proof.
  unfold collected, append_value.
  destruct (decide (m' = m)) as [->|Hm].
  - rewrite lookup_insert_eq. cbn.
    destruct (decide (k' = k)) as [->|Hk].
    + rewrite bool_decide_true by auto. rewrite lookup_insert_eq.
      destruct (by_method !! m); reflexivity.
    + rewrite bool_decide_false by tauto.
      rewrite lookup_insert_ne by congruence.
      destruct (by_method !! m); [reflexivity|apply lookup_empty].
  - rewrite bool_decide_false by tauto.
    rewrite lookup_insert_ne by congruence. reflexivity.
Qed.

Lemma append_value_populated by_method (m k : string) (x : float) :
  populated by_method -> populated (append_value m k x by_method).
Proof.
  intros Hp m' metrics. unfold append_value.
  destruct (decide (m' = m)) as [->|Hm].
  - rewrite lookup_insert_eq. intros [= <-]. apply insert_non_empty.
  - rewrite lookup_insert_ne by congruence. apply Hp.
Qed.

Lemma add_experiment_collected by_method (exp : experiment) :
  populated by_method ->
  populated (add_experiment by_method exp) /\
  forall m k,
    collected (add_experiment by_method exp) m k
    = match held exp m k with
      | Some x => Some (default [] (collected by_method m k) ++ [x])
      | None => collected by_method m k
      end.
Proof.
  intros Hp. unfold add_experiment, held.
  apply (map_fold_weak_ind
           (fun r (fm : gmap string value) =>
              populated r /\
              forall m k,
                collected r m k
                = match (if bool_decide (method exp = m) then
                           match fm !! k with
                           | Some (Number x) =>
                               if bool_decide (k <> "method")
                               then Some x else None
                           | _ => None
                           end
                         else None) with
                  | Some x =>
                      Some (default [] (collected by_method m k) ++ [x])
                  | None => collected by_method m k
                  end)).
  - split; [exact Hp|]. intros m k. rewrite lookup_empty.
    destruct (bool_decide _); reflexivity.
  - intros i v fm r Hi [Hpr Hr].
    assert (Hold : forall m, collected r m i = collected by_method m i).
    { intros m. rewrite Hr, Hi. destruct (bool_decide _); reflexivity. }
    case_bool_decide as Hkey.
    + destruct v as [x|].
      * split; [apply append_value_populated, Hpr|].
        intros m k. rewrite append_value_collected.
        destruct (decide (k = i)) as [->|Hk].
        -- rewrite lookup_insert_eq.
           rewrite (bool_decide_true (i <> "method")) by exact Hkey.
           destruct (decide (m = method exp)) as [->|Hm].
           ++ rewrite !bool_decide_true by auto. rewrite Hold. reflexivity.
           ++ rewrite (bool_decide_false (m = method exp /\ i = i)) by tauto.
              rewrite (bool_decide_false (method exp = m)) by congruence.
              apply Hold.
        -- rewrite bool_decide_false by tauto.
           rewrite lookup_insert_ne by congruence. apply Hr.
      * split; [exact Hpr|]. intros m k.
        destruct (decide (k = i)) as [->|Hk].
        -- rewrite lookup_insert_eq, Hold.
           destruct (bool_decide _); reflexivity.
        -- rewrite lookup_insert_ne by congruence. apply Hr.
    + split; [exact Hpr|]. intros m k.
      destruct (decide (k = i)) as [->|Hk].
      * rewrite lookup_insert_eq, Hold.
        rewrite (bool_decide_false (i <> "method"))
          by (intros Hc; exact (Hc Hkey)).
        destruct (bool_decide _); [destruct v|]; reflexivity.
      * rewrite lookup_insert_ne by congruence. apply Hr.
Qed.

Lemma values_of_snoc (m k : string) (exps : list experiment)
    (exp : experiment) :
  values_of m k (exps ++ [exp])
  = values_of m k exps
    ++ match held exp m k with Some x => [x] | None => [] end.
Proof.
  unfold values_of, held. rewrite flat_map_app. f_equal. cbn.
  rewrite app_nil_r. destruct (bool_decide _); [|reflexivity].
  destruct (fields exp !! k) as [[x|]|]; try reflexivity.
  destruct (bool_decide _); reflexivity.
Qed.

Lemma fold_add_experiment (exps : list experiment) :
  let by_method := fold_left add_experiment exps ∅ in
  populated by_method /\
  forall m k,
    collected by_method m k
    = match values_of m k exps with
      | [] => None
      | values => Some values
      end.
Proof.
  induction exps as [|exp exps IH] using rev_ind; cbv zeta.
  - cbn [fold_left]. split; [intros m metrics Hm; rewrite lookup_empty in Hm; discriminate|].
    intros m k. unfold collected. rewrite lookup_empty. reflexivity.
  - cbv zeta in IH. destruct IH as [Hp Hc]. rewrite fold_left_app.
    cbn [fold_left].
    destruct (add_experiment_collected _ exp Hp) as [Hp' Hc'].
    split; [exact Hp'|]. intros m k.
    rewrite Hc', Hc, values_of_snoc.
    destruct (held exp m k) as [x|]; [|rewrite app_nil_r; reflexivity].
    destruct (values_of m k exps) as [|v vs]; reflexivity.
Qed.

Lemma aggregate_by_method_lookup (results : list (list experiment))
    (m k : string) :
  aggregate_by_method results !! m ≫= (fun metrics => metrics !! k)
  = match values_of m k (concat results) with
    | [] => None
    | values => Some (statistics values)
    end.
Proof.
  unfold aggregate_by_method, stats_t.
  destruct (fold_add_experiment (concat results)) as [_ Hc].
  cbv zeta in Hc. specialize (Hc m k). unfold collected in Hc.
  rewrite lookup_fmap.
  destruct (fold_left add_experiment (concat results) ∅ !! m) as [metrics|];
    cbn in *.
  - rewrite lookup_fmap, Hc.
    destruct (values_of m k (concat results)); reflexivity.
  - destruct (values_of m k (concat results)); [reflexivity|discriminate].
Qed.

Lemma aggregate_by_method_missing (results : list (list experiment))
    (m : string) :
  aggregate_by_method results !! m = None <->
  forall k, values_of m k (concat results) = [].
Proof.
  unfold aggregate_by_method, stats_t.
  destruct (fold_add_experiment (concat results)) as [Hp Hc].
  cbv zeta in Hp, Hc. rewrite lookup_fmap.
  destruct (fold_left add_experiment (concat results) ∅ !! m)
    as [metrics|] eqn:Em; cbn.
  - split; [discriminate|]. intros Hnone. exfalso.
    apply (Hp m metrics Em). apply map_empty. intros k.
    specialize (Hc m k). unfold collected in Hc. rewrite Em in Hc. cbn in Hc.
    rewrite Hc, Hnone. reflexivity.
  - split; [|reflexivity]. intros _ k.
    specialize (Hc m k). unfold collected in Hc. rewrite Em in Hc. cbn in Hc.
    destruct (values_of m k (concat results)); [reflexivity|discriminate].
Qed.

(** The statistics of a method and metric are those of the numbers the
    experiments of that method hold under that key, over all result
    files in order, and are absent when there is no such number; a method
    is absent exactly when its experiments hold no number at all; and
    [np.min] and [np.max] never see an empty list. *)
Theorem aggregate_by_method_spec (results : list (list experiment))
    (m k : string) :
  aggregate_by_method results !! m ≫= (fun metrics => metrics !! k)
  = match values_of m k (concat results) with
    | [] => None
    | values => Some (statistics values)
    end /\
  (aggregate_by_method results !! m = None <->
   forall key, values_of m key (concat results) = []) /\
  (values_of m k (concat results) <> [] ->
   F64.np_min (values_of m k (concat results))
   = Ok (min (statistics (values_of m k (concat results)))) /\
   F64.np_max (values_of m k (concat results))
   = Ok (max (statistics (values_of m k (concat results))))).
Proof.
  split; [apply aggregate_by_method_lookup|].
  split; [apply aggregate_by_method_missing|].
  intros Hne. destruct (values_of m k (concat results)); [congruence|].
  split; reflexivity.
Qed.

Lemma values_of_other_method (m k : string) (exps : list experiment) :
  (forall exp, exp ∈ exps -> method exp <> m) -> values_of m k exps = [].
Proof.
  intros Hm. unfold values_of.
  induction exps as [|exp exps IH]; [reflexivity|]. cbn.
  rewrite bool_decide_false by (apply Hm; left). cbn.
  apply IH. intros e He. apply Hm. right. exact He.
Qed.

(** Result files in which no experiment is of one of the two methods give
    INSUFFICIENT_DATA, whatever the other method measured. *)
Theorem one_method_insufficient_data (results : list (list experiment)) :
  (forall exp, exp ∈ concat results -> method exp <> "lattice-hybrid") \/
  (forall exp, exp ∈ concat results -> method exp <> "boundary-aware") ->
  determine_verdict (compare_methods (aggregate_by_method results))
  = INSUFFICIENT_DATA.
Proof.
  intros Hno. apply determine_verdict_insufficient.
  unfold compare_methods.
  destruct Hno as [Hno|Hno].
  - rewrite (proj2 (aggregate_by_method_missing results "lattice-hybrid"));
      [reflexivity|].
    intros k. apply values_of_other_method, Hno.
  - rewrite (proj2 (aggregate_by_method_missing results "boundary-aware"));
      [|intros k; apply values_of_other_method, Hno].
    destruct (aggregate_by_method results !! "lattice-hybrid"); reflexivity.
Qed.

Lemma one_method_insufficient_data_witness :
  ((forall exp, exp ∈ concat Samples.baseline_only_results ->
                method exp <> "lattice-hybrid") \/
   (forall exp, exp ∈ concat Samples.baseline_only_results ->
                method exp <> "boundary-aware")) /\
  determine_verdict
    (compare_methods (aggregate_by_method Samples.baseline_only_results))
  = INSUFFICIENT_DATA.
Proof.
  assert (Hno : forall exp, exp ∈ concat Samples.baseline_only_results ->
                            method exp <> "boundary-aware").
  { intros exp Hexp. cbn in Hexp. apply list_elem_of_singleton in Hexp.
    subst exp. discriminate. }
  split; [right; exact Hno|].
  apply (one_method_insufficient_data Samples.baseline_only_results).
  right. exact Hno.
Defined.

End Aggregation.

(** ** Exact search and the evaluation loop *)

Section TopK.
Import msmarco_eval_retrieval.
Context {F : Type} `{Scalar F}.

Lemma argsort_insert_perm (x : nat * F) (l : list (nat * F)) :
  insert_indexed x l ≡ₚ x :: l.
Proof.
  induction l as [|y l IH]; cbn; [reflexivity|].
  destruct (Np.sort_leb _ _); [reflexivity|].
  rewrite IH. apply Permutation_swap.
Qed.

(** [np.argsort] returns every index once. *)
Lemma argsort_perm (a : list F) : np_argsort a ≡ₚ seq 0 (length a).
Proof.
  unfold np_argsort.
  assert (Hp : fold_right insert_indexed [] (imap pair a) ≡ₚ imap pair a).
  { induction (imap pair a) as [|x l IH]; [reflexivity|].
    cbn [fold_right]. rewrite argsort_insert_perm, IH. reflexivity. }
  rewrite Hp. rewrite (imap_ext pair (fun j => pair (0 + j)%nat)) by reflexivity.
  rewrite imap_pair_fst. reflexivity.
Qed.

Lemma map_result_length {A B : Type} (f : A -> result B) (l : list A)
    (bs : list B) :
  Np.map_result f l = Ok bs -> length bs = length l.
Proof.
  intros Hm. apply map_result_Forall2 in Hm. symmetry.
  eapply Forall2_length, Hm.
Qed.

Lemma py_take_nonneg_length {A : Type} (k : Z) (l : list A) :
  (0 <= k)%Z -> length (Np.py_take k l) = Nat.min (Z.to_nat k) (length l).
Proof.
  intros Hk. unfold Np.py_take. destruct (Z.leb_spec 0 k); [|lia].
  apply length_take.
Qed.

(** The search returns distinct indices of passages: the first [k] of
    them all for a cutoff [k >= 0] (fewer when there are fewer
    passages). *)
Lemma search_top_k_shape (query_embedding : list F)
    (passage_embeddings : list (list F)) (k : Z) (indices : list nat) :
  search_top_k query_embedding passage_embeddings k = Ok indices ->
  NoDup indices /\
  Forall (fun i => (i < length passage_embeddings)%nat) indices /\
  ((0 <= k)%Z ->
   length indices = Nat.min (Z.to_nat k) (length passage_embeddings)).
Proof.
  unfold search_top_k.
  destruct (Np.map_result _ _) as [sims|e] eqn:Es; cbn [bind]; [|discriminate].
  intros [= <-]. apply map_result_length in Es. rewrite length_map in Es.
  assert (Hp : rev (np_argsort sims)
               ≡ₚ seq 0 (length passage_embeddings)).
  { rewrite <- Permutation_rev, argsort_perm, Es. reflexivity. }
  assert (Hnd : NoDup (rev (np_argsort sims)))
    by (rewrite Hp; apply NoDup_seq).
  split; [|split].
  - eapply sublist_NoDup; [exact Hnd|apply py_take_sublist].
  - apply Forall_forall. intros i Hi.
    eapply elem_of_sublist in Hi; [|apply py_take_sublist].
    rewrite Hp in Hi. apply elem_of_seq in Hi. lia.
  - intros Hk. rewrite py_take_nonneg_length by exact Hk.
    rewrite (Permutation_length Hp), length_seq. reflexivity.
Qed.

Lemma dot_returns (u v : list F) :
  length u = length v -> exists x, dot u v = Ok x.
Proof.
  intros Hl. unfold dot. rewrite Hl, Nat.eqb_refl. eauto.
Qed.

Lemma search_top_k_returns (query_embedding : list F)
    (passage_embeddings : list (list F)) (k : Z) :
  Forall (fun row => length row = length query_embedding)
    passage_embeddings ->
  exists indices,
    search_top_k query_embedding passage_embeddings k = Ok indices.
Proof.
  intros Hd. unfold search_top_k.
  match goal with
  | |- context [Np.map_result ?f ?l] =>
      destruct (map_result_returns f l) as [sims ->]
  end.
  - apply Forall_fmap. eapply Forall_impl; [exact Hd|]. cbn.
    intros row Hrow. apply dot_returns. unfold normalize.
    rewrite !length_map. exact Hrow.
  - cbn [bind]. eauto.
Qed.

Lemma dot_raises (u v : list F) :
  length u <> length v -> dot u v = Raise ValueError.
Proof.
  intros Hl. unfold dot.
  destruct (Nat.eqb_spec (length u) (length v)); [contradiction|reflexivity].
Qed.

(** On at least one passage row, all of the dimension of the query,
    [search_top_k] returns distinct indices of passages: for a cutoff
    [k >= 0] as many as the cutoff allows, and all of them when there are
    fewer passages.  Nothing here depends on the order [np.argsort] gives
    to equal similarities. *)
Theorem search_top_k_indices (query_embedding : list F)
    (passage_embeddings : list (list F)) (k : Z) :
  passage_embeddings <> [] ->
  Forall (fun row => length row = length query_embedding)
    passage_embeddings ->
  exists indices : list nat,
    search_top_k query_embedding passage_embeddings k = Ok indices /\
    NoDup indices /\
    Forall (fun i => (i < length passage_embeddings)%nat) indices /\
    ((0 <= k)%Z ->
     length indices = Nat.min (Z.to_nat k) (length passage_embeddings)).
Proof.
  intros _ Hd.
  destruct (search_top_k_returns query_embedding passage_embeddings k Hd)
    as [indices Hs].
  exists indices. split; [exact Hs|].
  exact (search_top_k_shape _ _ _ _ Hs).
Qed.

(** On at least one passage row, [search_top_k] raises nothing but
    [ValueError], and raises it exactly when some passage row has not the
    dimension of the query. *)
Theorem search_top_k_raises_iff (query_embedding : list F)
    (passage_embeddings : list (list F)) (k : Z) (e : exn) :
  passage_embeddings <> [] ->
  search_top_k query_embedding passage_embeddings k = Raise e <->
  e = ValueError /\
  Exists (fun row => length row <> length query_embedding)
    passage_embeddings.
Proof.
  intros _.
  assert (Hraise :
    Exists (fun row => length row <> length query_embedding)
      passage_embeddings ->
    search_top_k query_embedding passage_embeddings k = Raise ValueError).
  { intros Hex. unfold search_top_k.
    rewrite (map_result_raises_only _ _ ValueError); [reflexivity| |].
    - apply Forall_fmap, Forall_forall. intros row _. cbn.
      destruct (Nat.eq_dec (length (normalize row))
                  (length (normalize query_embedding))) as [Hl|Hl].
      + left. apply dot_returns, Hl.
      + right. apply dot_raises, Hl.
    - apply Exists_fmap. eapply Exists_impl; [exact Hex|]. cbn.
      intros row Hrow. apply dot_raises. unfold normalize.
      rewrite !length_map. exact Hrow. }
  split.
  - intros Hr.
    destruct (decide (Forall (fun row => length row = length query_embedding)
                        passage_embeddings)) as [Hd|Hd].
    + destruct (search_top_k_returns query_embedding passage_embeddings k Hd)
        as [indices Hs]. congruence.
    + apply not_Forall_Exists in Hd; [|intros row; apply _].
      assert (Hex : Exists (fun row => length row <> length query_embedding)
                      passage_embeddings).
      { eapply Exists_impl; [exact Hd|]. cbn. auto. }
      split; [|exact Hex]. apply Hraise in Hex. congruence.
  - intros [-> Hex]. apply Hraise, Hex.
Qed.

End TopK.

Section EvaluationLoop.
Import msmarco_eval_retrieval.
Context {F : Type} `{Scalar F} `{Log2 F}.

Lemma lookup_ids_Forall2 (passages_metadata : list string)
    (indices : list nat) (ids : list string) :
  Np.map_result
    (fun idx => match passages_metadata !! idx with
                | Some passage_id => Ok passage_id
                | None => Raise IndexError
                end) indices = Ok ids ->
  Forall2 (fun idx id => passages_metadata !! idx = Some id) indices ids.
Proof.
  intros Hm. apply map_result_Forall2 in Hm.
  eapply Forall2_impl; [exact Hm|]. cbn. intros idx id.
  destruct (passages_metadata !! idx); [intros [= ->]; reflexivity|discriminate].
Qed.

(** Distinct indices into distinct identifiers are distinct identifiers. *)
Lemma lookup_ids_NoDup (passages_metadata : list string)
    (indices : list nat) (ids : list string) :
  NoDup passages_metadata -> NoDup indices ->
  Forall2 (fun idx id => passages_metadata !! idx = Some id) indices ids ->
  NoDup ids.
Proof.
  intros Hmeta Hidx Hf. induction Hf as [|idx id indices ids Hl Hf IH].
  - constructor.
  - apply NoDup_cons in Hidx as [Hfresh Hidx].
    constructor; [|apply IH, Hidx].
    intros Hin. apply Hfresh.
    apply list_elem_of_lookup_1 in Hin as (j & Hj).
    destruct (Forall2_lookup_r _ _ _ _ _ Hf Hj) as (idx' & Hidx' & Hl').
    rewrite <- (NoDup_lookup _ _ _ _ Hmeta Hl' Hl).
    eapply list_elem_of_lookup_2, Hidx'.
Qed.

(** The identifiers retrieved for a query are distinct when the passage
    identifiers are. *)
Lemma evaluate_query_retrieved (query_embedding : list F)
    (passage_embeddings : list (list F)) (passages_metadata : list string)
    (relevant_ids : gset string) (top_k : Z) (s : scores) :
  NoDup passages_metadata ->
  evaluate_query query_embedding passage_embeddings passages_metadata
    relevant_ids top_k = Ok s ->
  exists retrieved_ids : list string,
    NoDup retrieved_ids /\
    s = {| recall_10 := compute_recall_at_k retrieved_ids relevant_ids 10;
           recall_100 := compute_recall_at_k retrieved_ids relevant_ids 100;
           mrr := compute_mrr retrieved_ids relevant_ids;
           ndcg_10 := compute_ndcg_at_k retrieved_ids relevant_ids 10 |}.
Proof.
  intros Hmeta. unfold evaluate_query.
  destruct (search_top_k _ _ _) as [indices|e] eqn:Es; cbn [bind];
    [|discriminate].
  destruct (Np.map_result _ indices) as [ids|e] eqn:Ei; cbn [bind];
    [|discriminate].
  intros [= <-]. exists ids. split; [|reflexivity].
  apply search_top_k_shape in Es as (Hnd & _ & _).
  eapply lookup_ids_NoDup; [exact Hmeta|exact Hnd|].
  apply lookup_ids_Forall2, Ei.
Qed.

Lemma omap_id_elem {A : Type} (l : list (option A)) (x : A) :
  x ∈ omap (fun s => s) l <-> Some x ∈ l.
Proof.
  rewrite list_elem_of_omap. split.
  - intros (o & Ho & ->). exact Ho.
  - intros Hx. exists (Some x). auto.
Qed.

Lemma score_queries_spec (query_embeddings passage_embeddings : list (list F))
    (qrels : gmap string (gset string))
    (queries_metadata passages_metadata : list string) (top_k : Z)
    (scored : list scores) :
  score_queries query_embeddings passage_embeddings qrels queries_metadata
    passages_metadata top_k = Ok scored ->
  length scored
  = length (filter (fun q => is_Some (qrels !! q)) queries_metadata) /\
  Forall
    (fun s => exists query_embedding relevant_ids,
                evaluate_query query_embedding passage_embeddings
                  passages_metadata relevant_ids top_k = Ok s)
    scored.
Proof.
  unfold score_queries.
  destruct (Np.map_result _ _) as [os|e] eqn:Em; cbn [bind]; [|discriminate].
  intros [= <-]. apply map_result_Forall2 in Em.
  remember (imap pair queries_metadata) as iq eqn:Eiq.
  assert (Hq : map snd iq = queries_metadata).
  { subst iq.
    assert (G : forall (f : nat -> nat) (l : list string),
              map snd (imap (fun i => pair (f i)) l) = l).
    { intros f l. revert f. induction l as [|x l IH]; intros f; cbn;
        [reflexivity|]. f_equal. apply (IH (f ∘ S)). }
    apply (G (fun i => i)). }
  rewrite <- Hq. clear Hq Eiq.
  induction Em as [|[i q] o iq os Ho Em [IHl IHf]].
  - split; constructor.
  - cbn [map snd]. rewrite filter_cons. cbn beta in Ho.
    destruct (qrels !! q) as [relevant|] eqn:Eq.
    + destruct (query_embeddings !! i) as [qe|]; [|discriminate].
      destruct (evaluate_query _ _ _ _ _) as [s|e] eqn:Es; cbn [bind] in Ho;
        [|discriminate].
      injection Ho as <-. cbn [omap list_omap].
      rewrite decide_True by eauto. cbn [length]. split; [f_equal; exact IHl|].
      constructor; [eauto|exact IHf].
    + injection Ho as <-. cbn [omap list_omap].
      rewrite decide_False by (intros [? ?]; discriminate).
      split; [exact IHl|exact IHf].
Qed.

End EvaluationLoop.

Section ExactEvaluation.
Import msmarco_eval_retrieval.
Local Open Scope R_scope.

Lemma fold_sum_bounds (xs : list R) (acc : R) :
  Forall (fun x => 0 <= x <= 1) xs ->
  acc <= fold_left Rplus xs acc <= acc + IZR (Z.of_nat (length xs)).
Proof.
  intros Hx. revert acc. induction Hx as [|x xs Hx _ IH]; intros acc.
  - cbn [fold_left length]. change (Z.of_nat 0) with 0%Z. lra.
  - cbn [fold_left length]. specialize (IH (acc + x)).
    rewrite Nat2Z.inj_succ, succ_IZR. lra.
Qed.

Lemma fold_sum_le (xs ys : list R) (a b : R) :
  Forall2 Rle xs ys -> a <= b ->
  fold_left Rplus xs a <= fold_left Rplus ys b.
Proof.
  intros Hf. revert a b. induction Hf as [|x y xs ys Hxy _ IH]; intros a b Hab.
  - exact Hab.
  - cbn [fold_left]. apply IH. lra.
Qed.

Lemma mean_or_zero_bounds (xs : list R) :
  Forall (fun x => 0 <= x <= 1) xs -> 0 <= mean_or_zero xs <= 1.
Proof.
  intros Hx. destruct xs as [|x xs]; [cbn; lra|].
  unfold mean_or_zero, Np.np_mean, Np.of_nat. rewrite np_sum_real.
  cbn [sofZ sdiv sadd real_scalar].
  pose proof (fold_sum_bounds (x :: xs) 0 Hx) as Hs.
  assert (Hn : 0 < IZR (Z.of_nat (length (x :: xs))))
    by (apply IZR_lt; cbn [length]; lia).
  split.
  - apply Rmult_le_pos; [lra|]. left. apply Rinv_0_lt_compat, Hn.
  - apply Rmult_le_reg_r with (IZR (Z.of_nat (length (x :: xs))));
      [exact Hn|].
    unfold Rdiv. rewrite Rmult_assoc, Rinv_l by lra. lra.
Qed.

Lemma mean_or_zero_le (xs ys : list R) :
  Forall2 Rle xs ys -> mean_or_zero xs <= mean_or_zero ys.
Proof.
  intros Hf. pose proof (Forall2_length _ _ _ Hf) as Hl.
  destruct Hf as [|x y xs ys Hxy Hf]; [cbn; lra|].
  unfold mean_or_zero, Np.np_mean, Np.of_nat. rewrite !np_sum_real.
  cbn [sofZ sdiv sadd real_scalar]. rewrite Hl.
  assert (Hn : 0 < IZR (Z.of_nat (length (y :: ys))))
    by (apply IZR_lt; cbn [length]; lia).
  apply Rmult_le_compat_r; [left; apply Rinv_0_lt_compat, Hn|].
  apply fold_sum_le; [constructor; assumption|lra].
Qed.

(** In exact arithmetic and with distinct passage identifiers, whenever
    [evaluate_retrieval] returns: the four reported means lie between 0
    and 1, the mean Recall@10 is at most the mean Recall@100, and the
    number of evaluated queries is the number of queries whose identifier
    has qrels. *)
Theorem evaluate_retrieval_ranges
    (query_embeddings passage_embeddings : list (list R))
    (qrels : gmap string (gset string))
    (queries_metadata passages_metadata : list string) (top_k : Z)
    (start_time end_time : R) (m : metrics) :
  NoDup passages_metadata ->
  evaluate_retrieval query_embeddings passage_embeddings qrels
    queries_metadata passages_metadata top_k start_time end_time = Ok m ->
  0 <= mean_recall_10 m <= mean_recall_100 m /\
  mean_recall_100 m <= 1 /\
  0 <= mean_mrr m <= 1 /\
  0 <= mean_ndcg_10 m <= 1 /\
  num_queries_with_qrels m
  = length (filter (fun q => is_Some (qrels !! q)) queries_metadata) /\
  (num_queries_with_qrels m <= num_queries m)%nat.
Proof.
  intros Hmeta. unfold evaluate_retrieval.
  destruct (score_queries _ _ _ _ _ _) as [scored|e] eqn:Es; cbn [bind];
    [|discriminate].
  intros [= <-].
  cbn [mean_recall_10 mean_recall_100 mean_mrr mean_ndcg_10
       num_queries_with_qrels num_queries].
  apply score_queries_spec in Es as [Hlen Hall].
  assert (Hscores : Forall
            (fun s => 0 <= recall_10 s <= recall_100 s /\
                      recall_100 s <= 1 /\ 0 <= mrr s <= 1 /\
                      0 <= ndcg_10 s <= 1) scored).
  { eapply Forall_impl; [exact Hall|]. cbn. intros s (qe & rel & Hs).
    apply (evaluate_query_retrieved _ _ _ _ _ _ Hmeta) in Hs
      as (ids & Hnd & ->).
    cbn [recall_10 recall_100 mrr ndcg_10].
    pose proof (recall_bounds ids rel 10).
    pose proof (recall_bounds ids rel 100).
    pose proof (recall_mono ids rel 10 100 ltac:(lia)).
    pose proof (mrr_bounds ids rel).
    pose proof (ndcg_bounds ids rel 10 Hnd).
    lra. }
  assert (H10 : 0 <= mean_or_zero (map recall_10 scored) <= 1).
  { apply mean_or_zero_bounds, Forall_fmap.
    eapply Forall_impl; [exact Hscores|]. cbn. intros s. lra. }
  assert (H100 : 0 <= mean_or_zero (map recall_100 scored) <= 1).
  { apply mean_or_zero_bounds, Forall_fmap.
    eapply Forall_impl; [exact Hscores|]. cbn. intros s. lra. }
  assert (Hle : mean_or_zero (map recall_10 scored)
                <= mean_or_zero (map recall_100 scored)).
  { apply mean_or_zero_le. apply Forall2_fmap, Forall_Forall2_diag.
    eapply Forall_impl; [exact Hscores|]. cbn. intros s. lra. }
  split; [lra|]. split; [lra|]. split.
  { apply mean_or_zero_bounds, Forall_fmap.
    eapply Forall_impl; [exact Hscores|]. cbn. intros s. lra. }
  split.
  { apply mean_or_zero_bounds, Forall_fmap.
    eapply Forall_impl; [exact Hscores|]. cbn. intros s. lra. }
  split; [exact Hlen|]. rewrite Hlen. apply length_filter.
Qed.

End ExactEvaluation.

Section EvaluationReturns.
Import msmarco_eval_retrieval.
Context {F : Type} `{Scalar F} `{Log2 F}.

Lemma evaluate_query_returns (query_embedding : list F)
    (passage_embeddings : list (list F)) (passages_metadata : list string)
    (relevant_ids : gset string) (top_k : Z) :
  Forall (fun row => length row = length query_embedding)
    passage_embeddings ->
  (length passage_embeddings <= length passages_metadata)%nat ->
  exists s,
    evaluate_query query_embedding passage_embeddings passages_metadata
      relevant_ids top_k = Ok s.
Proof.
  intros Hd Hm. unfold evaluate_query.
  destruct (search_top_k_returns query_embedding passage_embeddings top_k Hd)
    as [indices Hs].
  rewrite Hs. cbn [bind].
  apply search_top_k_shape in Hs as (_ & Hlt & _).
  match goal with
  | |- context [Np.map_result ?f ?l] =>
      destruct (map_result_returns f l) as [ids ->]
  end.
  - eapply Forall_impl; [exact Hlt|]. cbn. intros i Hi.
    destruct (lookup_lt_is_Some_2 passages_metadata i ltac:(lia)) as [id ->].
    eauto.
  - cbn [bind]. eauto.
Qed.

Lemma evaluate_retrieval_total
    (query_embeddings passage_embeddings : list (list F))
    (qrels : gmap string (gset string))
    (queries_metadata passages_metadata : list string) (top_k : Z)
    (start_time end_time : F) (d : nat) :
  Forall (fun row => length row = d) passage_embeddings ->
  Forall (fun row => length row = d) query_embeddings ->
  (length passage_embeddings <= length passages_metadata)%nat ->
  (length queries_metadata <= length query_embeddings)%nat ->
  exists m : metrics,
    evaluate_retrieval query_embeddings passage_embeddings qrels
      queries_metadata passages_metadata top_k start_time end_time = Ok m.
Proof.
  intros Hp Hq Hpm Hqm. unfold evaluate_retrieval, score_queries.
  match goal with
  | |- context [Np.map_result ?f ?l] =>
      destruct (map_result_returns f l) as [os ->]
  end.
  - apply Forall_forall. intros [i q] Hiq.
    apply list_elem_of_lookup_1 in Hiq as (j & Hj).
    rewrite list_lookup_imap in Hj.
    destruct (queries_metadata !! j) as [q'|] eqn:Eq; [|discriminate].
    cbn in Hj. injection Hj as <- <-.
    apply lookup_lt_Some in Eq.
    destruct (qrels !! q') as [relevant|]; [|eauto].
    destruct (lookup_lt_is_Some_2 query_embeddings j ltac:(lia)) as [qe Hqe].
    rewrite Hqe.
    destruct (evaluate_query_returns qe passage_embeddings passages_metadata
                relevant top_k) as [s ->]; [|exact Hpm|cbn [bind]; eauto].
    eapply Forall_impl; [exact Hp|]. cbn. intros row ->.
    symmetry. eapply (Forall_lookup_1 _ _ _ _ Hq Hqe).
  - cbn [bind]. eauto.
Qed.

(** [evaluate_retrieval] returns when there is a passage, the rows of the
    two embedding arrays have one dimension, every passage has its
    identifier and every query its embedding; it then reports the numbers of queries and of
    passages, and as evaluated the queries whose identifier has qrels. *)
Theorem evaluate_retrieval_returns
    (query_embeddings passage_embeddings : list (list F))
    (qrels : gmap string (gset string))
    (queries_metadata passages_metadata : list string) (top_k : Z)
    (start_time end_time : F) (d : nat) :
  passage_embeddings <> [] ->
  Forall (fun row => length row = d) passage_embeddings ->
  Forall (fun row => length row = d) query_embeddings ->
  (length passage_embeddings <= length passages_metadata)%nat ->
  (length queries_metadata <= length query_embeddings)%nat ->
  exists m : metrics,
    evaluate_retrieval query_embeddings passage_embeddings qrels
      queries_metadata passages_metadata top_k start_time end_time = Ok m /\
    num_queries m = length queries_metadata /\
    num_passages m = length passages_metadata /\
    num_queries_with_qrels m
    = length (filter (fun q => is_Some (qrels !! q)) queries_metadata).
Proof.
  intros _ Hp Hq Hpm Hqm.
  destruct (evaluate_retrieval_total query_embeddings passage_embeddings
              qrels queries_metadata passages_metadata top_k start_time
              end_time d Hp Hq Hpm Hqm) as [m Hm].
  exists m. split; [exact Hm|]. revert Hm. unfold evaluate_retrieval.
  destruct (score_queries _ _ _ _ _ _) as [scored|e] eqn:Es; cbn [bind];
    [|discriminate].
  intros [= <-]. cbn [num_queries num_passages num_queries_with_qrels].
  apply score_queries_spec in Es as [Hlen _]. auto.
Qed.

End EvaluationReturns.

Section RetrievalWitnesses.
Import msmarco_eval_retrieval.

Lemma search_top_k_indices_witness :
  exists indices : list nat,
    search_top_k Samples.query_row Samples.passage_rows 2 = Ok indices /\
    NoDup indices /\
    Forall (fun i => (i < length Samples.passage_rows)%nat) indices /\
    ((0 <= 2)%Z ->
     length indices
     = Nat.min (Z.to_nat 2) (length Samples.passage_rows)).
Proof.
  apply (search_top_k_indices Samples.query_row Samples.passage_rows 2);
    [discriminate|repeat constructor].
Defined.

Lemma search_top_k_raises_iff_witness :
  search_top_k Samples.query_row Samples.line_points 2 = Raise ValueError <->
  ValueError = ValueError /\
  Exists (fun row => length row <> length Samples.query_row)
    Samples.line_points.
Proof.
  apply (search_top_k_raises_iff Samples.query_row Samples.line_points 2
           ValueError).
  discriminate.
Defined.

Lemma evaluate_retrieval_returns_witness :
  exists m : metrics,
    evaluate_retrieval Samples.exact_query_rows Samples.exact_passage_rows
      Samples.q1_qrels Samples.query_ids Samples.passage_ids 10 0%R 1%R
    = Ok m /\
    num_queries m = length Samples.query_ids /\
    num_passages m = length Samples.passage_ids /\
    num_queries_with_qrels m
    = length (filter (fun q => is_Some (Samples.q1_qrels !! q))
                Samples.query_ids).
Proof.
  apply (evaluate_retrieval_returns Samples.exact_query_rows
           Samples.exact_passage_rows Samples.q1_qrels Samples.query_ids
           Samples.passage_ids 10 0%R 1%R 2);
    [discriminate|repeat constructor..].
Defined.

Lemma evaluate_retrieval_ranges_witness :
  exists m : metrics,
    evaluate_retrieval Samples.exact_query_rows Samples.exact_passage_rows
      Samples.q1_qrels Samples.query_ids Samples.passage_ids 10 0%R 1%R
    = Ok m /\
    (0 <= mean_recall_10 m <= mean_recall_100 m /\
     mean_recall_100 m <= 1 /\
     0 <= mean_mrr m <= 1 /\
     0 <= mean_ndcg_10 m <= 1)%R /\
    num_queries_with_qrels m = 1%nat.
Proof.
  destruct (evaluate_retrieval_total Samples.exact_query_rows
              Samples.exact_passage_rows Samples.q1_qrels Samples.query_ids
              Samples.passage_ids 10 0%R 1%R 2) as [m Hm];
    [repeat constructor..|].
  exists m. split; [exact Hm|].
  assert (Hids : NoDup Samples.passage_ids)
    by (unfold Samples.passage_ids; repeat constructor; set_solver).
  destruct (evaluate_retrieval_ranges _ _ _ _ _ _ _ _ m Hids Hm)
    as (H10 & H100 & Hmrr & Hndcg & Hn & _).
  split; [tauto|]. rewrite Hn. reflexivity.
Defined.

End RetrievalWitnesses.
